(** * numerologyCalculator: a shallow embedding of the encoding and search engine

    The development follows the Go package [numerology]:
    - [GoInt]: the machine integers of the program ([int], [uint64], [int32]);
    - the helpers of the package ([isMasterNumber], [inIntSlice], [splitNumber]);
    - the reducer [reduceNumbers];
    - the letter classifier [maskConstructor] and the masks derived from it;
    - the scorer ([numerologyCalculation], [calculateCoreNumber], [calculateDate]);
    - the inverse range solver [generateLookupNums];
    - the query builders and the search coordinator ([nameSearch], [Search]).

    Go strings are byte strings, and a rune is modelled as an [ascii].  The
    names that [Name] and [Names] build have passed through [ToAscii]: every
    rune of such a name is one byte, so ranging over its runes and ranging
    over its bytes coincide, and a byte offset is a position in the list of
    runes.  A name set in another way may hold runes of several bytes, where
    the slices of [calculateCoreNumber] no longer follow the runes; what is
    proved of the name calculations is stated for ASCII names ([asciiName]). *)

From Stdlib Require Import ZArith Lia Ascii String DecimalString.
From stdpp Require Import base tactics option list numbers gmap strings sorting.

Open Scope Z_scope.

(** ** Machine integers *)

Module GoInt.

(** [int] is a 64-bit two's complement integer. *)
Definition min_int : Z := - 2 ^ 63.
Definition max_int : Z := 2 ^ 63 - 1.

Definition in_range (z : Z) : Prop := min_int <= z <= max_int.

(** Wrap-around of a mathematical result into [int]. *)
Definition wrap (z : Z) : Z := (z + 2 ^ 63) mod 2 ^ 64 - 2 ^ 63.

Definition add (a b : Z) : Z := wrap (a + b).
Definition sub (a b : Z) : Z := wrap (a - b).
Definition neg (a : Z) : Z := wrap (- a).

(** The conversions [uint64(n)] and [int32(n)] of an [int]. *)
Definition uint64 (z : Z) : Z := z mod 2 ^ 64.
Definition int32 (z : Z) : Z := (z + 2 ^ 31) mod 2 ^ 32 - 2 ^ 31.

Global Instance in_range_dec z : Decision (in_range z).
Proof. unfold in_range. apply _. Defined.

End GoInt.

(** ** Helpers of the package *)

(** [isMasterNumber] and [inIntSlice] are the same linear scan. *)
Fixpoint isMasterNumber (v : Z) (masterNumbers : list Z) : bool :=
  match masterNumbers with
  | [] => false
  | n :: rest => if v =? n then true else isMasterNumber v rest
  end.

Fixpoint inIntSlice (v : Z) (slice : list Z) : bool :=
  match slice with
  | [] => false
  | n :: rest => if v =? n then true else inIntSlice v rest
  end.

(** [strconv.FormatUint(i, 10)] followed by the subtraction of ['0'] from each
    byte: the decimal digits of [i], most significant first.  An [uint64] has
    at most twenty decimal digits, which bounds the loop. *)
Fixpoint formatDigits (fuel : nat) (i : Z) (acc : list Z) : list Z :=
  match fuel with
  | O => acc
  | S fuel' =>
      let acc' := i mod 10 :: acc in
      if i / 10 =? 0 then acc' else formatDigits fuel' (i / 10) acc'
  end.

Definition splitNumber (i : Z) : list Z := formatDigits 20 i [].

(** The loop [for _, val := range splitNumber(uint64(n)) { totalValue += val }]. *)
Definition sumValues (vals : list Z) : Z := fold_left GoInt.add vals 0.

Definition digitSum (n : Z) : Z := sumValues (splitNumber (GoInt.uint64 n)).

(** ** The reducer *)

(** [reduceNumbers] recurses on the digit sum.  The recursion depth is bounded
    by the binary logarithm of [n] (lemma [reduceNumbers_unfold] shows that the
    bound is never hit, so that the definition satisfies the equation of the
    source for every [n]). *)
Fixpoint reduceNumbers_rec (fuel : nat) (n : Z) (masterNumbers steps : list Z)
  : list Z :=
  let steps := steps ++ [n] in
  if n <? 10 then steps
  else if isMasterNumber n masterNumbers then steps
  else match fuel with
       | O => steps
       | S fuel' => reduceNumbers_rec fuel' (digitSum n) masterNumbers steps
       end.

Definition reduceNumbers (n : Z) (masterNumbers steps : list Z) : list Z :=
  reduceNumbers_rec (Z.to_nat (Z.log2 n)) n masterNumbers steps.

(** Predicates used in the statements about the reducer. *)
Definition is_digit (d : Z) : Prop := 0 <= d <= 9.

Definition log2_drops (k : Z) : bool := Z.log2 (digitSum k) <? Z.log2 k.

(** ** Strings and runes *)

Abbreviation rune := ascii (only parsing).

(** [[]rune(s)] and [string(runes)] for an ASCII string. *)
Definition runesOf (s : string) : list rune := list_ascii_of_string s.
Definition stringOf (rs : list rune) : string := string_of_list_ascii rs.

(** [unicode.ToLower] on an ASCII rune; [strings.ToLower] maps it over the
    string. *)
Definition toLower (r : rune) : rune :=
  let n := N_of_ascii r in
  if ((65 <=? n) && (n <=? 90))%N then ascii_of_N (n + 32) else r.

Definition toUpper (r : rune) : rune :=
  let n := N_of_ascii r in
  if ((97 <=? n) && (n <=? 122))%N then ascii_of_N (n - 32) else r.

Definition ToLower (s : string) : string := stringOf (toLower <$> runesOf s).

(** [Name] and [Names] pass every name through [ToAscii], so the names they
    build hold ASCII characters only.  In such a name every rune is one byte:
    the index that [range] yields for a rune, which is its byte offset in the
    string, is its position in the list of runes, and the slices [name[a:b]]
    and [mask[a:b]] cut the runes and the mask at the same positions.  The
    name calculations below follow the source on such names, and what is
    proved of them is stated for such names. *)
Definition asciiRune (r : rune) : bool := (N_of_ascii r <? 128)%N.

Definition asciiRunes (rs : list rune) : Prop := forallb asciiRune rs = true.

Definition asciiName (name : string) : Prop := asciiRunes (runesOf name).

(** ** The letter classifier *)

Abbreviation letterMask := (list bool) (only parsing).

(** The closure [isVowel] of [maskConstructor]: membership in the map with the
    keys a, e, i, o, u. *)
Definition isVowel (r : rune) : bool :=
  match r with
  | "a" | "e" | "i" | "o" | "u" => true
  | _ => false
  end%char.

Definition runeAt (rs : list rune) (i : nat) : rune := nth i rs "000"%char.

(** The body of the loop of [maskConstructor] at index [i]: the value [m]
    appended to the mask.  The indices [i+1] and [i-1] are within [rs] in the
    branches that read them; [m] keeps its zero value [false] if no case of the
    [switch] applies. *)
Definition maskAt (rs : list rune) (i : nat) (letter : rune) : bool :=
  if Ascii.eqb letter "y" then
    if (length rs =? 1)%nat then true
    else if (i =? 0)%nat then negb (isVowel (runeAt rs (i + 1)))
    else if (i =? length rs - 1)%nat then negb (isVowel (runeAt rs (i - 1)))
    else if negb (i =? 0)%nat && negb (i =? length rs - 1)%nat &&
            Bool.eqb (isVowel (runeAt rs (i - 1))) (isVowel (runeAt rs (i + 1)))
         then negb (isVowel (runeAt rs (i - 1)) && isVowel (runeAt rs (i + 1)))
    else if negb (i =? 0)%nat && negb (i =? length rs - 1)%nat &&
            negb (Bool.eqb (isVowel (runeAt rs (i - 1))) (isVowel (runeAt rs (i + 1))))
         then isVowel (runeAt rs (i + 1))
    else false
  else isVowel letter.

Record maskStruct := { mask_letterMask : letterMask }.

Definition maskConstructor (s : string) : maskStruct :=
  let rs := runesOf (ToLower s) in
  {| mask_letterMask := imap (maskAt rs) rs |}.

(** [make(letterMask, n)] followed by a loop that assigns every index. *)
Definition fillMask (n : nat) (f : nat -> bool) : letterMask :=
  foldl (fun mask i => <[i := f i]> mask) (replicate n false) (seq 0 n).

Definition Full (m : maskStruct) : letterMask :=
  fillMask (length (mask_letterMask m)) (fun _ => true).

Definition Vowels (m : maskStruct) : letterMask := mask_letterMask m.

Definition Consonants (m : maskStruct) : letterMask :=
  let vowels := Vowels m in
  fillMask (length (mask_letterMask m)) (fun i => negb (nth i vowels false)).

(** ** Number systems *)

Record NumberSystem := {
  ns_Name : string;
  NumberMapping : gmap ascii Z;
  ValidNumbers : list Z
}.

Definition Chaldean : NumberSystem := {|
  ns_Name := "Chaldean";
  NumberMapping := list_to_map [
    ("a", 1); ("i", 1); ("j", 1); ("q", 1); ("y", 1);
    ("b", 2); ("k", 2); ("r", 2);
    ("c", 3); ("g", 3); ("l", 3); ("s", 3);
    ("d", 4); ("m", 4); ("t", 4);
    ("e", 5); ("h", 5); ("n", 5); ("x", 5);
    ("u", 6); ("v", 6); ("w", 6);
    ("o", 7); ("z", 7);
    ("f", 8); ("p", 8);
    ("0", 0); ("1", 1); ("2", 2); ("3", 3); ("4", 4);
    ("5", 5); ("6", 6); ("7", 7); ("8", 8); ("9", 9);
    (" ", 0); (".", 0); ("-", 0)
  ]%char;
  ValidNumbers := [1; 2; 3; 4; 5; 6; 7; 8]
|}.

Definition Pythagorean : NumberSystem := {|
  ns_Name := "Pythagorean";
  NumberMapping := list_to_map [
    ("a", 1); ("j", 1); ("s", 1);
    ("b", 2); ("k", 2); ("t", 2);
    ("c", 3); ("l", 3); ("u", 3);
    ("d", 4); ("m", 4); ("v", 4);
    ("e", 5); ("n", 5); ("w", 5);
    ("f", 6); ("o", 6); ("x", 6);
    ("g", 7); ("p", 7); ("y", 7);
    ("h", 8); ("q", 8); ("z", 8);
    ("i", 9); ("r", 9);
    ("0", 0); ("1", 1); ("2", 2);
    ("3", 3); ("4", 4); ("5", 5);
    ("6", 6); ("7", 7); ("8", 8);
    ("9", 9);
    (" ", 0); (".", 0); ("-", 0)
  ]%char;
  ValidNumbers := [1; 2; 3; 4; 5; 6; 7; 8; 9]
|}.

(** ** Results of a calculation *)

Record letterValue := {
  lv_Letter : string;
  lv_Value : Z
}.

Module Breakdown.
Record t := {
  Value : Z;
  ReduceSteps : list Z;
  LetterValues : list letterValue
}.
End Breakdown.

Module NumerologicalResult.
Record t := {
  Value : Z;
  ReduceSteps : list Z;
  Breakdown : list Breakdown.t
}.
End NumerologicalResult.

(** ** The scorer *)

(** An index or slice expression out of range panics: a panic is [None]. *)

(** [l[a:b]]; the capacity of a slice is taken to be its length. *)
Definition sliceOf {A} (l : list A) (a b : nat) : option (list A) :=
  if decide (a <= b <= length l)%nat then Some (take (b - a) (drop a l)) else None.

(** [strings.TrimSpace] on an ASCII string. *)
Definition isSpace (r : rune) : bool :=
  match r with
  | "009" | "010" | "011" | "012" | "013" | " " => true
  | _ => false
  end%char.

Fixpoint trimLeft (rs : list rune) : list rune :=
  match rs with
  | [] => []
  | r :: rest => if isSpace r then trimLeft rest else rs
  end.

Definition TrimSpace (rs : list rune) : list rune :=
  rev (trimLeft (rev (trimLeft rs))).

(** The loop of [numerologyCalculation] from index [i] on: the letter counts
    when it is in the number system and the mask is set at its index; the mask
    is read only for letters of the number system.  The index of the source is
    the byte offset of the rune in the trimmed segment; in an ASCII segment
    ([asciiRunes]) this is its position, which is what [i] counts. *)
Fixpoint scoreLetters (numberSystem : NumberSystem) (mask : list bool) (i : nat)
    (letters : list rune) (totalValue : Z) (nameSteps : list letterValue)
  : option (Z * list letterValue) :=
  match letters with
  | [] => Some (totalValue, nameSteps)
  | letter :: rest =>
      let zero := {| lv_Letter := stringOf [letter]; lv_Value := 0 |} in
      match NumberMapping numberSystem !! toLower letter with
      | Some letterVal =>
          b ← mask !! i;
          if b : bool
          then scoreLetters numberSystem mask (S i) rest
                 (GoInt.add totalValue letterVal)
                 (nameSteps ++ [{| lv_Letter := stringOf [letter]; lv_Value := letterVal |}])
          else scoreLetters numberSystem mask (S i) rest totalValue (nameSteps ++ [zero])
      | None => scoreLetters numberSystem mask (S i) rest totalValue (nameSteps ++ [zero])
      end
  end.

Definition numerologyCalculation (s : list rune) (masterNumbers : list Z)
    (numberSystem : NumberSystem) (reduce : bool) (mask : list bool)
  : option Breakdown.t :=
  '(totalValue, nameSteps) ← scoreLetters numberSystem mask 0 (TrimSpace s) 0 [];
  let reduceSteps :=
    if reduce then reduceNumbers totalValue masterNumbers [] else [totalValue] in
  value ← last reduceSteps;
  Some {| Breakdown.Value := value;
          Breakdown.ReduceSteps := reduceSteps;
          Breakdown.LetterValues := nameSteps |}.

(** The loop of [calculateCoreNumber] over the runes of [name + " "], at index
    [idxEnd], with the loop state [(totalValue, breakdown, idxStart)].  The
    source slices the name and the mask at the byte offsets that [range]
    yields; in an ASCII name ([asciiName]) these are the positions of the
    runes, which is what [idxEnd] and [idxStart] count. *)
Fixpoint coreLoop (name : list rune) (masterNumbers : list Z) (reduceWords : bool)
    (numberSystem : NumberSystem) (mask : list bool)
    (idxEnd : nat) (rest : list rune) (st : Z * list Breakdown.t * nat)
  : option (Z * list Breakdown.t * nat) :=
  match rest with
  | [] => Some st
  | n :: rest' =>
      let '(totalValue, breakdown, idxStart) := st in
      if negb (Ascii.eqb n " ") then
        coreLoop name masterNumbers reduceWords numberSystem mask (S idxEnd) rest' st
      else
        '(totalValue', breakdown') ←
          (if negb (idxStart =? idxEnd)%nat then
             segment ← sliceOf name idxStart idxEnd;
             segmentMask ← sliceOf mask idxStart idxEnd;
             calc ← numerologyCalculation segment masterNumbers numberSystem
                      reduceWords segmentMask;
             Some (GoInt.add totalValue (Breakdown.Value calc), breakdown ++ [calc])
           else Some (totalValue, breakdown));
        coreLoop name masterNumbers reduceWords numberSystem mask (S idxEnd) rest'
          (totalValue', breakdown', S idxEnd)
  end.

Definition calculateCoreNumber (name : string) (masterNumbers : list Z)
    (reduceWords : bool) (numberSystem : NumberSystem) (mask : list bool)
  : option NumerologicalResult.t :=
  '(totalValue, breakdown, _) ←
    coreLoop (runesOf name) masterNumbers reduceWords numberSystem mask
      0 (runesOf name ++ [" "%char]) (0, [], 0%nat);
  reduceSteps ←
    (if (length breakdown =? 1)%nat && reduceWords
     then Breakdown.ReduceSteps <$> breakdown !! 0%nat
     else Some (reduceNumbers totalValue masterNumbers []));
  value ← last reduceSteps;
  Some {| NumerologicalResult.Value := value;
          NumerologicalResult.ReduceSteps := reduceSteps;
          NumerologicalResult.Breakdown := breakdown |}.

(** ** Names *)

Record NameOpts := {
  no_NumberSystem : NumberSystem;
  no_MasterNumbers : list Z;
  no_ReduceWords : bool
}.

Module NameSearchOpts.
Record t := {
  Count : Z;
  Offset : Z;
  Seed : Z;
  Database : string;
  Dictionary : string;
  Gender : rune;
  Sort : string;
  Full : list Z;
  Vowels : list Z;
  Consonants : list Z;
  HiddenPassions : list Z;
  KarmicLessons : list Z
}.
End NameSearchOpts.

Module NameNumerology.
Record t := {
  Name : string;
  Opts : NameOpts;
  SearchOpts : option NameSearchOpts.t
}.

Definition NumberSystem (n : t) := no_NumberSystem (Opts n).
Definition MasterNumbers (n : t) := no_MasterNumbers (Opts n).
Definition ReduceWords (n : t) := no_ReduceWords (Opts n).

Definition Full (n : t) : option NumerologicalResult.t :=
  calculateCoreNumber (Name n) (MasterNumbers n) (ReduceWords n) (NumberSystem n)
    (Full (maskConstructor (Name n))).

Definition Vowels (n : t) : option NumerologicalResult.t :=
  calculateCoreNumber (Name n) (MasterNumbers n) (ReduceWords n) (NumberSystem n)
    (Vowels (maskConstructor (Name n))).

Definition Consonants (n : t) : option NumerologicalResult.t :=
  calculateCoreNumber (Name n) (MasterNumbers n) (ReduceWords n) (NumberSystem n)
    (Consonants (maskConstructor (Name n))).
End NameNumerology.

(** ** Dates *)

(** [strconv.Itoa]. *)
Definition Itoa (n : Z) : string := NilZero.string_of_int (Z.to_int n).

(** The calendar fields of a [time.Time], as [Year()], [Month()] and [Day()]
    return them. *)
Record Date := {
  Year : Z;
  Month : Z;
  Day : Z
}.

Definition letterValuesFromNumber (n : Z) (masterNumbers : list Z)
  : list letterValue :=
  if isMasterNumber n masterNumbers
  then [{| lv_Letter := Itoa n; lv_Value := n |}]
  else (fun i => {| lv_Letter := Itoa i; lv_Value := i |})
         <$> splitNumber (GoInt.uint64 n).

(** The loop of [calculateDate] over year, month and day, with the loop state
    [(totalValue, breakdown)]. *)
Fixpoint dateLoop (masterNumbers : list Z) (vals : list Z)
    (st : Z * list Breakdown.t) : option (Z * list Breakdown.t) :=
  match vals with
  | [] => Some st
  | val :: rest =>
      let '(totalValue, breakdown) := st in
      let reduceSteps := reduceNumbers val masterNumbers [] in
      value ← last reduceSteps;
      let calc := {| Breakdown.Value := value;
                     Breakdown.ReduceSteps := reduceSteps;
                     Breakdown.LetterValues :=
                       letterValuesFromNumber val masterNumbers |} in
      dateLoop masterNumbers rest
        (GoInt.add totalValue (Breakdown.Value calc), breakdown ++ [calc])
  end.

Definition calculateDate (date : Date) (masterNumbers : list Z) (lifePath : bool)
  : option NumerologicalResult.t :=
  '(totalValue, breakdown) ←
    dateLoop masterNumbers [Year date; Month date; Day date] (0, []);
  let reduceSteps :=
    if lifePath then reduceNumbers totalValue masterNumbers []
    else reduceNumbers totalValue [] [] in
  value ← last reduceSteps;
  Some {| NumerologicalResult.Value := value;
          NumerologicalResult.ReduceSteps := reduceSteps;
          NumerologicalResult.Breakdown := breakdown |}.

Module DateNumerology.
Record t := {
  Date : Date;
  MasterNumbers : list Z
}.

Definition Event (d : t) : option NumerologicalResult.t :=
  calculateDate (Date d) (MasterNumbers d) false.

Definition LifePath (d : t) : option NumerologicalResult.t :=
  calculateDate (Date d) (MasterNumbers d) true.
End DateNumerology.


(** ** Segments of a name, as the specification describes them *)

(** [strings.Split(s, sep)] for a one-byte separator. *)
Fixpoint splitOn (sep : rune) (rs : list rune) : list (list rune) :=
  match rs with
  | [] => [[]]
  | r :: rest =>
      if Ascii.eqb r sep then [] :: splitOn sep rest
      else match splitOn sep rest with
           | part :: parts => (r :: part) :: parts
           | [] => [[r]]
           end
  end.

(** Each part with the index at which it starts in the string. *)
Fixpoint withOffsets (offset : nat) (parts : list (list rune))
  : list (nat * list rune) :=
  match parts with
  | [] => []
  | part :: rest => (offset, part) :: withOffsets (offset + length part + 1) rest
  end.

Definition nonEmptyPart (p : nat * list rune) : bool :=
  match snd p with [] => false | _ => true end.

(** The space-delimited segments of a name: the non-empty parts between
    spaces. *)
Definition segmentsFrom (offset : nat) (rs : list rune) : list (nat * list rune) :=
  List.filter nonEmptyPart (withOffsets offset (splitOn " " rs)).

(** The segment made of a run [cur] of non-space runes, if it is not empty. *)
Definition segmentOf (offset : nat) (cur : list rune) : list (nat * list rune) :=
  match cur with [] => [] | _ => [(offset, cur)] end.

Definition segments (name : string) : list (nat * list rune) :=
  segmentsFrom 0 (runesOf name).

(** The calculation on one segment, with the part of the mask at its indices. *)
Definition scoreSegment (masterNumbers : list Z) (reduceWords : bool)
    (numberSystem : NumberSystem) (mask : list bool) (seg : nat * list rune)
  : option Breakdown.t :=
  segmentMask ← sliceOf mask (fst seg) (fst seg + length (snd seg));
  numerologyCalculation (snd seg) masterNumbers numberSystem reduceWords segmentMask.

(** One step of the loop of [calculateCoreNumber] on a segment. *)
Definition addSegment (masterNumbers : list Z) (reduceWords : bool)
    (numberSystem : NumberSystem) (mask : list bool)
    (st : option (Z * list Breakdown.t)) (seg : nat * list rune)
  : option (Z * list Breakdown.t) :=
  '(totalValue, breakdown) ← st;
  calc ← scoreSegment masterNumbers reduceWords numberSystem mask seg;
  Some (GoInt.add totalValue (Breakdown.Value calc), breakdown ++ [calc]).

(** ** Example inputs *)

Definition standardMasters : list Z := [11; 22; 33].

Definition kevinBacon : NameNumerology.t :=
  {| NameNumerology.Name := "Kevin Norwood Bacon";
     NameNumerology.Opts := {| no_NumberSystem := Pythagorean;
                               no_MasterNumbers := standardMasters;
                               no_ReduceWords := true |};
     NameNumerology.SearchOpts := None |}.

Definition georgeWashington : NameNumerology.t :=
  {| NameNumerology.Name := "George Washington";
     NameNumerology.Opts := {| no_NumberSystem := Pythagorean;
                               no_MasterNumbers := standardMasters;
                               no_ReduceWords := true |};
     NameNumerology.SearchOpts := None |}.

(** The parts of a result that the examples of the package print. *)
Definition summary (r : NumerologicalResult.t)
  : Z * list Z * list (list Z * list Z) :=
  (NumerologicalResult.Value r, NumerologicalResult.ReduceSteps r,
   (fun b => (lv_Value <$> Breakdown.LetterValues b, Breakdown.ReduceSteps b))
     <$> NumerologicalResult.Breakdown r).

(** ** Predicates of the statements about results *)

(** The value of a breakdown is the last of its reduction steps. *)
Definition breakdownClosed (b : Breakdown.t) : Prop :=
  Breakdown.ReduceSteps b <> [] /\
  last (Breakdown.ReduceSteps b) = Some (Breakdown.Value b).

(** The same for a result and for each breakdown in it. *)
Definition resultClosed (r : NumerologicalResult.t) : Prop :=
  NumerologicalResult.ReduceSteps r <> [] /\
  last (NumerologicalResult.ReduceSteps r) = Some (NumerologicalResult.Value r) /\
  Forall breakdownClosed (NumerologicalResult.Breakdown r).

(** A breakdown [b] is the reduced score of the segment [seg]: the letters of
    the segment are summed under the part of the mask at its indices, and the
    sum is reduced. *)
Definition segmentReduced (masterNumbers : list Z) (numberSystem : NumberSystem)
    (mask : list bool) (seg : nat * list rune) (b : Breakdown.t) : Prop :=
  exists segmentMask totalValue nameSteps,
    sliceOf mask (fst seg) (fst seg + length (snd seg)) = Some segmentMask /\
    scoreLetters numberSystem segmentMask 0 (TrimSpace (snd seg)) 0 []
      = Some (totalValue, nameSteps) /\
    Breakdown.ReduceSteps b = reduceNumbers totalValue masterNumbers [] /\
    last (Breakdown.ReduceSteps b) = Some (Breakdown.Value b) /\
    Breakdown.LetterValues b = nameSteps.

(** ** The inverse range solver *)

(** The first loop of [generateLookupNums]: the targets are split into the
    non-negative ones and the negated negative ones. *)
Fixpoint splitTargets (numerologyNums positiveNums negativeNums : list Z)
  : list Z * list Z :=
  match numerologyNums with
  | [] => (positiveNums, negativeNums)
  | n :: rest =>
      if 0 <=? n then splitTargets rest (positiveNums ++ [n]) negativeNums
      else splitTargets rest positiveNums (negativeNums ++ [GoInt.neg n])
  end.

(** The loop over [validNum]: the first step found among the negative or the
    positive numbers decides and ends the loop. *)
Fixpoint matchSteps (validNum positiveNums negativeNums : list Z) (noMatch : bool)
  : bool :=
  match validNum with
  | [] => noMatch
  | v :: rest =>
      if inIntSlice v negativeNums then true
      else if inIntSlice v positiveNums then false
      else matchSteps rest positiveNums negativeNums noMatch
  end.

(** The body of the main loop for the candidate [i]: the final value of
    [noMatch], or [None] if indexing [reducedI] panics. *)
Definition lookupNoMatch (minSearchNumber : Z) (positiveNums negativeNums : list Z)
    (masterNumbers : list Z) (reduceWords : bool) (i : Z) : option bool :=
  let reducedI := reduceNumbers i masterNumbers [] in
  let idx := if reduceWords then (length reducedI - 1)%nat else 0%nat in
  r ← reducedI !! idx;
  let validNum := reduceNumbers (GoInt.add minSearchNumber r) masterNumbers [] in
  Some (matchSteps validNum positiveNums negativeNums (0 <? length positiveNums)%nat).

(** The main loop [for i := 1; minSearchNumber+i <= maxSearchNumber; i++].
    [None] when the loop has not ended after [fuel] iterations (or panicked). *)
Fixpoint lookupLoop (fuel : nat) (minSearchNumber maxSearchNumber : Z)
    (positiveNums negativeNums masterNumbers : list Z) (reduceWords : bool)
    (i : Z) (nums : list Z) : option (list Z) :=
  match fuel with
  | O => None
  | S fuel' =>
      if GoInt.add minSearchNumber i <=? maxSearchNumber then
        noMatch ← lookupNoMatch minSearchNumber positiveNums negativeNums
                    masterNumbers reduceWords i;
        lookupLoop fuel' minSearchNumber maxSearchNumber positiveNums negativeNums
          masterNumbers reduceWords (GoInt.add i 1)
          (if noMatch : bool then nums else nums ++ [i])
      else Some nums
  end.

Definition generateLookupNums (fuel : nat) (minSearchNumber maxSearchNumber : Z)
    (numerologyNums masterNumbers : list Z) (reduceWords : bool) : option (list Z) :=
  let '(positiveNums, negativeNums) := splitTargets numerologyNums [] [] in
  lookupLoop fuel minSearchNumber maxSearchNumber positiveNums negativeNums
    masterNumbers reduceWords 1 [].

(** Iterations that suffice when the bounds are far from the largest [int]. *)
Definition lookupFuel (minSearchNumber maxSearchNumber : Z) : nat :=
  S (Z.to_nat (maxSearchNumber - minSearchNumber)).

(** *** The solver as the specification describes it *)

Definition acceptableSet (targets : list Z) : list Z :=
  List.filter (fun n => 0 <=? n) targets.

Definition excludedSet (targets : list Z) : list Z :=
  Z.abs <$> List.filter (fun n => n <? 0) targets.

(** How the unknown fragment of magnitude [i] reduces on its own. *)
Definition fragmentValue (masterNumbers : list Z) (reduceWords : bool) (i : Z) : Z :=
  if reduceWords then default i (last (reduceNumbers i masterNumbers [])) else i.

(** The reduction steps of the known prefix plus the fragment. *)
Definition totalSteps (minSearchNumber : Z) (masterNumbers : list Z)
    (reduceWords : bool) (i : Z) : list Z :=
  reduceNumbers (minSearchNumber + fragmentValue masterNumbers reduceWords i)
    masterNumbers [].

(** The acceptance of the claim: only the reduced total is compared with the
    two sets. *)
Definition acceptsReducedTotal (targets : list Z) (steps : list Z) : Prop :=
  exists total, last steps = Some total /\
    ~ In total (excludedSet targets) /\
    (acceptableSet targets <> [] -> In total (acceptableSet targets)).

(** The acceptance of the code: the steps are scanned from the first to the
    last; a step in the acceptable set accepts if neither it nor an earlier
    step is excluded; without such a step, an empty acceptable set accepts if
    no step is excluded. *)
Definition acceptsFirstHit (targets : list Z) (steps : list Z) : Prop :=
  (exists k v, steps !! k = Some v /\ In v (acceptableSet targets) /\
     forall j w, (j <= k)%nat -> steps !! j = Some w -> ~ In w (excludedSet targets)) \/
  (acceptableSet targets = [] /\
   forall w, In w steps -> ~ In w (excludedSet targets)).

(** The decision of the main loop of [generateLookupNums] on the candidate [i],
    as a function of [i] alone. *)
Definition candidateAccepted (minSearchNumber : Z) (positiveNums negativeNums : list Z)
    (masterNumbers : list Z) (reduceWords : bool) (i : Z) : bool :=
  negb (matchSteps
          (reduceNumbers
             (GoInt.add minSearchNumber (fragmentValue masterNumbers reduceWords i))
             masterNumbers [])
          positiveNums negativeNums (0 <? length positiveNums)%nat).

(** The sum of a list of integers, without wrap-around. *)
Definition plainSum (vals : list Z) : Z := fold_right Z.add 0 vals.

(** ** Occurrence counts *)

(** [counts[k]] of a Go map: the zero value when the key is absent. *)
Definition countOf (counts : gmap Z Z) (k : Z) : Z := default 0 (counts !! k).

(** The first loop of [countNumerologicalNumbers]: every valid number starts
    with the count zero. *)
Definition initCounts (validNumbers : list Z) : gmap Z Z :=
  foldl (fun counts i => <[GoInt.int32 i := 0]> counts) ∅ validNumbers.

(** The second loop, with the state [(counts, maxCount, unknownChars)]. *)
Definition countRune (numberSystem : NumberSystem)
    (st : gmap Z Z * Z * gset ascii) (n : rune) : gmap Z Z * Z * gset ascii :=
  let '(counts, maxCount, unknownChars) := st in
  let num := GoInt.int32 (default 0 (NumberMapping numberSystem !! toLower n)) in
  match counts !! num with
  | Some c =>
      let newCount := GoInt.add c 1 in
      (<[num := newCount]> counts,
       if maxCount <? newCount then newCount else maxCount,
       unknownChars)
  | None => (counts, maxCount, unknownChars ∪ {[toLower n]})
  end.

Definition countNumerologicalNumbers (name : string) (numberSystem : NumberSystem)
  : gmap Z Z * Z * gset ascii :=
  foldl (countRune numberSystem) (initCounts (ValidNumbers numberSystem), 0, ∅)
    (runesOf name).

(** ** Search queries *)

(** An argument bound to a [?] of a condition. *)
Inductive sqlArg :=
  | ArgInt (n : Z)
  | ArgInts (ns : list Z)
  | ArgString (s : string).

(** The conditions that the search adds to its query, one constructor for each
    SQL text of the source; [sqlOf] gives the text and the arguments. *)
Inductive comparison :=
  | Greater (leftCol rightCol : string)
  | GreaterMinus (leftCol rightCol : string) (diff : Z).

Inductive whereClause :=
  | WLike (pattern : string)
  | WIdGe (n : Z)
  | WGender (g : string)
  | WIn (col : string) (nums : list Z)
  | WFalse
  | WPlusGtZero (col : string) (count : Z)
  | WLe (col : string) (bound : Z)
  | WCompare (left comparator right : string)
  | WComparePlus (left comparator right : string) (target : Z)
  | WAnyOf (alternatives : list comparison).

Definition sqlOfComparison (c : comparison) : string * list sqlArg :=
  match c with
  | Greater l r => (l +:+ " > " +:+ r, [])
  | GreaterMinus l r diff => (l +:+ " > " +:+ r +:+ " - ?", [ArgInt diff])
  end.

Definition sqlOf (c : whereClause) : string * list sqlArg :=
  match c with
  | WLike pattern => ("LOWER(name) LIKE ?", [ArgString pattern])
  | WIdGe n => ("id >= ?", [ArgInt n])
  | WGender g => ("gender = ?", [ArgString g])
  | WIn col nums => (col +:+ " IN ?", [ArgInts nums])
  | WFalse => ("FALSE", [])
  | WPlusGtZero col count => (col +:+ " + ? > 0", [ArgInt count])
  | WLe col bound => (col +:+ " <= ?", [ArgInt bound])
  | WCompare l cmp r => (l +:+ " " +:+ cmp +:+ " " +:+ r, [])
  | WComparePlus l cmp r target =>
      (l +:+ " " +:+ cmp +:+ " " +:+ r +:+ " + ?", [ArgInt target])
  | WAnyOf alternatives =>
      (foldl (fun sql alt =>
                match sql with
                | EmptyString => fst (sqlOfComparison alt)
                | _ => sql +:+ " OR " +:+ fst (sqlOfComparison alt)
                end) EmptyString alternatives,
       concat ((fun alt => snd (sqlOfComparison alt)) <$> alternatives))
  end.

(** The query under construction: what has been asked of gorm so far. *)
Record query := {
  q_table : string;
  q_select : string;
  q_group : string;
  q_limit : Z;
  q_offset : option Z;
  q_order : list string;
  q_wheres : list whereClause
}.

Definition Where (q : query) (c : whereClause) : query :=
  {| q_table := q_table q; q_select := q_select q; q_group := q_group q;
     q_limit := q_limit q; q_offset := q_offset q; q_order := q_order q;
     q_wheres := q_wheres q ++ [c] |}.

Definition Order (q : query) (o : string) : query :=
  {| q_table := q_table q; q_select := q_select q; q_group := q_group q;
     q_limit := q_limit q; q_offset := q_offset q; q_order := q_order q ++ [o];
     q_wheres := q_wheres q |}.

Definition Offset (q : query) (n : Z) : query :=
  {| q_table := q_table q; q_select := q_select q; q_group := q_group q;
     q_limit := q_limit q; q_offset := Some n; q_order := q_order q;
     q_wheres := q_wheres q |}.

Definition Limit (q : query) (n : Z) : query :=
  {| q_table := q_table q; q_select := q_select q; q_group := q_group q;
     q_limit := n; q_offset := q_offset q; q_order := q_order q;
     q_wheres := q_wheres q |}.

(** A row of the table, as far as the conditions on numbers read it. *)
Record tableRow := {
  row_Id : Z;
  row_Name : string;
  row_column : string -> Z
}.

(** The meaning of the conditions on numeric columns. *)
Definition holds (row : tableRow) (c : whereClause) : option Prop :=
  match c with
  | WIdGe n => Some (n <= row_Id row)
  | WIn col nums => Some (In (row_column row col) nums)
  | WFalse => Some False
  | WPlusGtZero col count => Some (row_column row col + count > 0)
  | WLe col bound => Some (row_column row col <= bound)
  | _ => None
  end.

(** ** Karmic lessons in a search *)

(** [string(strings.ToLower(numberSystem.Name)[0])]: indexing an empty name
    panics. *)
Definition columnPrefix (numberSystem : NumberSystem) : option string :=
  r ← runesOf (ToLower (ns_Name numberSystem)) !! 0%nat;
  Some (stringOf [r]).

(** [fmt.Sprintf("%v%d", prefix, i)]. *)
Definition countColumn (prefix : string) (i : Z) : string := prefix +:+ Itoa i.

(** The condition that [queryKarmicLessons] adds for the entry [i]. *)
Definition karmicLessonClause (prefix : string) (currentCount : gmap Z Z) (i : Z)
  : whereClause :=
  if i <? 0 then
    let col := countColumn prefix (GoInt.neg i) in
    let count := countOf currentCount (GoInt.int32 (GoInt.neg i)) in
    WPlusGtZero col count
  else
    let col := countColumn prefix i in
    let count := countOf currentCount (GoInt.int32 i) in
    WLe col (GoInt.sub 0 count).

Definition queryKarmicLessons (q : query) (name : string) (n : list Z)
    (numberSystem : NumberSystem) : option query :=
  if (length n =? 0)%nat then Some q
  else
    prefix ← columnPrefix numberSystem;
    let '(currentCount, _, _) := countNumerologicalNumbers name numberSystem in
    Some (foldl (fun q i => Where q (karmicLessonClause prefix currentCount i)) q n).

(** The count of the digit [d] in the known part of a name. *)
Definition knownCount (name : string) (numberSystem : NumberSystem) (d : Z) : Z :=
  countOf (countNumerologicalNumbers name numberSystem).1.1 d.

(** ** The query builders of the search *)

Record queryLookup := {
  MinimumSearchNumber : Z;
  MaximumSearchNumber : Z;
  TargetNumbers : list Z;
  ColumnName : string;
  ql_MasterNumbers : list Z;
  ql_ReduceWords : bool
}.

(** gorm adds a condition to the statement behind the pointer [query], so the
    conditions that a helper adds are seen by its caller: a helper is modelled
    as a function from the query to the extended query. *)
Definition addQueryLookup (q : query) (ql : queryLookup) : option query :=
  if (length (TargetNumbers ql) =? 0)%nat then Some q
  else
    lookupNums ←
      generateLookupNums
        (lookupFuel (MinimumSearchNumber ql) (MaximumSearchNumber ql))
        (MinimumSearchNumber ql) (MaximumSearchNumber ql) (TargetNumbers ql)
        (ql_MasterNumbers ql) (ql_ReduceWords ql);
    if (0 <? length lookupNums)%nat
    then Some (Where q (WIn (ColumnName ql) lookupNums))
    else Some (Where q WFalse).

Definition addQueryGender (q : query) (gender : rune) : query :=
  if Ascii.eqb (toUpper gender) "M" || Ascii.eqb (toUpper gender) "F"
  then Where q (WGender (stringOf [toUpper gender]))
  else q.

Definition CommonSort : string := "common".
Definition UncommonSort : string := "uncommon".
Definition RandomSort : string := "random".

(** [multiplier] is the decimal text of the float drawn from the seed. *)
Definition addQuerySort (multiplier : Z -> string) (q : query) (sort : string)
    (offset seed : Z) : query :=
  if String.eqb (ToLower sort) UncommonSort then
    let skip := if 5000 <? offset then offset else 5000 in
    Order (Where q (WIdGe skip)) "id asc"
  else if String.eqb (ToLower sort) RandomSort then
    Offset (Order q ("(substr(id * " +:+ multiplier seed +:+ ", length(id) + 2))"))
           offset
  else Order (Where q (WIdGe offset)) "id asc".

(** *** Hidden passions *)

Record BuildQuery := {
  bq_Left : string;
  bq_Comparator : string;
  bq_Right : string;
  bq_Target : Z
}.

(** The zero value, whose [Right] is a nil interface and prints as [<nil>]. *)
Definition zeroBuildQuery : BuildQuery :=
  {| bq_Left := ""; bq_Comparator := ""; bq_Right := "<nil>"; bq_Target := 0 |}.

Definition setComparator (cmp : string) (bq : BuildQuery) : BuildQuery :=
  {| bq_Left := bq_Left bq; bq_Comparator := cmp; bq_Right := bq_Right bq;
     bq_Target := bq_Target bq |}.

(** [sort.Sort(sort.Reverse(sort.IntSlice(hiddenPassions)))]. *)
Definition descending (a b : Z) : Prop := b <= a.

Global Instance descending_dec : RelDecision descending.
Proof. intros a b. unfold descending. apply _. Defined.

(** The alternatives joined by OR for the excluded number [hp]. *)
Definition hiddenPassionAlternatives (prefix : string) (currentCount : gmap Z Z)
    (hiddenPassions validNumbers : list Z) (hp : Z) : list comparison :=
  let hpCount := countOf currentCount (GoInt.int32 (GoInt.neg hp)) in
  foldl (fun alternatives i =>
           if inIntSlice (GoInt.neg i) hiddenPassions then alternatives
           else
             let iCount := countOf currentCount (GoInt.int32 i) in
             let leftCol := countColumn prefix i in
             let rightCol := countColumn prefix (GoInt.neg hp) in
             if GoInt.sub iCount hpCount =? 0
             then alternatives ++ [Greater leftCol rightCol]
             else alternatives ++
                    [GreaterMinus leftCol rightCol (GoInt.sub iCount hpCount)])
        [] validNumbers.

(** The map [buildQuery] after its two loops. *)
Definition hiddenPassionBuild (prefix : string) (currentCount : gmap Z Z)
    (maxCount prime : Z) (others validNumbers : list Z) : gmap Z BuildQuery :=
  let primeCount := countOf currentCount (GoInt.int32 prime) in
  let initial :=
    foldl (fun buildQuery i =>
             if i =? prime then
               <[i := {| bq_Left := countColumn prefix i; bq_Comparator := ">=";
                         bq_Right := Itoa (GoInt.sub maxCount primeCount);
                         bq_Target := 0 |}]> buildQuery
             else
               let count := countOf currentCount (GoInt.int32 i) in
               <[i := {| bq_Left := countColumn prefix i; bq_Comparator := "<=";
                         bq_Right := countColumn prefix prime;
                         bq_Target := GoInt.sub primeCount count |}]> buildQuery)
          (∅ : gmap Z BuildQuery) validNumbers in
  foldl (fun buildQuery p =>
           if 0 <=? p then
             <[p := setComparator "=" (default zeroBuildQuery (buildQuery !! p))]>
               buildQuery
           else
             <[GoInt.neg p :=
                 setComparator "<"
                   (default zeroBuildQuery (buildQuery !! GoInt.neg p))]>
               buildQuery)
        initial others.

Definition buildQueryClause (v : BuildQuery) : whereClause :=
  if negb (bq_Target v =? 0)
  then WComparePlus (bq_Left v) (bq_Comparator v) (bq_Right v) (bq_Target v)
  else WCompare (bq_Left v) (bq_Comparator v) (bq_Right v).

(** [sorted] is the slice after the sort in place.  Go ranges over the map
    [buildQuery] in no particular order; the conditions are added here in the
    order of [map_to_list].  An excluded number without alternative passes a
    nil group to gorm, which is taken to panic. *)
Definition queryHiddenPassions (q : query) (name : string) (sorted : list Z)
    (numberSystem : NumberSystem) : option query :=
  if (length sorted =? 0)%nat then Some q
  else
    prefix ← columnPrefix numberSystem;
    let '(currentCount, maxCount, _) := countNumerologicalNumbers name numberSystem in
    prime ← sorted !! 0%nat;
    if prime <? 0 then
      foldl (fun oq hp =>
               q ← oq;
               match hiddenPassionAlternatives prefix currentCount sorted
                       (ValidNumbers numberSystem) hp with
               | [] => None
               | alternatives => Some (Where q (WAnyOf alternatives))
               end)
            (Some q) sorted
    else
      let buildQuery :=
        hiddenPassionBuild prefix currentCount maxCount prime (drop 1 sorted)
          (ValidNumbers numberSystem) in
      Some (foldl (fun q kv => Where q (buildQueryClause (snd kv))) q
                  (map_to_list buildQuery)).

(** ** The search coordinator *)

(** What the search needs from outside the package: the parser of connection
    strings, the database behind gorm, and the random source. *)
Record externals := {
  handle : Type;
  (** [dburl.Parse(dsn)]: the scheme and the driver string, or an error. *)
  dburl_Parse : string -> option (string * string);
  (** [gorm.Open]: the value assigned to [DB] and the error. *)
  gorm_Open : string -> string -> option handle * option string;
  (** [DB.Table(table).Count(&count)]. *)
  db_Count : handle -> string -> Z;
  (** The largest unreduced value of a table, or an error. *)
  db_Largest : handle -> string -> option Z;
  (** [query.Find(&selectedNames)]. *)
  db_Find : handle -> query -> list tableRow;
  (** The text of [rand.New(rand.NewSource(seed)).Float64()]. *)
  rand_Float64 : Z -> string
}.

(** An access to the database. *)
Inductive dbEvent (E : externals) :=
  | EvOpen (scheme dsn : string)
  | EvCount (h : handle E) (table : string)
  | EvLargest (h : handle E) (table : string)
  | EvFind (h : handle E) (q : query).

Arguments EvOpen {E} scheme dsn.
Arguments EvCount {E} h table.
Arguments EvLargest {E} h table.
Arguments EvFind {E} h q.

(** The package-level variables [DB] and [largestNameValueInTable], and the
    accesses to the database so far. *)
Record world (E : externals) := {
  DB : option (handle E);
  largestNameValueInTable : gmap string Z;
  trace : list (dbEvent E)
}.

Arguments DB {E} w.
Arguments largestNameValueInTable {E} w.
Arguments trace {E} w.

Definition logEvent {E} (w : world E) (e : dbEvent E) : world E :=
  {| DB := DB w; largestNameValueInTable := largestNameValueInTable w;
     trace := trace w ++ [e] |}.

Definition setDB {E} (w : world E) (db : option (handle E)) : world E :=
  {| DB := db; largestNameValueInTable := largestNameValueInTable w;
     trace := trace w |}.

Definition setLargest {E} (w : world E) (table : string) (v : Z) : world E :=
  {| DB := DB w; largestNameValueInTable := <[table := v]> (largestNameValueInTable w);
     trace := trace w |}.

(** [connectToDatabase]: the error, if any, and the world afterwards. *)
Definition connectToDatabase {E} (dsn : string) (w : world E)
  : option string * world E :=
  match DB w with
  | Some _ => (None, w)
  | None =>
      match dburl_Parse E dsn with
      | None =>
          (Some ("unable to connect to parse database connection string. dns=" +:+ dsn), w)
      | Some (scheme, driverDSN) =>
          if String.eqb scheme "sqlite" || String.eqb scheme "postgres"
             || String.eqb scheme "mysql"
          then
            let '(db, err) := gorm_Open E scheme driverDSN in
            (err, logEvent (setDB w db) (EvOpen scheme driverDSN))
          else (Some ("unsupported database. " +:+ scheme), w)
      end
  end.

(** What a search returns. *)
Record searchResults := {
  sr_results : list NameNumerology.t;
  sr_offset : Z;
  sr_err : option string
}.

Definition searchError (msg : string) : searchResults :=
  {| sr_results := []; sr_offset := 0; sr_err := Some msg |}.

(** [strings.Count(s, "?")]. *)
Definition numberOfQuestionMarks (rs : list rune) : nat :=
  length (List.filter (fun r => Ascii.eqb r "?") rs).

(** [strings.Join(parts, " ")]. *)
Fixpoint joinSpaces (parts : list (list rune)) : list rune :=
  match parts with
  | [] => []
  | [part] => part
  | part :: rest => part ++ " "%char :: joinSpaces rest
  end.

(** [strings.Replace(s, "?", new, 1)] and [strings.Replace(s, "?", "%", -1)]. *)
Fixpoint replaceFirstQuestionMark (rs new : list rune) : list rune :=
  match rs with
  | [] => []
  | r :: rest =>
      if Ascii.eqb r "?" then new ++ rest
      else r :: replaceFirstQuestionMark rest new
  end.

Definition replaceQuestionMarks (rs : list rune) : list rune :=
  (fun r => if Ascii.eqb r "?" then "%"%char else r) <$> rs.

(** The loop over [splitNames]: the last part with a question mark is kept as
    [nameToSearch] and every such part becomes ["?"]. *)
Definition markPlaceholders (splitNames : list (list rune))
  : list rune * list (list rune) :=
  foldl (fun st part =>
           let '(nameToSearch, parts) := st in
           if (0 <? numberOfQuestionMarks part)%nat
           then (part, parts ++ [["?"%char]])
           else (nameToSearch, parts ++ [part]))
        ([], []) splitNames.

(** The loop over [selectedNames] with the state [(results, offset)]. *)
Definition collectResults (reconstructedName : list rune) (requiredOpts : NameOpts)
    (searchOpts : NameSearchOpts.t) (count : Z) (selectedNames : list tableRow)
  : list NameNumerology.t * Z :=
  foldl (fun st ir =>
           let '(results, offset) := st in
           let '(i, r) := (ir : nat * tableRow) in
           if (Z.of_nat (length selectedNames) <=? count)
              || (i <? length selectedNames - 1)%nat
           then
             let newName :=
               replaceFirstQuestionMark reconstructedName (runesOf (row_Name r)) in
             (results ++ [{| NameNumerology.Name := stringOf newName;
                             NameNumerology.Opts := requiredOpts;
                             NameNumerology.SearchOpts := Some searchOpts |}],
              offset)
           else (results, row_Id r))
        ([], 0) (imap pair selectedNames).


(** The hidden passions are sorted in place, and [searchOpts] shares the slice
    with [opts]: the results see the sorted list. *)
Definition withHiddenPassions (opts : NameSearchOpts.t) (hp : list Z)
  : NameSearchOpts.t :=
  {| NameSearchOpts.Count := NameSearchOpts.Count opts;
     NameSearchOpts.Offset := NameSearchOpts.Offset opts;
     NameSearchOpts.Seed := NameSearchOpts.Seed opts;
     NameSearchOpts.Database := NameSearchOpts.Database opts;
     NameSearchOpts.Dictionary := NameSearchOpts.Dictionary opts;
     NameSearchOpts.Gender := NameSearchOpts.Gender opts;
     NameSearchOpts.Sort := NameSearchOpts.Sort opts;
     NameSearchOpts.Full := NameSearchOpts.Full opts;
     NameSearchOpts.Vowels := NameSearchOpts.Vowels opts;
     NameSearchOpts.Consonants := NameSearchOpts.Consonants opts;
     NameSearchOpts.HiddenPassions := hp;
     NameSearchOpts.KarmicLessons := NameSearchOpts.KarmicLessons opts |}.

(** The first reduction step of a calculation on the known part of the name. *)
Definition firstStep (r : option NumerologicalResult.t) : option Z :=
  r ← r; NumerologicalResult.ReduceSteps r !! 0%nat.

(** The query of [nameSearch] once the table is known to hold names; [count]
    is [opts.Count] after its default has been applied.  The result is the
    query, the known part of the name, and the world (the cache of largest
    values may have been filled).  [None] is a panic. *)
Definition buildSearchQuery {E} (h : handle E) (table : string) (n : string)
    (numberSystem : NumberSystem) (masterNumbers : list Z) (reduceWords : bool)
    (opts : NameSearchOpts.t) (count : Z) (w : world E)
  : option (query * list rune) * world E :=
  let requiredOpts := {| no_NumberSystem := numberSystem;
                         no_MasterNumbers := masterNumbers;
                         no_ReduceWords := reduceWords |} in
  let nsName := ToLower (ns_Name numberSystem) in
  let '(nameToSearch, splitNames) := markPlaceholders (splitOn " " (runesOf n)) in
  let reconstructedName := joinSpaces splitNames in
  let nonSearchNameResults :=
    {| NameNumerology.Name := stringOf reconstructedName;
       NameNumerology.Opts := requiredOpts;
       NameNumerology.SearchOpts := None |} in
  let q := {| q_table := table; q_select := "min(id) as id, name";
              q_group := "name"; q_limit := 0; q_offset := None; q_order := [];
              q_wheres := [] |} in
  let q := Limit q (GoInt.add count 1) in
  let q :=
    if (1 <? length nameToSearch)%nat
    then Where q (WLike (stringOf (replaceQuestionMarks
                                     (runesOf (ToLower (stringOf nameToSearch))))))
    else q in
  let q := addQuerySort (rand_Float64 E) q (NameSearchOpts.Sort opts)
             (NameSearchOpts.Offset opts) (NameSearchOpts.Seed opts) in
  let q := addQueryGender q (NameSearchOpts.Gender opts) in
  match queryHiddenPassions q (stringOf reconstructedName)
          (merge_sort descending (NameSearchOpts.HiddenPassions opts))
          numberSystem with
  | None => (None, w)
  | Some q =>
  match queryKarmicLessons q (stringOf reconstructedName)
          (NameSearchOpts.KarmicLessons opts) numberSystem with
  | None => (None, w)
  | Some q =>
  let '(largestNameValueInDb, w) :=
    match largestNameValueInTable w !! table with
    | Some v => (v, w)
    | None =>
        let v := default 100 (db_Largest E h table) in
        (v, setLargest (logEvent w (EvLargest h table)) table v)
    end in
  let lookup (q : option query) (known : option Z) (targets : list Z)
             (column : string) : option query :=
    q ← q; known ← known;
    addQueryLookup q
      {| MinimumSearchNumber := known;
         MaximumSearchNumber := GoInt.add known largestNameValueInDb;
         TargetNumbers := targets;
         ColumnName := nsName +:+ column;
         ql_MasterNumbers := masterNumbers;
         ql_ReduceWords := reduceWords |} in
  let q := lookup (Some q) (firstStep (NameNumerology.Full nonSearchNameResults))
             (NameSearchOpts.Full opts) "_full" in
  let q := lookup q (firstStep (NameNumerology.Vowels nonSearchNameResults))
             (NameSearchOpts.Vowels opts) "_vowels" in
  let q := lookup q (firstStep (NameNumerology.Consonants nonSearchNameResults))
             (NameSearchOpts.Consonants opts) "_consonants" in
  ((fun q => (q, reconstructedName)) <$> q, w)
  end end.

(** [nameSearch]: what it returns ([None] for a panic) and the world
    afterwards. *)
Definition nameSearch {E} (n : string) (numberSystem : NumberSystem)
    (masterNumbers : list Z) (reduceWords : bool) (opts : NameSearchOpts.t)
    (w : world E) : option searchResults * world E :=
  let requiredOpts := {| no_NumberSystem := numberSystem;
                         no_MasterNumbers := masterNumbers;
                         no_ReduceWords := reduceWords |} in
  let searchOpts :=
    if (length (NameSearchOpts.HiddenPassions opts) =? 0)%nat then opts
    else withHiddenPassions opts
           (merge_sort descending (NameSearchOpts.HiddenPassions opts)) in
  let '(err, w) :=
    match DB w with
    | None => connectToDatabase (NameSearchOpts.Database opts) w
    | Some _ => (None, w)
    end in
  match err with
  | Some msg => (Some (searchError msg), w)
  | None =>
  match DB w with
  | None => (None, w)
  | Some h =>
  let table := ToLower (NameSearchOpts.Dictionary opts) in
  let w := logEvent w (EvCount h table) in
  if db_Count E h table =? 0 then
    (Some (searchError ("database table " +:+ NameSearchOpts.Dictionary opts
                          +:+ " is empty")), w)
  else
  let count :=
    if NameSearchOpts.Count opts =? 0 then 25 else NameSearchOpts.Count opts in
  match buildSearchQuery h table n numberSystem masterNumbers reduceWords opts
          count w with
  | (None, w) => (None, w)
  | (Some (q, reconstructedName), w) =>
  let selectedNames := db_Find E h q in
  let w := logEvent w (EvFind h q) in
  let '(results, offset) :=
    collectResults reconstructedName requiredOpts searchOpts count selectedNames in
  let offset :=
    if (0 <? offset) && String.eqb (ToLower (NameSearchOpts.Sort opts)) RandomSort
    then GoInt.add (NameSearchOpts.Offset opts) count
    else offset in
  (Some {| sr_results := results; sr_offset := offset; sr_err := None |}, w)
  end end end.

(** [NameNumerology.Search]. *)
Definition Search {E} (n : NameNumerology.t) (opts : NameSearchOpts.t) (w : world E)
  : option searchResults * world E :=
  match numberOfQuestionMarks (runesOf (NameNumerology.Name n)) with
  | 0%nat => (Some (searchError "missing '?' in name"), w)
  | 1%nat =>
      nameSearch (NameNumerology.Name n) (NameNumerology.NumberSystem n)
        (NameNumerology.MasterNumbers n) (NameNumerology.ReduceWords n) opts w
  | _ =>
      (Some (searchError "too many '?' (only able to search for one '?' at a time)"), w)
  end.







(** *** A small database for the examples *)

Definition demoRows : list tableRow :=
  (fun i => {| row_Id := Z.of_nat (S i);
               row_Name := "Name" +:+ Itoa (Z.of_nat (S i));
               row_column := fun _ => 0 |}) <$> seq 0 30.

Definition demoDB : externals :=
  {| handle := unit;
     dburl_Parse := fun dsn => Some ("sqlite"%string, dsn);
     gorm_Open := fun _ _ => (Some tt, None);
     db_Count := fun _ _ => 30;
     db_Largest := fun _ _ => Some 40;
     db_Find := fun _ q => take (Z.to_nat (q_limit q)) demoRows;
     rand_Float64 := fun _ => "0.25"%string |}.

Definition newWorld : world demoDB :=
  {| DB := None; largestNameValueInTable := ∅; trace := [] |}.

Definition demoOpts : NameSearchOpts.t :=
  {| NameSearchOpts.Count := 0;
     NameSearchOpts.Offset := 0;
     NameSearchOpts.Seed := 3384983;
     NameSearchOpts.Database := "sqlite://file::memory:?cache=shared";
     NameSearchOpts.Dictionary := "usa_census";
     NameSearchOpts.Gender := "M"%char;
     NameSearchOpts.Sort := "random";
     NameSearchOpts.Full := [];
     NameSearchOpts.Vowels := [];
     NameSearchOpts.Consonants := [];
     NameSearchOpts.HiddenPassions := [];
     NameSearchOpts.KarmicLessons := [] |}.

Definition nameOf (s : string) : NameNumerology.t :=
  {| NameNumerology.Name := s;
     NameNumerology.Opts := {| no_NumberSystem := Pythagorean;
                               no_MasterNumbers := standardMasters;
                               no_ReduceWords := true |};
     NameNumerology.SearchOpts := None |}.


(** ** Definitions for further properties of the engine *)

(** The number that a list of decimal digits, most significant first, writes. *)
Definition digitsValue (digits : list Z) : Z :=
  fold_left (fun acc d => acc * 10 + d) digits 0.

(** The digital root: what repeated digit sums of [n >= 0] end in. *)
Definition digitalRoot (n : Z) : Z :=
  if n =? 0 then 0 else 1 + (n - 1) mod 9.

(** Strictly decreasing lists. *)
Definition decreasing (l : list Z) : Prop :=
  forall i j a b, (i < j)%nat -> l !! i = Some a -> l !! j = Some b -> b < a.

Definition shortReduction (k : Z) : bool :=
  (length (reduceNumbers k [] []) <=? 3)%nat.

(** Two non-negative numbers with the same digital root. *)
Definition sameRoot (a b : Z) : Prop :=
  0 <= a /\ 0 <= b /\ a mod 9 = b mod 9 /\ (a = 0 <-> b = 0).

Definition birthday : DateNumerology.t :=
  {| DateNumerology.Date := {| Year := 1970; Month := 1; Day := 2 |};
     DateNumerology.MasterNumbers := standardMasters |}.

(** The value with which the letter at index [i] of a segment counts: its
    value in the number system when the mask is set there, zero otherwise. *)
Definition countedValue (numberSystem : NumberSystem) (mask : list bool)
    (i : nat) (letter : rune) : Z :=
  match NumberMapping numberSystem !! toLower letter with
  | Some v => if default false (mask !! i) then v else 0
  | None => 0
  end.

Definition countedLetter (numberSystem : NumberSystem) (mask : list bool)
    (i : nat) (letter : rune) : letterValue :=
  {| lv_Letter := stringOf [letter];
     lv_Value := countedValue numberSystem mask i letter |}.

(** The first reduction step of a breakdown and of a result: the unreduced
    total. *)
Definition unreduced (b : Breakdown.t) : option Z :=
  Breakdown.ReduceSteps b !! 0%nat.

Definition unreducedTotal (r : NumerologicalResult.t) : option Z :=
  NumerologicalResult.ReduceSteps r !! 0%nat.

(** The unreduced total [f] is the machine sum of [v] and [c]. *)
Definition splitsInto (f v c : option Z) : Prop :=
  exists f' v' c', f = Some f' /\ v = Some v' /\ c = Some c' /\ f' = GoInt.add v' c'.

Definition georgeUnreduced : NameNumerology.t :=
  {| NameNumerology.Name := "George Washington";
     NameNumerology.Opts := {| no_NumberSystem := Pythagorean;
                               no_MasterNumbers := standardMasters;
                               no_ReduceWords := false |};
     NameNumerology.SearchOpts := None |}.

(** Every letter of the number system has a value from 0 to 9. *)
Definition digitValued (numberSystem : NumberSystem) : Prop :=
  map_Forall (fun _ v => 0 <= v <= 9) (NumberMapping numberSystem).

(** The number of runes in a list of segments. *)
Definition segmentsLength (segs : list (nat * list rune)) : nat :=
  sum_list ((fun seg => length (snd seg)) <$> segs).

(** The plain sum of the values with which the letters of a segment count. *)
Definition segmentTotal (numberSystem : NumberSystem) (mask : list bool)
    (seg : nat * list rune) : Z :=
  plainSum
    (imap (countedValue numberSystem
             (default [] (sliceOf mask (fst seg) (fst seg + length (snd seg)))))
          (TrimSpace (snd seg))).

(** ** What the counts count *)

(** The key under which a rune is counted: the [int32] of its value in the
    number system, zero when the lower-cased rune is not in the mapping. *)
Definition numberOf (numberSystem : NumberSystem) (n : rune) : Z :=
  GoInt.int32 (default 0 (NumberMapping numberSystem !! toLower n)).

(** The keys of the counts: the valid numbers as [int32]. *)
Definition validKeys (numberSystem : NumberSystem) : list Z :=
  GoInt.int32 <$> ValidNumbers numberSystem.

(** How many runes of [rs] are counted under the key [k]. *)
Definition occurrences (numberSystem : NumberSystem) (rs : list rune) (k : Z) : Z :=
  Z.of_nat (length (List.filter (fun n => numberOf numberSystem n =? k) rs)).

(** [maxCount] is the largest count, and zero when nothing is counted. *)
Definition largestCount (counts : gmap Z Z) (maxCount : Z) : Prop :=
  0 <= maxCount /\
  (forall k v, counts !! k = Some v -> v <= maxCount) /\
  (maxCount = 0 \/ exists k, counts !! k = Some maxCount).

(** ** Hidden passions and karmic lessons *)

Module HiddenPassionResults.
Record t := {
  Numbers : list Z;
  MaxCount : Z
}.
End HiddenPassionResults.

Module KarmicLessonResults.
Record t := {
  Numbers : list Z
}.
End KarmicLessonResults.

(** [sort.Ints]. *)
Definition sortInts (l : list Z) : list Z := merge_sort Z.le l.

(** One turn of the loop of [hiddenPassions], on the entry [kv] of the map,
    with the state [(passions, max)]. *)
Definition passionStep (st : list Z * Z) (kv : Z * Z) : list Z * Z :=
  let '(passions, max) := st in
  if max <? kv.2 then ([kv.1], kv.2)
  else if kv.2 =? max then (passions ++ [kv.1], max)
  else (passions, max).

(** [hiddenPassions] when the range over the map visits its entries in the
    order [entries]: Go leaves the order of a range over a map open. *)
Definition hiddenPassionsIn (entries : list (Z * Z)) : HiddenPassionResults.t :=
  let '(passions, max) := foldl passionStep ([], 0) entries in
  {| HiddenPassionResults.Numbers := sortInts passions;
     HiddenPassionResults.MaxCount := max |}.

Definition hiddenPassions (counts : gmap Z Z) : HiddenPassionResults.t :=
  hiddenPassionsIn (map_to_list counts).

(** One turn of the loop of [karmicLessons]. *)
Definition lessonStep (r : list Z) (kv : Z * Z) : list Z :=
  if kv.2 =? 0 then r ++ [kv.1] else r.

Definition karmicLessonsIn (entries : list (Z * Z)) : KarmicLessonResults.t :=
  {| KarmicLessonResults.Numbers := sortInts (foldl lessonStep [] entries) |}.

Definition karmicLessons (counts : gmap Z Z) : KarmicLessonResults.t :=
  karmicLessonsIn (map_to_list counts).

(** The largest value of the entries, and zero when there is none above. *)
Definition largestValue (entries : list (Z * Z)) : Z :=
  foldr Z.max 0 (snd <$> entries).

(** The keys of the entries with the value [v], in the order of the entries. *)
Definition keysWith (v : Z) (entries : list (Z * Z)) : list Z :=
  fst <$> filter (fun kv => kv.2 = v) entries.

Module NameNumerologyCounts.
Definition Counts (n : NameNumerology.t) : gmap Z Z :=
  (countNumerologicalNumbers (NameNumerology.Name n) (NameNumerology.NumberSystem n)).1.1.

Definition HiddenPassions (n : NameNumerology.t) : HiddenPassionResults.t :=
  hiddenPassions (Counts n).

Definition KarmicLessons (n : NameNumerology.t) : KarmicLessonResults.t :=
  karmicLessons (Counts n).
End NameNumerologyCounts.

Definition sampleCounts : gmap Z Z :=
  list_to_map [(1, 2); (2, 0); (3, 2); (4, 1); (5, 0)].

Definition maryAnn : NameNumerology.t :=
  {| NameNumerology.Name := "Mary-Ann O'Neil";
     NameNumerology.Opts := {| no_NumberSystem := Pythagorean;
                               no_MasterNumbers := standardMasters;
                               no_ReduceWords := true |};
     NameNumerology.SearchOpts := None |}.
(** * Properties *)

(** ** Machine integers *)

Module GoIntFacts.
Import GoInt.

Lemma wrap_in_range z : in_range (wrap z).
Proof.
  unfold in_range, wrap, min_int, max_int.
  pose proof (Z.mod_pos_bound (z + 2 ^ 63) (2 ^ 64)). lia.
Qed.

Lemma wrap_id z : in_range z -> wrap z = z.
Proof.
  unfold in_range, wrap, min_int, max_int. intros Hz.
  rewrite Z.mod_small; lia.
Qed.

Lemma add_exact a b : in_range (a + b) -> add a b = a + b.
Proof. apply wrap_id. Qed.

Lemma uint64_id z : 0 <= z < 2 ^ 64 -> uint64 z = z.
Proof. intros Hz. unfold uint64. rewrite Z.mod_small; lia. Qed.

Lemma uint64_bound z : 0 <= uint64 z < 2 ^ 64.
Proof. unfold uint64. apply Z.mod_pos_bound. lia. Qed.

Lemma int32_id z : - 2 ^ 31 <= z < 2 ^ 31 -> int32 z = z.
Proof. intros Hz. unfold int32. rewrite Z.mod_small; lia. Qed.

End GoIntFacts.

(** *** Facts about the helpers *)

Lemma isMasterNumber_In v l : isMasterNumber v l = true <-> In v l.
Proof.
  induction l as [|n l IH]; simpl; [intuition congruence|].
  destruct (Z.eqb_spec v n); intuition congruence.
Qed.

Lemma inIntSlice_In v l : inIntSlice v l = true <-> In v l.
Proof.
  induction l as [|n l IH]; simpl; [intuition congruence|].
  destruct (Z.eqb_spec v n); intuition congruence.
Qed.

Lemma inIntSlice_false v l : inIntSlice v l = false <-> ~ In v l.
Proof. rewrite <- inIntSlice_In. destruct (inIntSlice v l); intuition congruence. Qed.

Lemma formatDigits_digits fuel : forall i acc,
  Forall is_digit acc -> Forall is_digit (formatDigits fuel i acc).
Proof.
  induction fuel as [|fuel IH]; intros i acc Hacc; simpl; [done|].
  assert (Forall is_digit (i mod 10 :: acc)) as Hacc'.
  { constructor; [|done]. unfold is_digit.
    pose proof (Z.mod_pos_bound i 10). lia. }
  destruct (i / 10 =? 0); [done|]. by apply IH.
Qed.

Lemma formatDigits_length fuel : forall i acc,
  (length (formatDigits fuel i acc) <= fuel + length acc)%nat.
Proof.
  induction fuel as [|fuel IH]; intros i acc; simpl; [lia|].
  destruct (i / 10 =? 0); simpl; [lia|].
  specialize (IH (i / 10) (i mod 10 :: acc)). simpl in IH. lia.
Qed.

Lemma splitNumber_digits i : Forall is_digit (splitNumber i).
Proof. by apply formatDigits_digits. Qed.

Lemma splitNumber_length i : (length (splitNumber i) <= 20)%nat.
Proof.
  unfold splitNumber. pose proof (formatDigits_length 20 i []) as H.
  change (length (@nil Z)) with 0%nat in H. lia.
Qed.

(** Summing at most [2^59] digits never wraps. *)
Lemma sumValues_digits_aux vals : forall acc,
  Forall is_digit vals ->
  0 <= acc -> acc + 9 * Z.of_nat (length vals) <= GoInt.max_int ->
  acc <= fold_left GoInt.add vals acc <= acc + 9 * Z.of_nat (length vals).
Proof.
  induction vals as [|d vals IH]; intros acc Hd Hacc Hmax; simpl in *; [lia|].
  inversion Hd as [|? ? Hd1 Hd2]; subst. unfold is_digit in Hd1.
  rewrite GoIntFacts.add_exact.
  - specialize (IH (acc + d) Hd2). lia.
  - unfold GoInt.in_range, GoInt.min_int, GoInt.max_int in *. lia.
Qed.

Lemma digitSum_bound n : 0 <= digitSum n <= 180.
Proof.
  unfold digitSum, sumValues.
  pose proof (splitNumber_digits (GoInt.uint64 n)) as Hd.
  pose proof (splitNumber_length (GoInt.uint64 n)) as Hl.
  pose proof (sumValues_digits_aux _ 0 Hd) as H.
  unfold GoInt.max_int in H. lia.
Qed.

(** *** Termination of the reducer *)

Lemma digitSum_log2_small :
  forallb log2_drops (map Z.of_nat (seq 10 246)) = true.
Proof. vm_compute. reflexivity. Qed.

Lemma digitSum_log2 n : 10 <= n -> Z.log2 (digitSum n) < Z.log2 n.
Proof.
  intros Hn. destruct (Z_lt_le_dec n 256) as [Hsmall|Hbig].
  - pose proof digitSum_log2_small as H.
    rewrite forallb_forall in H.
    specialize (H n). unfold log2_drops in H.
    apply Z.ltb_lt, H, in_map_iff.
    exists (Z.to_nat n). split; [lia|]. apply in_seq. lia.
  - pose proof (digitSum_bound n) as Hb.
    assert (Z.log2 (digitSum n) <= Z.log2 180) as H1 by (apply Z.log2_le_mono; lia).
    assert (Z.log2 256 <= Z.log2 n) as H2 by (apply Z.log2_le_mono; lia).
    change (Z.log2 180) with 7 in H1. change (Z.log2 256) with 8 in H2. lia.
Qed.

Lemma reduceNumbers_rec_fuel fuel : forall n masterNumbers steps,
  Z.log2 n <= Z.of_nat fuel ->
  reduceNumbers_rec fuel n masterNumbers steps =
  reduceNumbers n masterNumbers steps.
Proof.
  unfold reduceNumbers.
  induction fuel as [fuel IH] using lt_wf_ind. intros n m steps Hfuel.
  destruct (Z_lt_le_dec n 10) as [Hlt|Hge].
  { destruct fuel, (Z.to_nat (Z.log2 n)); simpl;
      destruct (Z.ltb_spec n 10); try lia; reflexivity. }
  pose proof (digitSum_log2 n Hge) as Hdrop.
  pose proof (Z.log2_nonneg (digitSum n)) as Hnn.
  destruct fuel as [|fuel]; [lia|].
  destruct (Z.to_nat (Z.log2 n)) as [|k] eqn:Hk; [lia|].
  simpl. destruct (n <? 10); [done|].
  destruct (isMasterNumber n m); [done|].
  rewrite (IH fuel) by lia. rewrite (IH k) by lia. reflexivity.
Qed.

(** The equation of the source: append [n]; stop below ten; stop at a master
    number; otherwise recurse on the digit sum. *)
Lemma reduceNumbers_unfold n masterNumbers steps :
  reduceNumbers n masterNumbers steps =
  if n <? 10 then steps ++ [n]
  else if isMasterNumber n masterNumbers then steps ++ [n]
  else reduceNumbers (digitSum n) masterNumbers (steps ++ [n]).
Proof.
  destruct (Z.ltb_spec n 10) as [Hlt|Hge].
  { unfold reduceNumbers. destruct (Z.to_nat (Z.log2 n)); simpl;
      destruct (Z.ltb_spec n 10); try lia; reflexivity. }
  pose proof (digitSum_log2 n Hge) as Hdrop.
  pose proof (Z.log2_nonneg (digitSum n)) as Hnn.
  unfold reduceNumbers at 1.
  destruct (Z.to_nat (Z.log2 n)) as [|k] eqn:Hk; [lia|].
  simpl. destruct (Z.ltb_spec n 10); [lia|].
  destruct (isMasterNumber n masterNumbers); [done|].
  apply reduceNumbers_rec_fuel. lia.
Qed.

(** Induction along the recursion of [reduceNumbers]. *)
Lemma reduceNumbers_ind (masterNumbers : list Z) (P : Z -> Prop) :
  (forall n, n < 10 -> P n) ->
  (forall n, 10 <= n -> isMasterNumber n masterNumbers = true -> P n) ->
  (forall n, 10 <= n -> isMasterNumber n masterNumbers = false ->
             P (digitSum n) -> P n) ->
  forall n, P n.
Proof.
  intros Hsmall Hmaster Hstep n.
  remember (Z.to_nat (Z.log2 n)) as k eqn:Hk.
  revert n Hk. induction k as [k IH] using lt_wf_ind. intros n Hk.
  destruct (Z_lt_le_dec n 10) as [Hlt|Hge]; [by apply Hsmall|].
  destruct (isMasterNumber n masterNumbers) eqn:Hm; [by apply Hmaster|].
  apply Hstep; [done..|].
  pose proof (digitSum_log2 n Hge). pose proof (Z.log2_nonneg (digitSum n)).
  apply (IH (Z.to_nat (Z.log2 (digitSum n)))); lia.
Qed.

(** The accumulator is a prefix of the result. *)
Lemma reduceNumbers_steps masterNumbers n : forall steps,
  reduceNumbers n masterNumbers steps = steps ++ reduceNumbers n masterNumbers [].
Proof.
  induction n as [n Hn|n Hn Hm|n Hn Hm IH] using (reduceNumbers_ind masterNumbers);
    intros steps; rewrite (reduceNumbers_unfold n _ steps), (reduceNumbers_unfold n _ []).
  - destruct (Z.ltb_spec n 10); [done|lia].
  - destruct (Z.ltb_spec n 10); [lia|]. by rewrite Hm.
  - destruct (Z.ltb_spec n 10); [lia|]. rewrite Hm.
    rewrite (IH (steps ++ [n])), (IH ([] ++ [n])). by rewrite <- app_assoc.
Qed.

Lemma reduceNumbers_small n masterNumbers :
  n < 10 -> reduceNumbers n masterNumbers [] = [n].
Proof. intros Hn. rewrite reduceNumbers_unfold. destruct (Z.ltb_spec n 10); [done|lia]. Qed.

Lemma reduceNumbers_master n masterNumbers :
  isMasterNumber n masterNumbers = true -> reduceNumbers n masterNumbers [] = [n].
Proof.
  intros Hm. rewrite reduceNumbers_unfold, Hm. by destruct (n <? 10).
Qed.

Lemma reduceNumbers_step n masterNumbers :
  10 <= n -> isMasterNumber n masterNumbers = false ->
  reduceNumbers n masterNumbers [] = n :: reduceNumbers (digitSum n) masterNumbers [].
Proof.
  intros Hn Hm. rewrite reduceNumbers_unfold, Hm.
  destruct (Z.ltb_spec n 10); [lia|]. by rewrite reduceNumbers_steps.
Qed.

(** Shape of the result: [n] followed by digit sums. *)
Lemma reduceNumbers_head n masterNumbers :
  exists rest, reduceNumbers n masterNumbers [] = n :: rest.
Proof.
  destruct (Z_lt_le_dec n 10) as [Hlt|Hge].
  { exists []. by apply reduceNumbers_small. }
  destruct (isMasterNumber n masterNumbers) eqn:Hm.
  { exists []. by apply reduceNumbers_master. }
  eexists. by apply reduceNumbers_step.
Qed.

Lemma reduceNumbers_nonempty n masterNumbers :
  reduceNumbers n masterNumbers [] <> [].
Proof. destruct (reduceNumbers_head n masterNumbers) as [rest ->]. done. Qed.

(** The final value is below ten or a master number. *)
Lemma reduceNumbers_last masterNumbers n :
  exists v, last (reduceNumbers n masterNumbers []) = Some v /\
            (v < 10 \/ In v masterNumbers).
Proof.
  induction n as [n Hn|n Hn Hm|n Hn Hm IH] using (reduceNumbers_ind masterNumbers).
  - exists n. rewrite reduceNumbers_small by done. split; [done|by left].
  - exists n. rewrite reduceNumbers_master by done.
    split; [done|right; by apply isMasterNumber_In].
  - destruct IH as (v & Hlast & Hv). exists v. split; [|done].
    rewrite reduceNumbers_step by done.
    destruct (reduceNumbers_head (digitSum n) masterNumbers) as [rest Hrest].
    rewrite Hrest in *. done.
Qed.

(** Every step lies between zero and the larger of [n] and 180 when [n] is
    not negative. *)
Lemma reduceNumbers_range masterNumbers n :
  0 <= n ->
  Forall (fun v => 0 <= v <= Z.max n 180) (reduceNumbers n masterNumbers []).
Proof.
  induction n as [n Hn|n Hn Hm|n Hn Hm IH] using (reduceNumbers_ind masterNumbers);
    intros H0.
  - rewrite reduceNumbers_small by done. repeat constructor; lia.
  - rewrite reduceNumbers_master by done. repeat constructor; lia.
  - rewrite reduceNumbers_step by done. pose proof (digitSum_bound n) as Hb.
    constructor; [lia|]. eapply Forall_impl; [apply IH; lia|].
    intros v Hv. simpl in Hv. lia.
Qed.

(** ** The reducer: results *)

(** Examples from the package documentation and tests. *)
Example reduceNumbers_83 : reduceNumbers 83 [11; 22; 33] [] = [83; 11].
Proof. reflexivity. Qed.

Example reduceNumbers_20 : reduceNumbers 20 [11; 22; 33] [] = [20; 2].
Proof. reflexivity. Qed.

Example reduceNumbers_max_int :
  reduceNumbers GoInt.max_int [] [] = [GoInt.max_int; 88; 16; 7].
Proof. vm_compute. reflexivity. Qed.

Example splitNumber_473809 : splitNumber 473809 = [4; 7; 3; 8; 0; 9].
Proof. reflexivity. Qed.

(** C1, as stated, fails in its last part: 29 is at least ten and is not a
    master number, yet with the customary master numbers its reduction stops
    at 11, which is not a single digit. *)
Lemma reduceNumbers_final_digit_counterexample :
  0 <= 29 /\ 10 <= 29 /\ ~ In 29 [11; 22; 33] /\
  reduceNumbers 29 [11; 22; 33] [] = [29; 11] /\
  ~ (exists v, last (reduceNumbers 29 [11; 22; 33] []) = Some v /\ v < 10).
Proof.
  split; [lia|]. split; [lia|]. split.
  { simpl. lia. }
  split; [reflexivity|].
  intros (v & Hlast & Hv). vm_compute in Hlast. injection Hlast as <-. lia.
Qed.

(** C1 (amended).  For every [n >= 0] and every list of master numbers,
    [reduceNumbers n masterNumbers []] is a non-empty sequence that starts with
    [n] and ends with a value that is below ten or a master number; it is
    exactly [[n]] when [n < 10] and when [n] is a master number; and when
    [n >= 10] is not a master number the sequence continues with the reduction
    of the digit sum of [n], and its final value is a single digit unless a
    digit sum on the way is a master number (between 10 and 180), at which the
    reduction stops. *)
Theorem reduceNumbers_result (n : Z) (masterNumbers : list Z) :
  0 <= n ->
  (exists rest, reduceNumbers n masterNumbers [] = n :: rest) /\
  (exists v, last (reduceNumbers n masterNumbers []) = Some v /\
             (v < 10 \/ In v masterNumbers)) /\
  (n < 10 -> reduceNumbers n masterNumbers [] = [n]) /\
  (In n masterNumbers -> reduceNumbers n masterNumbers [] = [n]) /\
  (10 <= n -> ~ In n masterNumbers ->
   exists v,
     reduceNumbers n masterNumbers [] =
       n :: reduceNumbers (digitSum n) masterNumbers [] /\
     last (reduceNumbers n masterNumbers []) = Some v /\
     (0 <= v < 10 \/ (In v masterNumbers /\ 10 <= v <= 180))).
Proof.
  intros Hn.
  split; [apply reduceNumbers_head|].
  split; [apply reduceNumbers_last|].
  split; [apply reduceNumbers_small|].
  split.
  { intros Hin. by apply reduceNumbers_master, isMasterNumber_In. }
  intros Hge Hnot.
  assert (isMasterNumber n masterNumbers = false) as Hm.
  { destruct (isMasterNumber n masterNumbers) eqn:E; [|done].
    by apply isMasterNumber_In in E. }
  rewrite (reduceNumbers_step n masterNumbers Hge Hm).
  destruct (reduceNumbers_last masterNumbers (digitSum n)) as (v & Hlast & Hv).
  pose proof (digitSum_bound n) as Hb.
  pose proof (reduceNumbers_range masterNumbers (digitSum n) (proj1 Hb)) as Hr.
  destruct (reduceNumbers_head (digitSum n) masterNumbers) as [rest Hrest].
  exists v. split; [done|].
  rewrite Hrest in *. split; [done|].
  assert (0 <= v <= 180) as Hv'.
  { apply last_Some in Hlast as [l' Hl']. rewrite Hl' in Hr.
    apply Forall_app in Hr as [_ Hr]. inversion Hr; subst. lia. }
  destruct Hv as [Hv|Hv]; [left; lia|].
  destruct (Z_lt_le_dec v 10); [left; lia|right]. split; [done|lia].
Qed.

Lemma reduceNumbers_result_witness :
  (0 <= 7 /\ reduceNumbers 7 [11; 22; 33] [] = [7]) /\
  (0 <= 22 /\ reduceNumbers 22 [11; 22; 33] [] = [22]) /\
  (0 <= 38 /\ exists v,
     reduceNumbers 38 [11; 22; 33] [] =
       38 :: reduceNumbers (digitSum 38) [11; 22; 33] [] /\
     last (reduceNumbers 38 [11; 22; 33] []) = Some v /\
     (0 <= v < 10 \/ (In v [11; 22; 33] /\ 10 <= v <= 180))).
Proof.
  split; [|split].
  - split; [lia|].
    destruct (reduceNumbers_result 7 [11; 22; 33]) as (_ & _ & H & _); [lia|].
    apply H. lia.
  - split; [lia|].
    destruct (reduceNumbers_result 22 [11; 22; 33]) as (_ & _ & _ & H & _); [lia|].
    apply H. simpl. lia.
  - split; [lia|].
    destruct (reduceNumbers_result 38 [11; 22; 33]) as (_ & _ & _ & _ & H); [lia|].
    apply H; [lia|]. simpl. lia.
Defined.

(** ** The letter classifier *)

Example mask_yvonne :
  Vowels (maskConstructor "Yvonne") = [true; false; true; false; false; true].
Proof. reflexivity. Qed.

Example mask_mickey :
  Vowels (maskConstructor "Mickey") = [false; true; false; false; true; false].
Proof. reflexivity. Qed.

Example mask_kyle_consonants :
  Consonants (maskConstructor "Kyle") = [true; false; true; false].
Proof. reflexivity. Qed.

Lemma fillLoop_spec (f : nat -> bool) k : forall init : list bool,
  (k <= length init)%nat ->
  length (foldl (fun mask j => <[j := f j]> mask) init (seq 0 k)) = length init /\
  forall j, foldl (fun mask j => <[j := f j]> mask) init (seq 0 k) !! j =
            if decide (j < k)%nat then Some (f j) else init !! j.
Proof.
  induction k as [|k IH]; intros init Hk.
  - split; [done|]. intros j. case_decide; [lia|done].
  - rewrite seq_S, foldl_app. simpl.
    destruct (IH init) as [Hlen Hlook]; [lia|].
    split; [by rewrite length_insert|].
    intros j. destruct (decide (j = k)) as [->|Hne].
    + rewrite list_lookup_insert_eq by lia. case_decide; [done|lia].
    + rewrite list_lookup_insert_ne by done. rewrite Hlook.
      repeat case_decide; try done; lia.
Qed.

Lemma fillMask_length n f : length (fillMask n f) = n.
Proof.
  unfold fillMask.
  destruct (fillLoop_spec f n (replicate n false)) as [Hlen _].
  { by rewrite length_replicate. }
  by rewrite Hlen, length_replicate.
Qed.

Lemma fillMask_lookup n f i :
  fillMask n f !! i = if decide (i < n)%nat then Some (f i) else None.
Proof.
  unfold fillMask.
  destruct (fillLoop_spec f n (replicate n false)) as [_ Hlook].
  { by rewrite length_replicate. }
  rewrite Hlook. case_decide; [done|].
  apply lookup_ge_None. rewrite length_replicate. lia.
Qed.

Lemma fillMask_map n f : fillMask n f = f <$> seq 0 n.
Proof.
  apply list_eq. intros i. rewrite fillMask_lookup, list_lookup_fmap.
  case_decide as Hi.
  - by rewrite lookup_seq_lt.
  - by rewrite lookup_seq_ge by lia.
Qed.

Lemma maskConstructor_length s :
  length (Vowels (maskConstructor s)) = length (runesOf (ToLower s)).
Proof. unfold Vowels, maskConstructor. cbv zeta. cbn [mask_letterMask]. by rewrite length_imap. Qed.

Lemma runesOf_stringOf rs : runesOf (stringOf rs) = rs.
Proof. apply list_ascii_of_string_of_list_ascii. Qed.

Lemma ToLower_runes s : runesOf (ToLower s) = toLower <$> runesOf s.
Proof. unfold ToLower. apply runesOf_stringOf. Qed.

Lemma ToLower_length s : length (runesOf (ToLower s)) = length (runesOf s).
Proof. by rewrite ToLower_runes, length_fmap. Qed.

Lemma Full_replicate m : Full m = replicate (length (mask_letterMask m)) true.
Proof.
  apply list_eq. intros i. unfold Full. rewrite fillMask_lookup.
  case_decide as Hi.
  - by rewrite lookup_replicate_2.
  - symmetry. apply lookup_ge_None. rewrite length_replicate. lia.
Qed.

Lemma Consonants_negb m : Consonants m = negb <$> Vowels m.
Proof.
  apply list_eq. intros i. unfold Consonants. rewrite fillMask_lookup.
  rewrite list_lookup_fmap. unfold Vowels.
  case_decide as Hi.
  - destruct (lookup_lt_is_Some_2 (mask_letterMask m) i Hi) as [b Hb].
    rewrite Hb. simpl. f_equal. f_equal.
    apply nth_lookup_Some with (d := false) in Hb. done.
  - rewrite (proj2 (lookup_ge_None _ _)) by lia. done.
Qed.

Lemma maskConstructor_lookup s i c :
  runesOf (ToLower s) !! i = Some c ->
  Vowels (maskConstructor s) !! i = Some (maskAt (runesOf (ToLower s)) i c).
Proof.
  intros Hc. unfold Vowels, maskConstructor. cbv zeta. cbn [mask_letterMask].
  by rewrite list_lookup_imap, Hc.
Qed.

Lemma runeAt_lookup rs i c : rs !! i = Some c -> runeAt rs i = c.
Proof. intros H. unfold runeAt. by apply nth_lookup_Some with (d := "000"%char) in H. Qed.

Lemma toLower_idemp r : toLower (toLower r) = toLower r.
Proof. by destruct r as [[] [] [] [] [] [] [] []]. Qed.

(** A name that is already in lower case is left as it is. *)
Lemma ToLower_idemp s : ToLower (ToLower s) = ToLower s.
Proof.
  unfold ToLower at 1. rewrite ToLower_runes, <- list_fmap_compose.
  unfold ToLower. f_equal. apply list_fmap_ext. intros _ r _. apply toLower_idemp.
Qed.

(** C4.  Let [rs] be the runes of the lower-cased name (the name itself when
    it is already lower-case) and [mask] the vowel mask of the classifier.
    - a rune other than y is marked by membership in a/e/i/o/u, so each of
      a, e, i, o, u is a vowel;
    - a single-character name y is a vowel;
    - y as first character is a vowel exactly when the next rune is not one of
      a/e/i/o/u;
    - y as last character is a vowel exactly when the previous rune is not one
      of a/e/i/o/u;
    - y between two neighbours of the same class is a vowel exactly when both
      are consonants;
    - y between a vowel and a consonant is a vowel exactly when the next rune
      is a vowel. *)
Theorem maskConstructor_rules (s : string) :
  let rs := runesOf (ToLower s) in
  let mask := Vowels (maskConstructor s) in
  (ToLower s = s -> rs = runesOf s) /\
  (forall i c, rs !! i = Some c -> c <> "y"%char ->
     mask !! i = Some (isVowel c)) /\
  (forall i c, rs !! i = Some c ->
     In c ["a"; "e"; "i"; "o"; "u"]%char -> mask !! i = Some true) /\
  (rs = ["y"%char] -> mask = [true]) /\
  (forall next, (2 <= length rs)%nat ->
     rs !! 0%nat = Some "y"%char -> rs !! 1%nat = Some next ->
     mask !! 0%nat = Some (negb (isVowel next))) /\
  (forall prev, (2 <= length rs)%nat ->
     rs !! (length rs - 1)%nat = Some "y"%char ->
     rs !! (length rs - 2)%nat = Some prev ->
     mask !! (length rs - 1)%nat = Some (negb (isVowel prev))) /\
  (forall i prev next, (0 < i < length rs - 1)%nat ->
     rs !! i = Some "y"%char ->
     rs !! (i - 1)%nat = Some prev -> rs !! (i + 1)%nat = Some next ->
     isVowel prev = isVowel next ->
     mask !! i = Some (negb (isVowel prev) && negb (isVowel next))) /\
  (forall i prev next, (0 < i < length rs - 1)%nat ->
     rs !! i = Some "y"%char ->
     rs !! (i - 1)%nat = Some prev -> rs !! (i + 1)%nat = Some next ->
     isVowel prev <> isVowel next ->
     mask !! i = Some (isVowel next)).
Proof.
  intros rs mask. subst rs mask.
  split; [by intros ->|].
  split.
  { intros i c Hc Hy. rewrite (maskConstructor_lookup s i c Hc).
    unfold maskAt. destruct (Ascii.eqb_spec c "y"); [done|done]. }
  split.
  { intros i c Hc Hin. rewrite (maskConstructor_lookup s i c Hc).
    simpl in Hin. unfold maskAt.
    destruct Hin as [<-|[<-|[<-|[<-|[<-|[]]]]]]; reflexivity. }
  split.
  { intros Hrs. unfold Vowels, maskConstructor. simpl. rewrite Hrs. reflexivity. }
  split.
  { intros next Hlen Hy Hnext. rewrite (maskConstructor_lookup s _ _ Hy).
    unfold maskAt. simpl (Ascii.eqb _ _). cbv iota.
    destruct (Nat.eqb_spec (length (runesOf (ToLower s))) 1); [lia|].
    simpl. by rewrite (runeAt_lookup _ _ _ Hnext). }
  split.
  { intros prev Hlen Hy Hprev. rewrite (maskConstructor_lookup s _ _ Hy).
    unfold maskAt. simpl (Ascii.eqb _ _). cbv iota.
    destruct (Nat.eqb_spec (length (runesOf (ToLower s))) 1); [lia|].
    destruct (Nat.eqb_spec (length (runesOf (ToLower s)) - 1) 0); [lia|].
    rewrite Nat.eqb_refl.
    replace (length (runesOf (ToLower s)) - 1 - 1)%nat
      with (length (runesOf (ToLower s)) - 2)%nat by lia.
    by rewrite (runeAt_lookup _ _ _ Hprev). }
  split.
  { intros i prev next Hi Hy Hprev Hnext Hsame.
    rewrite (maskConstructor_lookup s _ _ Hy).
    unfold maskAt. simpl (Ascii.eqb _ _). cbv iota.
    destruct (Nat.eqb_spec (length (runesOf (ToLower s))) 1); [lia|].
    destruct (Nat.eqb_spec i 0); [lia|].
    destruct (Nat.eqb_spec i (length (runesOf (ToLower s)) - 1)); [lia|].
    rewrite (runeAt_lookup _ _ _ Hprev), (runeAt_lookup _ _ _ Hnext).
    rewrite Hsame. by destruct (isVowel next). }
  { intros i prev next Hi Hy Hprev Hnext Hdiff.
    rewrite (maskConstructor_lookup s _ _ Hy).
    unfold maskAt. simpl (Ascii.eqb _ _). cbv iota.
    destruct (Nat.eqb_spec (length (runesOf (ToLower s))) 1); [lia|].
    destruct (Nat.eqb_spec i 0); [lia|].
    destruct (Nat.eqb_spec i (length (runesOf (ToLower s)) - 1)); [lia|].
    rewrite (runeAt_lookup _ _ _ Hprev), (runeAt_lookup _ _ _ Hnext).
    by destruct (isVowel prev), (isVowel next). }
Qed.

Lemma maskConstructor_rules_witness :
  (ToLower "kyle" = "kyle"%string /\
   runesOf (ToLower "kyle") = runesOf "kyle") /\
  Vowels (maskConstructor "kyle") !! 0%nat = Some false /\
  Vowels (maskConstructor "kyle") !! 3%nat = Some true /\
  Vowels (maskConstructor "y") = [true] /\
  Vowels (maskConstructor "yolanda") !! 0%nat = Some false /\
  Vowels (maskConstructor "tommy") !! 4%nat = Some true /\
  Vowels (maskConstructor "eyarta") !! 1%nat = Some false /\
  Vowels (maskConstructor "lyam") !! 1%nat = Some true.
Proof.
  split.
  { split; [reflexivity|].
    destruct (maskConstructor_rules "kyle") as (H & _). apply H. reflexivity. }
  split.
  { destruct (maskConstructor_rules "kyle") as (_ & H & _).
    apply (H 0%nat "k"%char); [reflexivity|discriminate]. }
  split.
  { destruct (maskConstructor_rules "kyle") as (_ & _ & H & _).
    apply (H 3%nat "e"%char); [reflexivity|]. simpl. tauto. }
  split.
  { destruct (maskConstructor_rules "y") as (_ & _ & _ & H & _).
    apply H. reflexivity. }
  split.
  { destruct (maskConstructor_rules "yolanda") as (_ & _ & _ & _ & H & _).
    apply (H "o"%char); [simpl; lia|reflexivity|reflexivity]. }
  split.
  { destruct (maskConstructor_rules "tommy") as (_ & _ & _ & _ & _ & H & _).
    apply (H "m"%char); [simpl; lia|reflexivity|reflexivity]. }
  split.
  { destruct (maskConstructor_rules "eyarta") as (_ & _ & _ & _ & _ & _ & H & _).
    apply (H 1%nat "e"%char "a"%char); [simpl; lia|reflexivity..]. }
  { destruct (maskConstructor_rules "lyam") as (_ & _ & _ & _ & _ & _ & _ & H).
    apply (H 1%nat "l"%char "a"%char); [simpl; lia|reflexivity|reflexivity|reflexivity|].
    simpl. discriminate. }
Defined.

Lemma zip_xorb_negb (l : list bool) :
  zip_with xorb l (negb <$> l) = replicate (length l) true.
Proof.
  induction l as [|b l IH]; [done|].
  change (xorb b (negb b) :: zip_with xorb l (negb <$> l) =
          true :: replicate (length l) true).
  rewrite IH. by destruct b.
Qed.

(** C5.  For every name (in particular every non-empty one) the vowel mask has
    one entry per character of the name, the consonant mask is its pointwise
    negation, and the exclusive-or of the two masks is true at every position:
    each position is a vowel or a consonant and not both. *)
Theorem masks_complementary (s : string) :
  let m := maskConstructor s in
  length (Vowels m) = length (runesOf s) /\
  length (Consonants m) = length (runesOf s) /\
  Consonants m = negb <$> Vowels m /\
  zip_with xorb (Vowels m) (Consonants m) = replicate (length (runesOf s)) true /\
  (forall i, (i < length (runesOf s))%nat ->
     exists v, Vowels m !! i = Some v /\ Consonants m !! i = Some (negb v)).
Proof.
  intros m.
  assert (length (Vowels m) = length (runesOf s)) as Hlen.
  { unfold m. by rewrite maskConstructor_length, ToLower_length. }
  pose proof (Consonants_negb m) as Hneg.
  split; [done|].
  split; [by rewrite Hneg, length_fmap|].
  split; [done|].
  split.
  - rewrite Hneg, <- Hlen. apply zip_xorb_negb.
  - intros i Hi. rewrite <- Hlen in Hi.
    destruct (lookup_lt_is_Some_2 _ _ Hi) as [v Hv].
    exists v. split; [done|]. by rewrite Hneg, list_lookup_fmap, Hv.
Qed.

(** ** The scorer *)

Example kevinBacon_full :
  summary <$> NameNumerology.Full kevinBacon =
  Some (2, [20; 2],
        [([2; 5; 4; 9; 5], [25; 7]);
         ([5; 6; 9; 5; 6; 6; 4], [41; 5]);
         ([2; 1; 3; 6; 5], [17; 8])]).
Proof. vm_compute. reflexivity. Qed.

Example georgeWashington_vowels :
  summary <$> NameNumerology.Vowels georgeWashington =
  Some (5, [14; 5],
        [([0; 5; 6; 0; 0; 5], [16; 7]);
         ([0; 1; 0; 0; 9; 0; 0; 0; 6; 0], [16; 7])]).
Proof. vm_compute. reflexivity. Qed.

Example event_1970_01_02 :
  NumerologicalResult.Value <$>
    DateNumerology.Event {| DateNumerology.Date :=
                              {| Year := 1970; Month := 1; Day := 2 |};
                            DateNumerology.MasterNumbers := standardMasters |}
  = Some 2.
Proof. vm_compute. reflexivity. Qed.

Example lifePath_1993_11_11 :
  NumerologicalResult.Value <$>
    DateNumerology.LifePath {| DateNumerology.Date :=
                                 {| Year := 1993; Month := 11; Day := 11 |};
                               DateNumerology.MasterNumbers := [11; 22; 33; 44] |}
  = Some 44.
Proof. vm_compute. reflexivity. Qed.

Example segments_example :
  segments "ab  c d" = [(0%nat, ["a"; "b"]); (4%nat, ["c"]); (6%nat, ["d"])]%char.
Proof. reflexivity. Qed.

(** *** Splitting on spaces *)

Lemma splitOn_nonempty sep rs : splitOn sep rs <> [].
Proof.
  destruct rs as [|r rest]; simpl; [done|].
  destruct (Ascii.eqb r sep); [done|]. by destruct (splitOn sep rest).
Qed.

Lemma splitOn_app_sep sep cur rest :
  Forall (fun r => r <> sep) cur ->
  splitOn sep (cur ++ sep :: rest) = cur :: splitOn sep rest.
Proof.
  induction 1 as [|r cur Hr _ IH]; simpl.
  - by rewrite Ascii.eqb_refl.
  - destruct (Ascii.eqb_spec r sep); [done|]. by rewrite IH.
Qed.

Lemma splitOn_no_sep sep cur :
  Forall (fun r => r <> sep) cur -> splitOn sep cur = [cur].
Proof.
  induction 1 as [|r cur Hr _ IH]; simpl; [done|].
  destruct (Ascii.eqb_spec r sep); [done|]. by rewrite IH.
Qed.

Lemma segmentsFrom_no_space offset cur :
  Forall (fun r => r <> " "%char) cur ->
  segmentsFrom offset cur = segmentOf offset cur.
Proof.
  intros Hcur. unfold segmentsFrom. rewrite splitOn_no_sep by done.
  by destruct cur.
Qed.

Lemma segmentsFrom_space offset cur rest :
  Forall (fun r => r <> " "%char) cur ->
  segmentsFrom offset (cur ++ " "%char :: rest) =
  segmentOf offset cur ++ segmentsFrom (offset + length cur + 1) rest.
Proof.
  intros Hcur. unfold segmentsFrom. rewrite splitOn_app_sep by done.
  by destruct cur.
Qed.

Lemma sliceOf_middle {A} (pre cur rest : list A) :
  sliceOf (pre ++ cur ++ rest) (length pre) (length (pre ++ cur)) = Some cur.
Proof.
  unfold sliceOf. rewrite !length_app. rewrite decide_True by lia.
  rewrite drop_app_length.
  replace (length pre + length cur - length pre)%nat with (length cur) by lia.
  by rewrite take_app_length.
Qed.

Lemma foldl_addSegment_None masterNumbers reduceWords numberSystem mask segs :
  foldl (addSegment masterNumbers reduceWords numberSystem mask) None segs = None.
Proof. induction segs as [|seg segs IH]; [done|]. simpl. exact IH. Qed.

(** *** The loop of [calculateCoreNumber] visits the segments in order *)

Section CoreLoop.
Variables (name : list rune) (masterNumbers : list Z) (reduceWords : bool).
Variables (numberSystem : NumberSystem) (mask : list bool).

Let step := addSegment masterNumbers reduceWords numberSystem mask.

(** What the loop does when it meets a space: the run [cur] before the
    space, if not empty, is scored and added. *)
Lemma coreLoop_flush pre cur rest totalValue breakdown :
  name = pre ++ cur ++ rest ->
  (if negb (length pre =? length (pre ++ cur))%nat then
     segment ← sliceOf name (length pre) (length (pre ++ cur));
     segmentMask ← sliceOf mask (length pre) (length (pre ++ cur));
     calc ← numerologyCalculation segment masterNumbers numberSystem
              reduceWords segmentMask;
     Some (GoInt.add totalValue (Breakdown.Value calc), breakdown ++ [calc])
   else Some (totalValue, breakdown)) =
  foldl step (Some (totalValue, breakdown)) (segmentOf (length pre) cur).
Proof.
  intros Hname. destruct cur as [|c cur].
  - rewrite app_nil_r, Nat.eqb_refl. reflexivity.
  - destruct (Nat.eqb_spec (length pre) (length (pre ++ c :: cur))) as [E|_].
    { rewrite length_app in E. simpl in E. lia. }
    rewrite Hname, sliceOf_middle.
    unfold segmentOf, step, addSegment, scoreSegment. simpl.
    rewrite length_app. simpl.
    destruct (sliceOf mask _ _); reflexivity.
Qed.

Lemma coreLoop_segments rest : forall pre cur totalValue breakdown,
  name = pre ++ cur ++ rest ->
  Forall (fun r => r <> " "%char) cur ->
  coreLoop name masterNumbers reduceWords numberSystem mask
    (length (pre ++ cur)) (rest ++ [" "%char]) (totalValue, breakdown, length pre) =
  (fun st => (st, S (length name))) <$>
    foldl step (Some (totalValue, breakdown)) (segmentsFrom (length pre) (cur ++ rest)).
Proof.
  induction rest as [|r rest IH]; intros pre cur totalValue breakdown Hname Hcur.
  - rewrite app_nil_r, segmentsFrom_no_space by done.
    rewrite <- (coreLoop_flush pre cur [] totalValue breakdown Hname).
    simpl. rewrite app_nil_r in Hname.
    destruct (if negb _ then _ else _) as [[t b]|]; [|done].
    simpl. by rewrite Hname.
  - simpl. destruct (Ascii.eqb_spec r " ") as [->|Hr].
    + simpl. rewrite segmentsFrom_space, foldl_app by done.
      rewrite <- (coreLoop_flush pre cur (" "%char :: rest) totalValue breakdown Hname).
      destruct (if negb _ then _ else _) as [[t b]|].
      * simpl.
        specialize (IH (pre ++ cur ++ [" "%char]) [] t b).
        rewrite !app_nil_r in IH. simpl in IH.
        rewrite !length_app in *. simpl in *.
        replace (length pre + (length cur + 1))%nat
          with (S (length pre + length cur)) in IH by lia.
        replace (length pre + length cur + 1)%nat
          with (S (length pre + length cur)) by lia.
        apply IH; [|done]. rewrite Hname. by rewrite <- !app_assoc.
      * simpl. unfold step. by rewrite foldl_addSegment_None.
    + simpl.
      specialize (IH pre (cur ++ [r]) totalValue breakdown).
      rewrite <- !app_assoc in IH. simpl in IH.
      rewrite !length_app in *. simpl in *.
      replace (length pre + (length cur + 1))%nat
        with (S (length pre + length cur)) in IH by lia.
      apply IH; [done|]. apply Forall_app. split; [done|]. by constructor.
Qed.

End CoreLoop.

(** [calculateCoreNumber] scores the segments of the name from left to right,
    adds up their values, and reduces the sum unless there is one segment and
    words are reduced. *)
Lemma calculateCoreNumber_segments name masterNumbers reduceWords numberSystem mask :
  calculateCoreNumber name masterNumbers reduceWords numberSystem mask =
  '(totalValue, breakdown) ←
    foldl (addSegment masterNumbers reduceWords numberSystem mask)
      (Some (0, [])) (segments name);
  reduceSteps ←
    (if (length breakdown =? 1)%nat && reduceWords
     then Breakdown.ReduceSteps <$> breakdown !! 0%nat
     else Some (reduceNumbers totalValue masterNumbers []));
  value ← last reduceSteps;
  Some {| NumerologicalResult.Value := value;
          NumerologicalResult.ReduceSteps := reduceSteps;
          NumerologicalResult.Breakdown := breakdown |}.
Proof.
  unfold calculateCoreNumber, segments.
  pose proof (coreLoop_segments (runesOf name) masterNumbers reduceWords
                numberSystem mask (runesOf name) [] [] 0 [] eq_refl (List.Forall_nil _)) as H.
  simpl in H. rewrite H.
  destruct (foldl _ _ _) as [[t b]|]; reflexivity.
Qed.

(** *** One segment *)

Lemma last_Some_nonempty {A} (l : list A) v : last l = Some v -> l <> [].
Proof. by destruct l. Qed.

Lemma trimLeft_length rs : (length (trimLeft rs) <= length rs)%nat.
Proof.
  induction rs as [|r rs IH]; simpl; [lia|].
  destruct (isSpace r); simpl; lia.
Qed.

Lemma TrimSpace_length rs : (length (TrimSpace rs) <= length rs)%nat.
Proof.
  unfold TrimSpace. rewrite length_rev.
  pose proof (trimLeft_length (rev (trimLeft rs))) as H1.
  rewrite length_rev in H1. pose proof (trimLeft_length rs). lia.
Qed.

Lemma scoreLetters_Some numberSystem mask letters : forall i totalValue nameSteps,
  (i + length letters <= length mask)%nat ->
  is_Some (scoreLetters numberSystem mask i letters totalValue nameSteps).
Proof.
  induction letters as [|letter rest IH]; intros i t steps Hlen; simpl; [done|].
  simpl in Hlen.
  destruct (NumberMapping numberSystem !! toLower letter) as [letterVal|].
  - destruct (lookup_lt_is_Some_2 mask i) as [b Hb]; [lia|].
    rewrite Hb. simpl. destruct b; apply IH; lia.
  - apply IH. lia.
Qed.

Lemma scoreLetters_range numberSystem mask letters :
  forall i totalValue nameSteps totalValue' nameSteps',
  GoInt.in_range totalValue ->
  scoreLetters numberSystem mask i letters totalValue nameSteps
    = Some (totalValue', nameSteps') ->
  GoInt.in_range totalValue'.
Proof.
  induction letters as [|letter rest IH]; intros i t steps t' steps' Ht H; simpl in H.
  - by injection H as <- _.
  - destruct (NumberMapping numberSystem !! toLower letter) as [letterVal|].
    + destruct (mask !! i) as [[]|]; simpl in H; [| |done].
      * eapply IH; [|exact H]. apply GoIntFacts.wrap_in_range.
      * eapply IH; [|exact H]. done.
    + eapply IH; [|exact H]. done.
Qed.

Lemma in_range_0 : GoInt.in_range 0.
Proof. unfold GoInt.in_range, GoInt.min_int, GoInt.max_int. lia. Qed.

(** What a breakdown returned by [numerologyCalculation] looks like. *)
Lemma numerologyCalculation_inv s masterNumbers numberSystem reduce mask b :
  numerologyCalculation s masterNumbers numberSystem reduce mask = Some b ->
  exists totalValue nameSteps,
    scoreLetters numberSystem mask 0 (TrimSpace s) 0 [] = Some (totalValue, nameSteps) /\
    GoInt.in_range totalValue /\
    Breakdown.ReduceSteps b =
      (if reduce then reduceNumbers totalValue masterNumbers [] else [totalValue]) /\
    Breakdown.LetterValues b = nameSteps /\
    breakdownClosed b.
Proof.
  unfold numerologyCalculation. intros H.
  destruct (scoreLetters _ _ _ _ _ _) as [[t steps]|] eqn:Hs; [|done].
  simpl in H.
  destruct (last _) as [v|] eqn:Hlast; [|done]. simpl in H.
  injection H as <-. exists t, steps. simpl.
  split; [done|]. split; [by eapply scoreLetters_range; [apply in_range_0|]|].
  split; [done|]. split; [done|].
  split; [by eapply last_Some_nonempty|done].
Qed.

Lemma numerologyCalculation_Some s masterNumbers numberSystem reduce mask :
  (length s <= length mask)%nat ->
  is_Some (numerologyCalculation s masterNumbers numberSystem reduce mask).
Proof.
  intros Hlen. unfold numerologyCalculation.
  destruct (scoreLetters_Some numberSystem mask (TrimSpace s) 0 0 []) as [[t steps] ->].
  { pose proof (TrimSpace_length s). simpl. lia. }
  simpl.
  assert (exists v, last (if reduce then reduceNumbers t masterNumbers [] else [t]) = Some v)
    as [v ->]; [|done].
  destruct reduce; [|by eexists].
  destruct (reduceNumbers_last masterNumbers t) as (v & -> & _). by eexists.
Qed.

(** *** The segments lie within the name *)

Lemma withOffsets_bounds sep rs : forall offset,
  Forall (fun p => (offset <= fst p /\ fst p + length (snd p) <= offset + length rs)%nat)
         (withOffsets offset (splitOn sep rs)).
Proof.
  induction rs as [|r rest IH]; intros offset; simpl.
  - repeat constructor; simpl; lia.
  - destruct (Ascii.eqb r sep).
    + simpl. constructor; [simpl; lia|].
      replace (offset + 0 + 1)%nat with (S offset) by lia.
      eapply Forall_impl; [apply (IH (S offset))|]. simpl. intros p. lia.
    + specialize (IH (S offset)).
      destruct (splitOn sep rest) as [|part parts]; simpl in *.
      { repeat constructor; simpl; lia. }
      inversion IH as [|? ? Hhd Htl]; subst. simpl in Hhd.
      constructor; [simpl; lia|].
      replace (offset + S (length part) + 1)%nat
        with (S offset + length part + 1)%nat by lia.
      eapply Forall_impl; [exact Htl|]. simpl. intros p. lia.
Qed.

Lemma segments_bounds name :
  Forall (fun p => (fst p + length (snd p) <= length (runesOf name))%nat)
         (segments name).
Proof.
  unfold segments, segmentsFrom.
  pose proof (withOffsets_bounds " " (runesOf name) 0) as H.
  rewrite List.Forall_forall in *. intros p Hp.
  apply List.filter_In in Hp as [Hp _]. specialize (H p Hp). simpl in H. lia.
Qed.

Lemma sliceOf_Some {A} (l : list A) a b :
  (a <= b <= length l)%nat ->
  exists l', sliceOf l a b = Some l' /\ length l' = (b - a)%nat.
Proof.
  intros H. unfold sliceOf. rewrite decide_True by done.
  eexists. split; [done|]. rewrite length_take, length_drop. lia.
Qed.

Lemma scoreSegment_Some masterNumbers reduceWords numberSystem mask seg :
  (fst seg + length (snd seg) <= length mask)%nat ->
  is_Some (scoreSegment masterNumbers reduceWords numberSystem mask seg).
Proof.
  intros H. unfold scoreSegment.
  destruct (sliceOf_Some mask (fst seg) (fst seg + length (snd seg)))
    as (m & -> & Hm); [lia|].
  simpl. apply numerologyCalculation_Some. lia.
Qed.

(** *** Folding over the segments *)

Section Segments.
Variables (masterNumbers : list Z) (reduceWords : bool).
Variables (numberSystem : NumberSystem) (mask : list bool).

Let step := addSegment masterNumbers reduceWords numberSystem mask.
Let score := scoreSegment masterNumbers reduceWords numberSystem mask.

Lemma addSegment_Some totalValue breakdown seg :
  step (Some (totalValue, breakdown)) seg =
  match score seg with
  | Some calc =>
      Some (GoInt.add totalValue (Breakdown.Value calc), breakdown ++ [calc])
  | None => None
  end.
Proof. unfold step, score, addSegment. simpl. by destruct (scoreSegment _ _ _ _ _). Qed.

Lemma foldl_addSegment_inv segs : forall totalValue breakdown totalValue' breakdown',
  foldl step (Some (totalValue, breakdown)) segs = Some (totalValue', breakdown') ->
  exists bs,
    breakdown' = breakdown ++ bs /\
    Forall2 (fun seg b => score seg = Some b) segs bs /\
    totalValue' = fold_left GoInt.add (Breakdown.Value <$> bs) totalValue.
Proof.
  induction segs as [|seg segs IH]; intros t bd t' bd' H.
  - injection H as <- <-. exists []. rewrite app_nil_r. by repeat split.
  - change (foldl step (step (Some (t, bd)) seg) segs = Some (t', bd')) in H.
    rewrite addSegment_Some in H.
    destruct (score seg) as [calc|] eqn:Hcalc.
    + apply IH in H as (bs & -> & Hall & ->).
      exists (calc :: bs). rewrite <- app_assoc.
      split; [done|]. split; [by constructor|done].
    + unfold step in H. by rewrite foldl_addSegment_None in H.
Qed.

Lemma foldl_addSegment_Some segs : forall st,
  Forall (fun seg => is_Some (score seg)) segs ->
  is_Some (foldl step (Some st) segs).
Proof.
  induction segs as [|seg segs IH]; intros [t bd] Hall; [done|].
  inversion Hall as [|? ? [calc Hcalc] Hall']; subst.
  change (is_Some (foldl step (step (Some (t, bd)) seg) segs)).
  rewrite addSegment_Some, Hcalc. by apply IH.
Qed.

End Segments.

(** *** The final value of a reduction is not reduced further *)

Lemma reduceNumbers_last_fixed n masterNumbers v :
  last (reduceNumbers n masterNumbers []) = Some v ->
  reduceNumbers v masterNumbers [] = [v].
Proof.
  intros Hlast.
  destruct (reduceNumbers_last masterNumbers n) as (v' & Hv' & Hcase).
  rewrite Hlast in Hv'. injection Hv' as <-.
  destruct Hcase as [Hlt|Hin]; [by apply reduceNumbers_small|].
  by apply reduceNumbers_master, isMasterNumber_In.
Qed.

Lemma reduceNumbers_last_range n masterNumbers v :
  GoInt.in_range n ->
  last (reduceNumbers n masterNumbers []) = Some v ->
  GoInt.in_range v.
Proof.
  intros Hn Hlast. destruct (Z_lt_le_dec n 0) as [Hneg|Hpos].
  - rewrite reduceNumbers_small in Hlast by lia. by injection Hlast as <-.
  - pose proof (reduceNumbers_range masterNumbers n Hpos) as Hr.
    apply last_Some in Hlast as [l' Hl']. rewrite Hl' in Hr.
    apply Forall_app in Hr as [_ Hr]. inversion Hr as [|? ? Hv _]; subst.
    unfold GoInt.in_range, GoInt.min_int, GoInt.max_int in *. lia.
Qed.

Lemma sumValues_singleton v : GoInt.in_range v -> sumValues [v] = v.
Proof. intros Hv. unfold sumValues. simpl. by apply GoIntFacts.add_exact. Qed.

(** *** Results of [calculateCoreNumber] *)

Lemma scoreSegment_inv masterNumbers reduceWords numberSystem mask seg b :
  scoreSegment masterNumbers reduceWords numberSystem mask seg = Some b ->
  exists segmentMask,
    sliceOf mask (fst seg) (fst seg + length (snd seg)) = Some segmentMask /\
    numerologyCalculation (snd seg) masterNumbers numberSystem reduceWords segmentMask
      = Some b.
Proof.
  unfold scoreSegment. intros H.
  destruct (sliceOf mask _ _) as [m|]; [|done]. by exists m.
Qed.

Lemma scoreSegment_closed masterNumbers reduceWords numberSystem mask seg b :
  scoreSegment masterNumbers reduceWords numberSystem mask seg = Some b ->
  breakdownClosed b.
Proof.
  intros (m & _ & H)%scoreSegment_inv.
  by apply numerologyCalculation_inv in H as (_ & _ & _ & _ & _ & _ & Hc).
Qed.

Lemma calculateCoreNumber_inv name masterNumbers reduceWords numberSystem mask r :
  calculateCoreNumber name masterNumbers reduceWords numberSystem mask = Some r ->
  let bs := NumerologicalResult.Breakdown r in
  let totalValue := sumValues (Breakdown.Value <$> bs) in
  Forall2 (fun seg b =>
             scoreSegment masterNumbers reduceWords numberSystem mask seg = Some b)
          (segments name) bs /\
  (if (length bs =? 1)%nat && reduceWords
   then Breakdown.ReduceSteps <$> bs !! 0%nat
   else Some (reduceNumbers totalValue masterNumbers []))
    = Some (NumerologicalResult.ReduceSteps r) /\
  last (NumerologicalResult.ReduceSteps r) = Some (NumerologicalResult.Value r).
Proof.
  rewrite calculateCoreNumber_segments. intros H.
  destruct (foldl _ _ _) as [[t bd]|] eqn:Hfold; [|done]. simpl in H.
  apply foldl_addSegment_inv in Hfold as (bs & -> & Hall & ->). simpl in *.
  apply bind_Some in H as (steps & Hsteps & H).
  apply bind_Some in H as (v & Hlast & H).
  injection H as <-. simpl. by repeat split.
Qed.

Lemma calculateCoreNumber_Some name masterNumbers reduceWords numberSystem mask :
  length mask = length (runesOf name) ->
  is_Some (calculateCoreNumber name masterNumbers reduceWords numberSystem mask).
Proof.
  intros Hlen. rewrite calculateCoreNumber_segments.
  destruct (foldl_addSegment_Some masterNumbers reduceWords numberSystem mask
              (segments name) (0, [])) as [[t bd] Hfold].
  { eapply Forall_impl; [apply segments_bounds|].
    intros seg Hseg. apply scoreSegment_Some. simpl in Hseg. lia. }
  rewrite Hfold. simpl.
  apply foldl_addSegment_inv in Hfold as (bs & -> & Hall & ->). simpl.
  assert (exists steps,
            (if (length bs =? 1)%nat && reduceWords
             then Breakdown.ReduceSteps <$> bs !! 0%nat
             else Some (reduceNumbers (fold_left GoInt.add (Breakdown.Value <$> bs) 0)
                          masterNumbers [])) = Some steps /\ steps <> [])
    as (steps & -> & Hne).
  { destruct ((length bs =? 1)%nat && reduceWords) eqn:Hcond.
    - destruct bs as [|b [|? ?]]; try done. simpl.
      eexists. split; [done|].
      inversion Hall as [|seg ? ? ? Hb _]; subst.
      by apply scoreSegment_closed in Hb as [Hne _].
    - eexists. split; [done|]. apply reduceNumbers_nonempty. }
  simpl. destruct steps as [|x steps] using rev_ind; [done|].
  by rewrite last_snoc.
Qed.

(** C6.  The value of a breakdown and of a result is the last element of its
    reduction steps, which are not empty: for every breakdown returned by
    [numerologyCalculation], for every result of [calculateCoreNumber] and the
    breakdowns in it, and for every result of [calculateDate] and the
    breakdowns in it.  The name calculations [Full], [Vowels], [Consonants]
    on an ASCII name, and the date calculation, always return such a
    result. *)
Theorem value_is_last_step :
  (forall s masterNumbers numberSystem reduce mask b,
     numerologyCalculation s masterNumbers numberSystem reduce mask = Some b ->
     breakdownClosed b) /\
  (forall name masterNumbers reduceWords numberSystem mask r,
     calculateCoreNumber name masterNumbers reduceWords numberSystem mask = Some r ->
     resultClosed r) /\
  (forall n : NameNumerology.t,
     asciiName (NameNumerology.Name n) ->
     (exists r, NameNumerology.Full n = Some r /\ resultClosed r) /\
     (exists r, NameNumerology.Vowels n = Some r /\ resultClosed r) /\
     (exists r, NameNumerology.Consonants n = Some r /\ resultClosed r)) /\
  (forall date masterNumbers lifePath,
     exists r, calculateDate date masterNumbers lifePath = Some r /\ resultClosed r).
Proof.
  assert (forall name masterNumbers reduceWords numberSystem mask r,
     calculateCoreNumber name masterNumbers reduceWords numberSystem mask = Some r ->
     resultClosed r) as Hcore.
  { intros name m rw ns mask r Hr.
    apply calculateCoreNumber_inv in Hr as (Hall & _ & Hlast).
    split; [by eapply last_Some_nonempty|]. split; [done|].
    revert Hall. generalize (segments name) (NumerologicalResult.Breakdown r).
    induction 1 as [|seg b segs bs Hb _ IH]; constructor; [|done].
    by eapply scoreSegment_closed. }
  split.
  { intros s m ns reduce mask b H.
    by apply numerologyCalculation_inv in H as (_ & _ & _ & _ & _ & _ & Hc). }
  split; [exact Hcore|].
  split.
  { intros n _.
    assert (length (Vowels (maskConstructor (NameNumerology.Name n)))
            = length (runesOf (NameNumerology.Name n))) as Hv.
    { by rewrite maskConstructor_length, ToLower_length. }
    assert (length (Consonants (maskConstructor (NameNumerology.Name n)))
            = length (runesOf (NameNumerology.Name n))) as Hc.
    { by rewrite Consonants_negb, length_fmap. }
    assert (length (Full (maskConstructor (NameNumerology.Name n)))
            = length (runesOf (NameNumerology.Name n))) as Hf.
    { unfold Full. rewrite fillMask_length. exact Hv. }
    split; [|split].
    - destruct (calculateCoreNumber_Some (NameNumerology.Name n)
                  (NameNumerology.MasterNumbers n) (NameNumerology.ReduceWords n)
                  (NameNumerology.NumberSystem n) _ Hf) as [r Hr].
      exists r. split; [done|]. by eapply Hcore.
    - destruct (calculateCoreNumber_Some (NameNumerology.Name n)
                  (NameNumerology.MasterNumbers n) (NameNumerology.ReduceWords n)
                  (NameNumerology.NumberSystem n) _ Hv) as [r Hr].
      exists r. split; [done|]. by eapply Hcore.
    - destruct (calculateCoreNumber_Some (NameNumerology.Name n)
                  (NameNumerology.MasterNumbers n) (NameNumerology.ReduceWords n)
                  (NameNumerology.NumberSystem n) _ Hc) as [r Hr].
      exists r. split; [done|]. by eapply Hcore. }
  intros date m lifePath. unfold calculateDate, dateLoop.
  destruct (reduceNumbers_last m (Year date)) as (vy & Hy & _).
  destruct (reduceNumbers_last m (Month date)) as (vm & Hm & _).
  destruct (reduceNumbers_last m (Day date)) as (vd & Hd & _).
  rewrite Hy. simpl. rewrite Hm. simpl. rewrite Hd. simpl.
  set (total := GoInt.add (GoInt.add (GoInt.add 0 vy) vm) vd).
  assert (exists v, last (if lifePath then reduceNumbers total m []
                          else reduceNumbers total [] []) = Some v) as [v Hv].
  { destruct lifePath.
    - destruct (reduceNumbers_last m total) as (v & Hv & _). by exists v.
    - destruct (reduceNumbers_last [] total) as (v & Hv & _). by exists v. }
  rewrite Hv. simpl. eexists. split; [done|].
  split; simpl; [by eapply last_Some_nonempty|]. split; [done|].
  repeat constructor; simpl; try done; by eapply last_Some_nonempty.
Qed.

Lemma value_is_last_step_witness :
  (exists b,
     numerologyCalculation (runesOf "Kevin") standardMasters Pythagorean true
       (replicate 5 true) = Some b /\ breakdownClosed b) /\
  (exists r,
     calculateCoreNumber "Kevin Norwood Bacon" standardMasters true Pythagorean
       (replicate 19 true) = Some r /\ resultClosed r) /\
  asciiName (NameNumerology.Name kevinBacon) /\
  (exists r, NameNumerology.Full kevinBacon = Some r /\ resultClosed r) /\
  (exists r, NameNumerology.Vowels kevinBacon = Some r /\ resultClosed r) /\
  (exists r, NameNumerology.Consonants kevinBacon = Some r /\ resultClosed r).
Proof.
  split; [|split; [|split]].
  - eexists. split; [vm_compute; reflexivity|].
    apply (proj1 value_is_last_step (runesOf "Kevin") standardMasters Pythagorean
             true (replicate 5 true)).
    vm_compute. reflexivity.
  - eexists. split; [vm_compute; reflexivity|].
    apply (proj1 (proj2 value_is_last_step) "Kevin Norwood Bacon"%string
             standardMasters true Pythagorean (replicate 19 true)).
    vm_compute. reflexivity.
  - reflexivity.
  - apply (proj1 (proj2 (proj2 value_is_last_step)) kevinBacon). reflexivity.
Defined.

(** C3.  With word reduction, on an ASCII name and a mask as long as the name,
    [calculateCoreNumber] returns a result whose breakdowns are the reduced
    scores of the space-delimited segments of the name, in order; the value of
    the result is the final value of the reduction of the sum of the segment
    values; when there is exactly one segment the reduction steps of the
    result are those of the segment, and otherwise they are the reduction of
    the sum. *)
Theorem calculateCoreNumber_reduceWords name masterNumbers numberSystem mask :
  asciiName name ->
  length mask = length (runesOf name) ->
  exists r,
    calculateCoreNumber name masterNumbers true numberSystem mask = Some r /\
    let bs := NumerologicalResult.Breakdown r in
    let totalValue := sumValues (Breakdown.Value <$> bs) in
    Forall2 (segmentReduced masterNumbers numberSystem mask) (segments name) bs /\
    last (reduceNumbers totalValue masterNumbers [])
      = Some (NumerologicalResult.Value r) /\
    (forall b, bs = [b] ->
       NumerologicalResult.ReduceSteps r = Breakdown.ReduceSteps b) /\
    (length bs <> 1%nat ->
       NumerologicalResult.ReduceSteps r = reduceNumbers totalValue masterNumbers []).
Proof.
  intros _ Hlen.
  destruct (calculateCoreNumber_Some name masterNumbers true numberSystem mask Hlen)
    as [r Hr].
  exists r. split; [done|].
  apply calculateCoreNumber_inv in Hr as (Hall & Hsteps & Hlast).
  set (bs := NumerologicalResult.Breakdown r) in *.
  assert (Forall2 (segmentReduced masterNumbers numberSystem mask) (segments name) bs)
    as Hsegs.
  { eapply Forall2_impl; [exact Hall|].
    intros seg b (m & Hm & Hb)%scoreSegment_inv.
    apply numerologyCalculation_inv in Hb as (t & steps & Hs & _ & Hred & Hlv & _ & Hl).
    by exists m, t, steps. }
  cbv zeta. split; [done|].
  destruct (Nat.eqb_spec (length bs) 1) as [Hone|Hmany]; simpl in Hsteps.
  - destruct bs as [|b [|? ?]] eqn:Hbs; try done. simpl in Hsteps.
    injection Hsteps as Hsteps.
    inversion Hall as [|seg ? ? ? Hb _]; subst.
    apply scoreSegment_inv in Hb as (m & _ & Hb).
    apply numerologyCalculation_inv in Hb as (t & steps & _ & Ht & Hred & _ & _ & Hl).
    rewrite <- Hsteps, Hl in Hlast. injection Hlast as Hv.
    rewrite Hred in Hl.
    assert (GoInt.in_range (Breakdown.Value b)) as Hrange
      by (by eapply reduceNumbers_last_range).
    split.
    { simpl. rewrite sumValues_singleton by done.
      rewrite (reduceNumbers_last_fixed _ _ _ Hl). simpl. by rewrite Hv. }
    split; [|done].
    intros b' [= <-]. done.
  - injection Hsteps as Hsteps. split; [by rewrite Hsteps|].
    split; [|done].
    intros b Hb. rewrite Hb in Hmany. done.
Qed.

Lemma calculateCoreNumber_reduceWords_witness :
  asciiName "Kevin Norwood Bacon" /\
  length (replicate 19 true) = length (runesOf "Kevin Norwood Bacon") /\
  exists r,
    calculateCoreNumber "Kevin Norwood Bacon" standardMasters true Pythagorean
      (replicate 19 true) = Some r /\
    let bs := NumerologicalResult.Breakdown r in
    let totalValue := sumValues (Breakdown.Value <$> bs) in
    Forall2 (segmentReduced standardMasters Pythagorean (replicate 19 true))
      (segments "Kevin Norwood Bacon") bs /\
    last (reduceNumbers totalValue standardMasters [])
      = Some (NumerologicalResult.Value r) /\
    (forall b, bs = [b] ->
       NumerologicalResult.ReduceSteps r = Breakdown.ReduceSteps b) /\
    (length bs <> 1%nat ->
       NumerologicalResult.ReduceSteps r = reduceNumbers totalValue standardMasters []).
Proof.
  split; [reflexivity|]. split; [reflexivity|].
  apply (calculateCoreNumber_reduceWords "Kevin Norwood Bacon" standardMasters
           Pythagorean (replicate 19 true)); reflexivity.
Defined.

(** A name of one segment: the steps of the result are the steps of the
    segment, here with a master number as final value. *)
Example one_segment_steps :
  summary <$> calculateCoreNumber "Niels" standardMasters true Pythagorean
                (replicate 5 true)
  = Some (5, [23; 5], [([5; 9; 5; 3; 1], [23; 5])]).
Proof. vm_compute. reflexivity. Qed.

(** ** Dates *)

(** C7.  For every date and every list of master numbers the date calculation
    returns a result with three breakdowns, the reductions of year, month and
    day with the master numbers of the caller; the values of the three are
    summed; a life path reduces the sum with the master numbers of the caller
    and an event reduces it with no master numbers.  The value of an event is
    therefore below ten. *)
Theorem calculateDate_reduction (date : Date) (masterNumbers : list Z) :
  (forall lifePath, exists r byear bmonth bday,
     calculateDate date masterNumbers lifePath = Some r /\
     NumerologicalResult.Breakdown r = [byear; bmonth; bday] /\
     Breakdown.ReduceSteps byear = reduceNumbers (Year date) masterNumbers [] /\
     Breakdown.ReduceSteps bmonth = reduceNumbers (Month date) masterNumbers [] /\
     Breakdown.ReduceSteps bday = reduceNumbers (Day date) masterNumbers [] /\
     last (Breakdown.ReduceSteps byear) = Some (Breakdown.Value byear) /\
     last (Breakdown.ReduceSteps bmonth) = Some (Breakdown.Value bmonth) /\
     last (Breakdown.ReduceSteps bday) = Some (Breakdown.Value bday) /\
     let totalValue :=
       sumValues [Breakdown.Value byear; Breakdown.Value bmonth; Breakdown.Value bday] in
     NumerologicalResult.ReduceSteps r =
       (if lifePath then reduceNumbers totalValue masterNumbers []
        else reduceNumbers totalValue [] []) /\
     last (NumerologicalResult.ReduceSteps r) = Some (NumerologicalResult.Value r)) /\
  (exists r,
     DateNumerology.Event {| DateNumerology.Date := date;
                             DateNumerology.MasterNumbers := masterNumbers |} = Some r /\
     NumerologicalResult.Value r < 10).
Proof.
  assert (forall lifePath, exists r byear bmonth bday,
     calculateDate date masterNumbers lifePath = Some r /\
     NumerologicalResult.Breakdown r = [byear; bmonth; bday] /\
     Breakdown.ReduceSteps byear = reduceNumbers (Year date) masterNumbers [] /\
     Breakdown.ReduceSteps bmonth = reduceNumbers (Month date) masterNumbers [] /\
     Breakdown.ReduceSteps bday = reduceNumbers (Day date) masterNumbers [] /\
     last (Breakdown.ReduceSteps byear) = Some (Breakdown.Value byear) /\
     last (Breakdown.ReduceSteps bmonth) = Some (Breakdown.Value bmonth) /\
     last (Breakdown.ReduceSteps bday) = Some (Breakdown.Value bday) /\
     let totalValue :=
       sumValues [Breakdown.Value byear; Breakdown.Value bmonth; Breakdown.Value bday] in
     NumerologicalResult.ReduceSteps r =
       (if lifePath then reduceNumbers totalValue masterNumbers []
        else reduceNumbers totalValue [] []) /\
     last (NumerologicalResult.ReduceSteps r) = Some (NumerologicalResult.Value r)) as H.
  { intros lifePath. unfold calculateDate, dateLoop.
    destruct (reduceNumbers_last masterNumbers (Year date)) as (vy & Hy & _).
    destruct (reduceNumbers_last masterNumbers (Month date)) as (vm & Hm & _).
    destruct (reduceNumbers_last masterNumbers (Day date)) as (vd & Hd & _).
    rewrite Hy. simpl. rewrite Hm. simpl. rewrite Hd. simpl.
    set (total := GoInt.add (GoInt.add (GoInt.add 0 vy) vm) vd).
    assert (exists v, last (if lifePath then reduceNumbers total masterNumbers []
                            else reduceNumbers total [] []) = Some v) as [v Hv].
    { destruct lifePath.
      - destruct (reduceNumbers_last masterNumbers total) as (v & Hv & _). by exists v.
      - destruct (reduceNumbers_last [] total) as (v & Hv & _). by exists v. }
    rewrite Hv. simpl. do 4 eexists. split; [done|]. simpl.
    repeat (split; [done|]). done. }
  split; [exact H|].
  destruct (H false) as (r & byear & bmonth & bday & Hr & _ & _ & _ & _ & _ & _ & _
                           & Hsteps & Hlast).
  exists r. split; [exact Hr|].
  cbv zeta in Hsteps. rewrite Hsteps in Hlast.
  destruct (reduceNumbers_last []
              (sumValues [Breakdown.Value byear; Breakdown.Value bmonth;
                          Breakdown.Value bday])) as (v & Hv & Hcase).
  rewrite Hv in Hlast. injection Hlast as <-.
  destruct Hcase as [Hlt|[]]. exact Hlt.
Qed.

Example event_1993_11_11 :
  summary <$> calculateDate {| Year := 1993; Month := 11; Day := 11 |}
                [11; 22; 33; 44] false
  = Some (8, [44; 8], [([1; 9; 9; 3], [1993; 22]); ([11], [11]); ([11], [11])]).
Proof. vm_compute. reflexivity. Qed.

(** ** The inverse range solver *)

Example lookup_full_6 :
  generateLookupNums (lookupFuel 20 60) 20 60 [6] standardMasters true
  = Some [4; 13; 22; 31; 40].
Proof. vm_compute. reflexivity. Qed.

Example lookup_karmic_debt :
  generateLookupNums (lookupFuel 0 30) 0 30 [-13; -14; -16; -19] standardMasters false
  = Some [1; 2; 3; 4; 5; 6; 7; 8; 9; 10; 11; 12; 15; 17; 18; 20; 21; 22; 23; 24;
          25; 26; 27; 28; 29; 30].
Proof. vm_compute. reflexivity. Qed.

(** *** The digit sum does not exceed the number *)

Lemma formatDigits_sum fuel : forall i acc,
  0 <= i -> plainSum (formatDigits fuel i acc) <= i + plainSum acc.
Proof.
  induction fuel as [|fuel IH]; intros i acc Hi; simpl; [lia|].
  pose proof (Z.mod_pos_bound i 10 ltac:(lia)) as Hmod.
  pose proof (Z.div_mod i 10 ltac:(lia)) as Hdiv.
  assert (0 <= i / 10) as Hq by (apply Z.div_pos; lia).
  destruct (i / 10 =? 0); simpl; [lia|].
  specialize (IH (i / 10) (i mod 10 :: acc) Hq). simpl in IH. lia.
Qed.

Lemma sumValues_plain_aux vals : forall acc,
  Forall is_digit vals ->
  0 <= acc -> acc + 9 * Z.of_nat (length vals) <= GoInt.max_int ->
  fold_left GoInt.add vals acc = acc + plainSum vals.
Proof.
  induction vals as [|d vals IH]; intros acc Hd Hacc Hmax; simpl in *; [lia|].
  inversion Hd as [|? ? Hd1 Hd2]; subst. unfold is_digit in Hd1.
  rewrite GoIntFacts.add_exact.
  - rewrite IH by (done || lia). lia.
  - unfold GoInt.in_range, GoInt.min_int, GoInt.max_int in *. lia.
Qed.

Lemma digitSum_le n : 0 <= n < 2 ^ 64 -> digitSum n <= n.
Proof.
  intros Hn. unfold digitSum, sumValues.
  rewrite GoIntFacts.uint64_id by done.
  pose proof (splitNumber_digits n) as Hd.
  pose proof (splitNumber_length n) as Hl.
  rewrite sumValues_plain_aux; [|done|lia|unfold GoInt.max_int; lia].
  pose proof (formatDigits_sum 20 n [] ltac:(lia)) as H.
  change (plainSum []) with 0 in H. unfold splitNumber. lia.
Qed.

(** Every reduction step of a non-negative [int] lies between zero and it. *)
Lemma reduceNumbers_le masterNumbers n :
  0 <= n <= GoInt.max_int ->
  Forall (fun v => 0 <= v <= n) (reduceNumbers n masterNumbers []).
Proof.
  induction n as [n Hn|n Hn Hm|n Hn Hm IH] using (reduceNumbers_ind masterNumbers);
    intros Hr.
  - rewrite reduceNumbers_small by done. repeat constructor; lia.
  - rewrite reduceNumbers_master by done. repeat constructor; lia.
  - rewrite reduceNumbers_step by done.
    pose proof (digitSum_bound n) as Hb.
    assert (digitSum n <= n) as Hle.
    { apply digitSum_le. unfold GoInt.max_int in Hr. lia. }
    constructor; [lia|]. eapply Forall_impl; [apply IH; lia|].
    intros v Hv. simpl in Hv. lia.
Qed.

Lemma fragmentValue_range masterNumbers reduceWords i :
  0 <= i <= GoInt.max_int ->
  0 <= fragmentValue masterNumbers reduceWords i <= i.
Proof.
  intros Hi. unfold fragmentValue. destruct reduceWords; [|lia].
  destruct (reduceNumbers_last masterNumbers i) as (v & Hv & _). rewrite Hv. simpl.
  pose proof (reduceNumbers_le masterNumbers i Hi) as Hr.
  apply last_Some in Hv as [l' Hl']. rewrite Hl' in Hr.
  apply Forall_app in Hr as [_ Hr]. by inversion Hr.
Qed.

(** *** The two sets *)

Lemma splitTargets_spec targets : forall positiveNums negativeNums,
  splitTargets targets positiveNums negativeNums =
  (positiveNums ++ acceptableSet targets,
   negativeNums ++ (GoInt.neg <$> List.filter (fun n => n <? 0) targets)).
Proof.
  unfold acceptableSet.
  induction targets as [|n rest IH]; intros pos neg; simpl.
  - by rewrite !app_nil_r.
  - destruct (Z.leb_spec 0 n), (Z.ltb_spec n 0); try lia.
    + rewrite IH. by rewrite <- app_assoc.
    + rewrite IH. simpl. by rewrite <- app_assoc.
Qed.

(** For a value that an [int] step can take, the negated targets of the code
    and the absolute values of the specification agree. *)
Lemma excluded_agree targets v :
  Forall GoInt.in_range targets ->
  0 <= v <= GoInt.max_int ->
  In v (GoInt.neg <$> List.filter (fun n => n <? 0) targets) <->
  In v (excludedSet targets).
Proof.
  intros Hr Hv. unfold excludedSet.
  induction targets as [|n rest IH]; simpl; [done|].
  inversion Hr as [|? ? Hn Hrest]; subst. specialize (IH Hrest).
  destruct (Z.ltb_spec n 0) as [Hneg|Hpos]; [|done].
  simpl. rewrite IH.
  assert (GoInt.neg n = v <-> Z.abs n = v) as ->; [|done].
  unfold GoInt.neg, GoInt.wrap, GoInt.in_range, GoInt.min_int, GoInt.max_int in *.
  destruct (Z.eq_dec n (- 2 ^ 63)) as [->|Hne].
  - change ((- - 2 ^ 63 + 2 ^ 63) mod 2 ^ 64 - 2 ^ 63) with (- 2 ^ 63).
    change (Z.abs (- 2 ^ 63)) with (2 ^ 63). lia.
  - rewrite Z.mod_small by lia. lia.
Qed.

(** *** The scan of the steps *)

Lemma matchSteps_spec positiveNums negativeNums noMatch steps :
  matchSteps steps positiveNums negativeNums noMatch = false <->
  (exists k v, steps !! k = Some v /\ In v positiveNums /\
     forall j w, (j <= k)%nat -> steps !! j = Some w -> ~ In w negativeNums) \/
  (noMatch = false /\ forall w, In w steps -> ~ In w negativeNums).
Proof.
  induction steps as [|v rest IH]; simpl.
  - split.
    + intros ->. right. split; [done|]. intros w [].
    + intros [(k & v & Hk & _)|[-> _]]; done.
  - destruct (inIntSlice v negativeNums) eqn:Hneg.
    { apply inIntSlice_In in Hneg. split; [done|].
      intros [(k & w & Hk & Hw & Hall)|[_ Hall]].
      - exfalso. apply (Hall 0%nat v); [lia|done|done].
      - exfalso. apply (Hall v); [by left|done]. }
    apply inIntSlice_false in Hneg.
    destruct (inIntSlice v positiveNums) eqn:Hpos.
    { apply inIntSlice_In in Hpos. split; [|done]. intros _. left.
      exists 0%nat, v. split; [done|]. split; [done|].
      intros j w Hj Hw. assert (j = 0%nat) as -> by lia.
      injection Hw as <-. done. }
    apply inIntSlice_false in Hpos.
    rewrite IH. split.
    + intros [(k & w & Hk & Hw & Hall)|[Hb Hall]].
      * left. exists (S k), w. split; [done|]. split; [done|].
        intros [|j] w' Hj Hw'; [by injection Hw' as <-|].
        apply (Hall j w'); [lia|done].
      * right. split; [done|]. intros w [<-|Hw]; [done|]. by apply Hall.
    + intros [(k & w & Hk & Hw & Hall)|[Hb Hall]].
      * destruct k as [|k]; [by injection Hk as <-|].
        left. exists k, w. split; [done|]. split; [done|].
        intros j w' Hj Hw'. apply (Hall (S j) w'); [lia|done].
      * right. split; [done|]. intros w Hw. apply Hall. by right.
Qed.

(** *** The main loop *)

Lemma lookupNoMatch_spec minSearchNumber positiveNums negativeNums masterNumbers
    reduceWords i :
  lookupNoMatch minSearchNumber positiveNums negativeNums masterNumbers reduceWords i
  = Some (negb (candidateAccepted minSearchNumber positiveNums negativeNums
                  masterNumbers reduceWords i)).
Proof.
  unfold lookupNoMatch, candidateAccepted, fragmentValue.
  rewrite negb_involutive.
  destruct (reduceNumbers_head i masterNumbers) as [rest Hrest].
  destruct reduceWords.
  - replace (length (reduceNumbers i masterNumbers []) - 1)%nat
      with (Nat.pred (length (reduceNumbers i masterNumbers []))) by lia.
    rewrite <- last_lookup.
    destruct (reduceNumbers_last masterNumbers i) as (v & -> & _). done.
  - rewrite Hrest. done.
Qed.

Section LookupLoop.
Variables (minSearchNumber maxSearchNumber : Z).
Variables (positiveNums negativeNums masterNumbers : list Z) (reduceWords : bool).
Hypothesis min_range : 0 <= minSearchNumber < GoInt.max_int.
Hypothesis max_range : maxSearchNumber < GoInt.max_int.

Let accepted :=
  candidateAccepted minSearchNumber positiveNums negativeNums masterNumbers reduceWords.

Lemma lookupLoop_spec fuel : forall i nums,
  1 <= i ->
  i <= Z.max 1 (maxSearchNumber - minSearchNumber + 1) ->
  (Z.to_nat (maxSearchNumber - minSearchNumber + 1 - i) < fuel)%nat ->
  lookupLoop fuel minSearchNumber maxSearchNumber positiveNums negativeNums
    masterNumbers reduceWords i nums =
  Some (nums ++ List.filter accepted
                  (seqZ i (maxSearchNumber - minSearchNumber + 1 - i))).
Proof.
  induction fuel as [|fuel IH]; intros i nums Hi Hmax Hfuel; [lia|].
  simpl. unfold GoInt.max_int in *.
  rewrite GoIntFacts.add_exact
    by (unfold GoInt.in_range, GoInt.min_int, GoInt.max_int; lia).
  destruct (Z.leb_spec (minSearchNumber + i) maxSearchNumber) as [Hin|Hout].
  - rewrite lookupNoMatch_spec. simpl.
    rewrite GoIntFacts.add_exact
      by (unfold GoInt.in_range, GoInt.min_int, GoInt.max_int; lia).
    rewrite IH by lia.
    rewrite (seqZ_cons i) by lia. simpl. fold accepted.
    replace (Z.pred (maxSearchNumber - minSearchNumber + 1 - i))
      with (maxSearchNumber - minSearchNumber + 1 - (i + 1)) by lia.
    replace (Z.succ i) with (i + 1) by lia.
    destruct (accepted i); simpl; [by rewrite <- app_assoc|done].
  - rewrite seqZ_nil by lia. by rewrite app_nil_r.
Qed.

End LookupLoop.

(** The decision of the loop on a candidate in range, in the words of the
    amended claim. *)
Lemma candidateAccepted_first_hit minSearchNumber maxSearchNumber targets
    masterNumbers reduceWords i :
  0 <= minSearchNumber ->
  maxSearchNumber < GoInt.max_int ->
  Forall GoInt.in_range targets ->
  1 <= i <= maxSearchNumber - minSearchNumber ->
  candidateAccepted minSearchNumber (acceptableSet targets)
    (GoInt.neg <$> List.filter (fun n => n <? 0) targets)
    masterNumbers reduceWords i = true <->
  acceptsFirstHit targets (totalSteps minSearchNumber masterNumbers reduceWords i).
Proof.
  intros Hmin Hmax Htargets Hi.
  unfold candidateAccepted, acceptsFirstHit, totalSteps.
  pose proof (fragmentValue_range masterNumbers reduceWords i) as Hfrag.
  unfold GoInt.max_int in *.
  rewrite GoIntFacts.add_exact
    by (unfold GoInt.in_range, GoInt.min_int, GoInt.max_int; lia).
  set (steps := reduceNumbers _ masterNumbers []).
  assert (Forall (fun v => 0 <= v <= GoInt.max_int) steps) as Hsteps.
  { eapply Forall_impl; [apply reduceNumbers_le; unfold GoInt.max_int; lia|].
    intros v Hv. simpl in Hv. unfold GoInt.max_int. lia. }
  assert (forall w, In w steps ->
            (In w (GoInt.neg <$> List.filter (fun n => n <? 0) targets) <->
             In w (excludedSet targets))) as Hagree.
  { intros w Hw. apply excluded_agree; [done|].
    rewrite List.Forall_forall in Hsteps. by apply Hsteps. }
  assert (forall j w, steps !! j = Some w -> In w steps) as Hin.
  { intros j w Hw. apply list_elem_of_In, list_elem_of_lookup. by exists j. }
  rewrite negb_true_iff, matchSteps_spec.
  assert ((0 <? length (acceptableSet targets))%nat = false <->
          acceptableSet targets = []) as ->.
  { destruct (acceptableSet targets); simpl; split; intros; done. }
  split.
  - intros [(k & v & Hk & Hv & Hall)|[Hempty Hall]].
    + left. exists k, v. split; [done|]. split; [done|].
      intros j w Hj Hw. rewrite <- Hagree by eauto. by eapply Hall.
    + right. split; [done|]. intros w Hw. rewrite <- Hagree by done. by apply Hall.
  - intros [(k & v & Hk & Hv & Hall)|[Hempty Hall]].
    + left. exists k, v. split; [done|]. split; [done|].
      intros j w Hj Hw. rewrite Hagree by eauto. by eapply Hall.
    + right. split; [done|]. intros w Hw. rewrite Hagree by done. by apply Hall.
Qed.

(** C2, as stated, fails in both directions, because the code compares every
    reduction step with the two sets and not only the reduced total.  With
    prefix 0, no master numbers and no word reduction, the candidate 10 has the
    steps 10, 1.  With the target 10 the candidate is produced, although its
    reduced total 1 is not acceptable; with the target -10 the candidate is
    not produced, although its reduced total 1 is not excluded and no
    acceptable set is given. *)
Lemma generateLookupNums_reduced_total_counterexample :
  (exists nums,
     generateLookupNums (lookupFuel 0 10) 0 10 [10] [] false = Some nums /\
     In 10 nums /\
     ~ (1 <= 10 <= 10 - 0 /\ acceptsReducedTotal [10] (totalSteps 0 [] false 10))) /\
  (exists nums,
     generateLookupNums (lookupFuel 0 10) 0 10 [-10] [] false = Some nums /\
     ~ In 10 nums /\
     (1 <= 10 <= 10 - 0 /\ acceptsReducedTotal [-10] (totalSteps 0 [] false 10))).
Proof.
  split.
  - exists [10]. split; [vm_compute; reflexivity|]. split; [by left|].
    intros [_ (total & Hlast & _ & Hacc)].
    vm_compute in Hlast. injection Hlast as <-.
    destruct Hacc as [H|[]]; [discriminate|discriminate].
  - exists [1; 2; 3; 4; 5; 6; 7; 8; 9]. split; [vm_compute; reflexivity|]. split.
    { simpl. lia. }
    split; [lia|]. exists 1. split; [vm_compute; reflexivity|].
    split; [|intros H; by destruct H].
    simpl. lia.
Qed.

(** C2 (amended).  For a prefix [0 <= minSearchNumber] and an upper bound
    below the largest [int], with targets that are [int]s, the solver returns
    (given enough iterations) a list that holds [i] if and only if
    [1 <= i <= maxSearchNumber - minSearchNumber] and the reduction steps of
    [minSearchNumber + r] (with [r] the final reduced value of [i] under word
    reduction and [i] itself otherwise), scanned from first to last, are
    accepted: some step is in the acceptable set while neither it nor an
    earlier step is in the excluded set, or the acceptable set is empty and no
    step is in the excluded set. *)
Theorem generateLookupNums_first_hit fuel minSearchNumber maxSearchNumber targets
    masterNumbers reduceWords :
  0 <= minSearchNumber < GoInt.max_int ->
  maxSearchNumber < GoInt.max_int ->
  Forall GoInt.in_range targets ->
  (Z.to_nat (maxSearchNumber - minSearchNumber) < fuel)%nat ->
  exists nums,
    generateLookupNums fuel minSearchNumber maxSearchNumber targets masterNumbers
      reduceWords = Some nums /\
    forall i, In i nums <->
      1 <= i <= maxSearchNumber - minSearchNumber /\
      acceptsFirstHit targets (totalSteps minSearchNumber masterNumbers reduceWords i).
Proof.
  intros Hmin Hmax Htargets Hfuel.
  unfold generateLookupNums. rewrite splitTargets_spec. simpl app.
  rewrite lookupLoop_spec; [|done|done|lia|lia|].
  2:{ replace (maxSearchNumber - minSearchNumber + 1 - 1)
        with (maxSearchNumber - minSearchNumber) by lia. done. }
  eexists. split; [done|]. intros i. simpl app.
  rewrite List.filter_In, <- list_elem_of_In, elem_of_seqZ.
  split.
  - intros [Hi Hacc]. split; [lia|].
    eapply candidateAccepted_first_hit; [lia|done|done|lia|done].
  - intros [Hi Hacc]. split; [lia|].
    eapply candidateAccepted_first_hit; [lia|done|done|lia|done].
Qed.

Lemma generateLookupNums_first_hit_witness :
  (0 <= 20 < GoInt.max_int /\ 60 < GoInt.max_int /\
   Forall GoInt.in_range [6; -13] /\ (Z.to_nat (60 - 20) < lookupFuel 20 60)%nat) /\
  exists nums,
    generateLookupNums (lookupFuel 20 60) 20 60 [6; -13] standardMasters true
      = Some nums /\
    forall i, In i nums <->
      1 <= i <= 60 - 20 /\
      acceptsFirstHit [6; -13] (totalSteps 20 standardMasters true i).
Proof.
  assert (0 <= 20 < GoInt.max_int) as H1 by (unfold GoInt.max_int; lia).
  assert (60 < GoInt.max_int) as H2 by (unfold GoInt.max_int; lia).
  assert (Forall GoInt.in_range [6; -13]) as H3.
  { repeat constructor; unfold GoInt.min_int, GoInt.max_int; lia. }
  assert (Z.to_nat (60 - 20) < lookupFuel 20 60)%nat as H4.
  { unfold lookupFuel. lia. }
  split; [done|].
  exact (generateLookupNums_first_hit (lookupFuel 20 60) 20 60 [6; -13]
           standardMasters true H1 H2 H3 H4).
Defined.

(** ** Occurrence counts and karmic lessons *)

Example counts_alphabet :
  let '(counts, maxCount, _) :=
    countNumerologicalNumbers "abCdefghiJklmnOpqrstuvwxyz" Pythagorean in
  (countOf counts <$> [1; 2; 3; 4; 5; 6; 7; 8; 9], size counts, maxCount) =
  ([3; 3; 3; 3; 3; 3; 3; 3; 2], 9%nat, 3).
Proof. vm_compute. reflexivity. Qed.

Example karmic_query_example :
  (fun q => sqlOf <$> q_wheres q) <$>
    queryKarmicLessons
      {| q_table := "usa_census"; q_select := "min(id) as id, name";
         q_group := "name"; q_limit := 26; q_offset := None; q_order := [];
         q_wheres := [] |}
      "John ? Doe" [2; -5] Pythagorean
  = Some [("p2 <= ?"%string, [ArgInt 0]); ("p5 + ? > 0"%string, [ArgInt 2])].
Proof. vm_compute. reflexivity. Qed.

Lemma initCounts_zero validNumbers k v :
  initCounts validNumbers !! k = Some v -> v = 0.
Proof.
  unfold initCounts.
  assert (forall init : gmap Z Z,
            (forall k v, init !! k = Some v -> v = 0) ->
            forall k v, foldl (fun counts i => <[GoInt.int32 i := 0]> counts)
                          init validNumbers !! k = Some v -> v = 0) as H.
  { induction validNumbers as [|i rest IH]; intros init Hinit k' v'; simpl; [apply Hinit|].
    apply IH. intros k'' v''. rewrite lookup_insert.
    case_decide; [congruence|apply Hinit]. }
  apply H. intros k' v'. by rewrite lookup_empty.
Qed.

(** Each count lies between zero and the number of runes counted so far. *)
Lemma countRune_bound numberSystem rs : forall st n,
  (forall k v, st.1.1 !! k = Some v -> 0 <= v <= n) ->
  n + Z.of_nat (length rs) <= GoInt.max_int ->
  forall k v, (foldl (countRune numberSystem) st rs).1.1 !! k = Some v ->
              0 <= v <= n + Z.of_nat (length rs).
Proof.
  induction rs as [|r rs IH]; intros [[counts maxCount] unknown] n Hst Hmax k v; simpl.
  { intros Hk. specialize (Hst k v Hk). lia. }
  simpl in Hst. intros Hk.
  assert (0 <= v <= (n + 1) + Z.of_nat (length rs)); [|lia].
  eapply (IH _ (n + 1)); [|simpl in Hmax; lia|exact Hk].
  intros k' v'. unfold countRune.
  destruct (counts !! _) as [c|] eqn:Hc; simpl.
  - rewrite lookup_insert. case_decide as Heq.
    + intros [= <-]. specialize (Hst _ _ Hc).
      rewrite GoIntFacts.add_exact; [lia|].
      unfold GoInt.in_range, GoInt.min_int, GoInt.max_int in *. simpl in Hmax. lia.
    + intros Hk'. specialize (Hst _ _ Hk'). lia.
  - intros Hk'. specialize (Hst _ _ Hk'). lia.
Qed.

Lemma knownCount_bound name numberSystem d :
  Z.of_nat (length (runesOf name)) <= GoInt.max_int ->
  0 <= knownCount name numberSystem d <= Z.of_nat (length (runesOf name)).
Proof.
  intros Hlen. unfold knownCount, countOf, countNumerologicalNumbers.
  destruct (_ !! d) as [v|] eqn:Hv; simpl; [|lia].
  pose proof (countRune_bound numberSystem (runesOf name)
                (initCounts (ValidNumbers numberSystem), 0, ∅) 0) as H.
  simpl in H. eapply H; [|lia|exact Hv].
  intros k' v' Hk'. apply initCounts_zero in Hk'. lia.
Qed.

Lemma foldl_Where_wheres (f : Z -> whereClause) n : forall q,
  q_wheres (foldl (fun q i => Where q (f i)) q n) = q_wheres q ++ (f <$> n) /\
  q_limit (foldl (fun q i => Where q (f i)) q n) = q_limit q /\
  q_offset (foldl (fun q i => Where q (f i)) q n) = q_offset q /\
  q_order (foldl (fun q i => Where q (f i)) q n) = q_order q /\
  q_table (foldl (fun q i => Where q (f i)) q n) = q_table q.
Proof.
  induction n as [|i n IH]; intros q; simpl.
  - by rewrite app_nil_r.
  - destruct (IH (Where q (f i))) as (-> & -> & -> & -> & ->). simpl.
    by rewrite <- app_assoc.
Qed.

(** C8.  With [known d] the count of the digit [d] in the known part of the
    name (a name shorter than the largest [int]) and [p] the column prefix of
    the number system:
    - an empty constraint list leaves the query as it is;
    - a non-empty list adds one condition for each entry, in order, and
      nothing else;
    - for a digit [d], the entry [d] adds the condition [pd <= ?] with the
      argument [- known d], which a row with a non-negative count satisfies
      exactly when its count plus [known d] is zero;
    - the entry [- d] adds the condition [pd + ? > 0] with the argument
      [known d]: the count of the row plus [known d] is above zero. *)
Theorem queryKarmicLessons_predicates (q : query) (name : string)
    (numberSystem : NumberSystem) (prefix : string) :
  columnPrefix numberSystem = Some prefix ->
  Z.of_nat (length (runesOf name)) <= GoInt.max_int ->
  let known := knownCount name numberSystem in
  let clause := karmicLessonClause prefix (countNumerologicalNumbers name numberSystem).1.1 in
  queryKarmicLessons q name [] numberSystem = Some q /\
  (forall n, n <> [] ->
     exists q', queryKarmicLessons q name n numberSystem = Some q' /\
       q_wheres q' = q_wheres q ++ (clause <$> n) /\
       q_limit q' = q_limit q /\ q_offset q' = q_offset q /\
       q_order q' = q_order q /\ q_table q' = q_table q) /\
  (forall d, 0 < d < 2 ^ 31 ->
     0 <= known d /\
     clause d = WLe (countColumn prefix d) (- known d) /\
     sqlOf (clause d) = (countColumn prefix d +:+ " <= ?", [ArgInt (- known d)]) /\
     clause (- d) = WPlusGtZero (countColumn prefix d) (known d) /\
     sqlOf (clause (- d)) = (countColumn prefix d +:+ " + ? > 0", [ArgInt (known d)]) /\
     forall row : tableRow,
       holds row (clause d) = Some (row_column row (countColumn prefix d) <= - known d) /\
       (0 <= row_column row (countColumn prefix d) ->
        (row_column row (countColumn prefix d) <= - known d <->
         row_column row (countColumn prefix d) + known d = 0)) /\
       holds row (clause (- d)) =
         Some (row_column row (countColumn prefix d) + known d > 0)).
Proof.
  intros Hprefix Hlen known clause.
  split; [done|].
  split.
  { intros n Hn. unfold queryKarmicLessons.
    destruct n as [|i n]; [done|]. simpl length. simpl Nat.eqb. cbv iota.
    rewrite Hprefix. simpl.
    destruct (countNumerologicalNumbers name numberSystem) as [[counts mx] unk] eqn:Hc.
    eexists. split; [done|].
    pose proof (foldl_Where_wheres (karmicLessonClause prefix counts) (i :: n) q) as H.
    subst clause. simpl in *. exact H. }
  intros d Hd.
  pose proof (knownCount_bound name numberSystem d Hlen) as Hk.
  fold known in Hk.
  assert (clause d = WLe (countColumn prefix d) (- known d)) as Hpos.
  { subst clause known. unfold karmicLessonClause, knownCount.
    destruct (Z.ltb_spec d 0); [lia|].
    rewrite GoIntFacts.int32_id by lia.
    unfold GoInt.sub. rewrite GoIntFacts.wrap_id; [done|].
    unfold knownCount in Hk.
    unfold GoInt.in_range, GoInt.min_int, GoInt.max_int in *. lia. }
  assert (clause (- d) = WPlusGtZero (countColumn prefix d) (known d)) as Hneg.
  { subst clause known. unfold karmicLessonClause, knownCount.
    destruct (Z.ltb_spec (- d) 0); [|lia].
    assert (GoInt.neg (- d) = d) as ->.
    { unfold GoInt.neg. rewrite Z.opp_involutive. apply GoIntFacts.wrap_id.
      unfold GoInt.in_range, GoInt.min_int, GoInt.max_int. lia. }
    by rewrite GoIntFacts.int32_id by lia. }
  split; [lia|]. split; [done|]. split; [by rewrite Hpos|].
  split; [done|]. split; [by rewrite Hneg|].
  intros row. rewrite Hpos, Hneg. simpl. split; [done|]. split; [lia|done].
Qed.

Lemma queryKarmicLessons_predicates_witness :
  let q := {| q_table := "usa_census"; q_select := "min(id) as id, name";
              q_group := "name"; q_limit := 26; q_offset := None; q_order := [];
              q_wheres := [] |} in
  (columnPrefix Pythagorean = Some "p"%string /\
   Z.of_nat (length (runesOf "John ? Doe")) <= GoInt.max_int) /\
  (exists q', queryKarmicLessons q "John ? Doe" [2; -5] Pythagorean = Some q' /\
     q_wheres q' = [WLe "p2" 0; WPlusGtZero "p5" 2]) /\
  (0 < 5 < 2 ^ 31 /\
   sqlOf (karmicLessonClause "p"
            (countNumerologicalNumbers "John ? Doe" Pythagorean).1.1 (- 5))
   = ("p5 + ? > 0"%string, [ArgInt 2])).
Proof.
  intros q.
  assert (columnPrefix Pythagorean = Some "p"%string) as H1 by reflexivity.
  assert (Z.of_nat (length (runesOf "John ? Doe")) <= GoInt.max_int) as H2.
  { vm_compute. discriminate. }
  destruct (queryKarmicLessons_predicates q "John ? Doe" Pythagorean "p" H1 H2)
    as (_ & Hlist & Hdigit).
  split; [done|]. split.
  - destruct (Hlist [2; -5]) as (q' & Hq' & Hw & _); [done|].
    exists q'. split; [exact Hq'|]. rewrite Hw. vm_compute. reflexivity.
  - split; [lia|].
    destruct (Hdigit 5) as (_ & _ & _ & _ & Hsql & _); [lia|].
    etrans; [exact Hsql|]. vm_compute. reflexivity.
Defined.

(** ** The search *)

Example hidden_passions_query :
  (fun q => sqlOf <$> q_wheres q) <$>
    queryHiddenPassions
      {| q_table := "usa_census"; q_select := "min(id) as id, name";
         q_group := "name"; q_limit := 26; q_offset := None; q_order := [];
         q_wheres := [] |}
      "Abe ?" (merge_sort descending [-2; -1]) Chaldean
  = Some
      [("c3 > c1 - ? OR c4 > c1 - ? OR c5 > c1 OR c6 > c1 - ? OR c7 > c1 - ? OR c8 > c1 - ?"%string,
        [ArgInt (-1); ArgInt (-1); ArgInt (-1); ArgInt (-1); ArgInt (-1)]);
       ("c3 > c2 - ? OR c4 > c2 - ? OR c5 > c2 OR c6 > c2 - ? OR c7 > c2 - ? OR c8 > c2 - ?"%string,
        [ArgInt (-1); ArgInt (-1); ArgInt (-1); ArgInt (-1); ArgInt (-1)])].
Proof. vm_compute. reflexivity. Qed.

(** *** The limit of the query is set once *)

Lemma foldl_Where_frame {A} (f : A -> whereClause) l : forall q,
  q_limit (foldl (fun q x => Where q (f x)) q l) = q_limit q.
Proof. induction l as [|x l IH]; intros q; simpl; [done|]. by rewrite IH. Qed.

Lemma addQuerySort_limit multiplier q sort offset seed :
  q_limit (addQuerySort multiplier q sort offset seed) = q_limit q.
Proof.
  unfold addQuerySort.
  destruct (String.eqb _ UncommonSort); [done|].
  by destruct (String.eqb _ RandomSort).
Qed.

Lemma addQueryGender_limit q gender :
  q_limit (addQueryGender q gender) = q_limit q.
Proof. unfold addQueryGender. by destruct (_ || _). Qed.

Lemma foldl_anyOf_limit (f : Z -> list comparison) hps : forall q q',
  foldl (fun oq hp =>
           q ← oq;
           match f hp with
           | [] => None
           | alternatives => Some (Where q (WAnyOf alternatives))
           end) (Some q) hps = Some q' ->
  q_limit q' = q_limit q.
Proof.
  induction hps as [|hp hps IH]; intros q q'; simpl; [by intros [= <-]|].
  destruct (f hp) as [|alt alts].
  - intros H. exfalso. revert H. clear.
    induction hps as [|hp' hps IH]; simpl; [done|exact IH].
  - intros H. apply IH in H. exact H.
Qed.

Lemma queryHiddenPassions_limit q name sorted numberSystem q' :
  queryHiddenPassions q name sorted numberSystem = Some q' ->
  q_limit q' = q_limit q.
Proof.
  unfold queryHiddenPassions.
  destruct (length sorted =? 0)%nat; [by intros [= <-]|].
  destruct (columnPrefix numberSystem) as [prefix|]; [|done]. simpl.
  destruct (countNumerologicalNumbers name numberSystem) as [[counts mx] unk].
  destruct (sorted !! 0%nat) as [prime|]; [|done]. simpl.
  destruct (prime <? 0).
  - apply (foldl_anyOf_limit
             (hiddenPassionAlternatives prefix counts sorted (ValidNumbers numberSystem))).
  - intros [= <-]. apply foldl_Where_frame.
Qed.

Lemma queryKarmicLessons_limit q name n numberSystem q' :
  queryKarmicLessons q name n numberSystem = Some q' ->
  q_limit q' = q_limit q.
Proof.
  unfold queryKarmicLessons.
  destruct (length n =? 0)%nat; [by intros [= <-]|].
  destruct (columnPrefix numberSystem) as [prefix|]; [|done]. simpl.
  destruct (countNumerologicalNumbers name numberSystem) as [[counts mx] unk].
  intros [= <-]. apply foldl_Where_frame.
Qed.

Lemma addQueryLookup_limit q ql q' :
  addQueryLookup q ql = Some q' -> q_limit q' = q_limit q.
Proof.
  unfold addQueryLookup.
  destruct (length (TargetNumbers ql) =? 0)%nat; [by intros [= <-]|].
  destruct (generateLookupNums _ _ _ _ _ _) as [nums|]; [|done]. simpl.
  destruct (0 <? length nums)%nat; by intros [= <-].
Qed.

Lemma buildSearchQuery_spec {E} (h : handle E) table n numberSystem masterNumbers
    reduceWords opts count (w : world E) q reconstructedName w' :
  buildSearchQuery h table n numberSystem masterNumbers reduceWords opts count w
    = (Some (q, reconstructedName), w') ->
  q_limit q = GoInt.add count 1 /\
  DB w' = DB w /\
  exists events, trace w' = trace w ++ events.
Proof.
  unfold buildSearchQuery.
  destruct (markPlaceholders _) as [nameToSearch splitNames].
  set (q0 := addQueryGender _ _).
  assert (q_limit q0 = GoInt.add count 1) as Hq0.
  { unfold q0. rewrite addQueryGender_limit, addQuerySort_limit.
    by destruct (1 <? length nameToSearch)%nat. }
  destruct (queryHiddenPassions q0 _ _ _) as [q1|] eqn:H1; [|done].
  apply queryHiddenPassions_limit in H1.
  destruct (queryKarmicLessons q1 _ _ _) as [q2|] eqn:H2; [|done].
  apply queryKarmicLessons_limit in H2.
  set (cached := match largestNameValueInTable w !! table with
                 | Some v => _ | None => _ end).
  destruct cached as [largest w1] eqn:Hcached.
  assert (DB w1 = DB w /\ exists events, trace w1 = trace w ++ events) as [HDB Htrace].
  { subst cached. destruct (largestNameValueInTable w !! table).
    - injection Hcached as _ <-. split; [done|]. exists []. by rewrite app_nil_r.
    - injection Hcached as _ <-. simpl. split; [done|]. by eexists. }
  intros H. injection H as Hq <-.
  split; [|done].
  apply fmap_Some in Hq as (q5 & Hq5 & [= -> _]).
  apply bind_Some in Hq5 as (q4 & Hq4 & Hq5).
  apply bind_Some in Hq5 as (k3 & _ & Hq5). apply addQueryLookup_limit in Hq5.
  apply bind_Some in Hq4 as (q3 & Hq3 & Hq4).
  apply bind_Some in Hq4 as (k2 & _ & Hq4). apply addQueryLookup_limit in Hq4.
  apply bind_Some in Hq3 as (k1 & _ & Hq3). apply addQueryLookup_limit in Hq3.
  congruence.
Qed.

Lemma buildSearchQuery_panic_trace {E} (h : handle E) table n numberSystem
    masterNumbers reduceWords opts count (w : world E) w' :
  buildSearchQuery h table n numberSystem masterNumbers reduceWords opts count w
    = (None, w') ->
  exists events, trace w' = trace w ++ events.
Proof.
  unfold buildSearchQuery.
  destruct (markPlaceholders _) as [nameToSearch splitNames].
  destruct (queryHiddenPassions _ _ _ _) as [q1|].
  2:{ intros [= <-]. exists []. by rewrite app_nil_r. }
  destruct (queryKarmicLessons q1 _ _ _) as [q2|].
  2:{ intros [= <-]. exists []. by rewrite app_nil_r. }
  destruct (largestNameValueInTable w !! table).
  - intros [= _ <-]. exists []. by rewrite app_nil_r.
  - intros [= _ <-]. simpl. by eexists.
Qed.

(** *** The loop over the selected rows *)



(** *** A search that returns names *)


Example demo_search :
  (fun out => (length (sr_results out), sr_offset out, sr_err out))
    <$> (Search (nameOf "John ? Doe") demoOpts newWorld).1
  = Some (25%nat, 25, None).
Proof. vm_compute. reflexivity. Qed.

Example demo_search_first_name :
  (fun out => NameNumerology.Name <$> sr_results out !! 0%nat)
    <$> (Search (nameOf "John Da? Doe") demoOpts newWorld).1
  = Some (Some "John Name1 Doe"%string).
Proof. vm_compute. reflexivity. Qed.

Example demo_search_query :
  (fun e => match e with
            | EvFind _ q => Some (q_limit q, q_offset q, sqlOf <$> q_wheres q)
            | _ => None
            end) <$> last (trace (Search (nameOf "John Da? Doe") demoOpts newWorld).2)
  = Some (Some (26, Some 0,
                [("LOWER(name) LIKE ?"%string, [ArgString "da%"]);
                 ("gender = ?"%string, [ArgString "M"])])).
Proof. vm_compute. reflexivity. Qed.

(** C9.  With [k] the number of question marks in the name: when [k] is zero
    and when [k] is two or more, [Search] returns an error and leaves the world
    as it is (no connection is opened, the table is not read, no query is
    built); when [k] is one, [Search] is [nameSearch], which reads the table
    when a connection is open.  So the database is reached only when [k] is
    one. *)
Theorem Search_requires_one_placeholder {E} (n : NameNumerology.t)
    (opts : NameSearchOpts.t) (w : world E) :
  let k := numberOfQuestionMarks (runesOf (NameNumerology.Name n)) in
  (k = 0%nat ->
   Search n opts w = (Some (searchError "missing '?' in name"), w)) /\
  ((2 <= k)%nat ->
   Search n opts w =
     (Some (searchError "too many '?' (only able to search for one '?' at a time)"),
      w)) /\
  (k = 1%nat ->
   Search n opts w =
     nameSearch (NameNumerology.Name n) (NameNumerology.NumberSystem n)
       (NameNumerology.MasterNumbers n) (NameNumerology.ReduceWords n) opts w) /\
  ((Search n opts w).2 <> w -> k = 1%nat) /\
  (k = 1%nat -> forall h, DB w = Some h ->
   exists events,
     trace (Search n opts w).2 =
       trace w ++ EvCount h (ToLower (NameSearchOpts.Dictionary opts)) :: events).
Proof.
  intros k. unfold Search. fold k.
  split; [by intros ->|].
  split; [intros Hk; by destruct k as [|[|k']]; try lia|].
  split; [by intros ->|].
  split.
  { destruct k as [|[|k']]; simpl; try done. }
  intros -> h HDB. unfold nameSearch. rewrite HDB. cbn beta iota. rewrite HDB.
  cbn [trace logEvent].
  set (table := ToLower (NameSearchOpts.Dictionary opts)).
  destruct (db_Count E h table =? 0).
  { simpl. by exists []. }
  destruct (buildSearchQuery _ _ _ _ _ _ _ _ _) as [[[q rn]|] w1] eqn:Hbuild.
  - apply buildSearchQuery_spec in Hbuild as (_ & _ & events1 & Htrace1).
    simpl in Htrace1.
    destruct (collectResults _ _ _ _ _) as [results offset]. simpl.
    rewrite Htrace1. exists (events1 ++ [EvFind h q]).
    by rewrite <- !app_assoc.
  - apply buildSearchQuery_panic_trace in Hbuild as (events1 & Htrace1).
    simpl in *. rewrite Htrace1. exists events1. by rewrite <- !app_assoc.
Qed.

Lemma Search_requires_one_placeholder_witness :
  (numberOfQuestionMarks (runesOf "John Doe") = 0%nat /\
   Search (nameOf "John Doe") demoOpts newWorld =
     (Some (searchError "missing '?' in name"), newWorld)) /\
  ((2 <= numberOfQuestionMarks (runesOf "Jo?n ? Doe"))%nat /\
   Search (nameOf "Jo?n ? Doe") demoOpts newWorld =
     (Some (searchError "too many '?' (only able to search for one '?' at a time)"),
      newWorld)) /\
  (numberOfQuestionMarks (runesOf "John ? Doe") = 1%nat /\
   Search (nameOf "John ? Doe") demoOpts newWorld =
     nameSearch "John ? Doe" Pythagorean standardMasters true demoOpts newWorld) /\
  ((Search (nameOf "John ? Doe") demoOpts newWorld).2 <> newWorld /\
   numberOfQuestionMarks (runesOf "John ? Doe") = 1%nat) /\
  (DB (setDB newWorld (Some tt)) = Some tt /\
   exists events,
     trace (Search (nameOf "John ? Doe") demoOpts (setDB newWorld (Some tt))).2 =
       trace (setDB newWorld (Some tt)) ++ EvCount (tt : handle demoDB) "usa_census" :: events).
Proof.
  split.
  { split; [reflexivity|].
    apply (Search_requires_one_placeholder (nameOf "John Doe") demoOpts newWorld).
    reflexivity. }
  split.
  { split; [vm_compute; lia|].
    destruct (Search_requires_one_placeholder (nameOf "Jo?n ? Doe") demoOpts newWorld)
      as (_ & H & _).
    apply H. vm_compute. lia. }
  destruct (Search_requires_one_placeholder (nameOf "John ? Doe") demoOpts newWorld)
    as (_ & _ & H3 & H4 & _).
  split.
  { split; [reflexivity|]. apply H3. reflexivity. }
  split.
  { assert ((Search (nameOf "John ? Doe") demoOpts newWorld).2 <> newWorld) as Hne.
    { intros Heq. apply (f_equal (fun w => length (trace w))) in Heq.
      vm_compute in Heq. discriminate. }
    split; [exact Hne|]. apply H4. exact Hne. }
  split; [reflexivity|].
  destruct (Search_requires_one_placeholder (nameOf "John ? Doe") demoOpts
              (setDB newWorld (Some tt))) as (_ & _ & _ & _ & H5).
  apply (H5 eq_refl tt). reflexivity.
Defined.

(** *** The default count *)






(** * Further properties *)

(** ** Digits *)

Lemma digitsValue_snoc ds d : digitsValue (ds ++ [d]) = digitsValue ds * 10 + d.
Proof. unfold digitsValue. by rewrite fold_left_app. Qed.

Lemma plainSum_snoc ds d : plainSum (ds ++ [d]) = plainSum ds + d.
Proof.
  unfold plainSum. induction ds as [|x ds IH]; simpl; [lia|]. rewrite IH. lia.
Qed.

(** The digits that [formatDigits] puts before its accumulator. *)
Lemma formatDigits_decimal fuel : forall i acc,
  0 <= i < 10 ^ Z.of_nat fuel ->
  (0 < fuel)%nat ->
  exists ds,
    formatDigits fuel i acc = ds ++ acc /\
    digitsValue ds = i /\
    Forall is_digit ds /\
    (1 <= length ds <= fuel)%nat /\
    (i <> 0 -> exists d ds', ds = d :: ds' /\ d <> 0) /\
    (1 <= i -> 1 <= plainSum ds) /\
    plainSum ds <= i /\
    (10 <= i -> plainSum ds < i) /\
    plainSum ds mod 9 = i mod 9.
Proof.
  induction fuel as [|fuel IH]; intros i acc Hi Hfuel; [lia|].
  simpl formatDigits.
  pose proof (Z.mod_pos_bound i 10 ltac:(lia)) as Hmod.
  pose proof (Z.div_mod i 10 ltac:(lia)) as Hdiv.
  assert (0 <= i / 10) as Hq by (apply Z.div_pos; lia).
  destruct (Z.eqb_spec (i / 10) 0) as [Hzero|Hnz].
  - exists [i mod 10]. assert (i mod 10 = i) as -> by lia.
    split; [done|]. split; [unfold digitsValue; simpl; lia|].
    split; [repeat constructor; unfold is_digit; lia|].
    split; [simpl; lia|].
    split; [intros Hne; by exists i, []|].
    unfold plainSum. simpl. rewrite Z.add_0_r.
    repeat split; lia.
  - assert (i / 10 < 10 ^ Z.of_nat fuel) as Hlt.
    { apply Z.div_lt_upper_bound; [lia|].
      rewrite Nat2Z.inj_succ, Z.pow_succ_r in Hi by lia. lia. }
    assert (0 < fuel)%nat as Hfuel'.
    { destruct fuel; [simpl in Hlt; lia|lia]. }
    destruct (IH (i / 10) (i mod 10 :: acc) ltac:(lia) Hfuel')
      as (ds & Heq & Hval & Hdig & Hlen & Hhead & Hpos & Hle & _ & Hmod9).
    exists (ds ++ [i mod 10]).
    split; [by rewrite Heq, <- app_assoc|].
    split; [rewrite digitsValue_snoc; lia|].
    split.
    { apply Forall_app. split; [done|]. repeat constructor; unfold is_digit; lia. }
    split; [rewrite length_app; simpl; lia|].
    split.
    { intros _. destruct (Hhead Hnz) as (d & ds' & -> & Hd). by exists d, (ds' ++ [i mod 10]). }
    rewrite plainSum_snoc. specialize (Hpos ltac:(lia)).
    split; [lia|]. split; [lia|]. split; [lia|].
    rewrite Hdiv at 2.
    rewrite Z.add_mod, Hmod9 by lia.
    rewrite (Z.add_mod (10 * (i / 10))), (Z.mul_mod 10) by lia.
    change (10 mod 9) with 1. rewrite Z.mul_1_l, Z.mod_mod by lia.
    rewrite <- Z.add_mod by lia. done.
Qed.

(** X1.  [splitNumber] writes an [uint64] in decimal: between one and twenty
    digits, each from 0 to 9, most significant first, without a leading zero
    (zero is written as the digit 0), and reading the digits back gives the
    number. *)
Theorem splitNumber_round_trip (i : Z) :
  0 <= i < 2 ^ 64 ->
  digitsValue (splitNumber i) = i /\
  Forall is_digit (splitNumber i) /\
  (1 <= length (splitNumber i) <= 20)%nat /\
  (i = 0 -> splitNumber i = [0]) /\
  (i <> 0 -> exists d ds, splitNumber i = d :: ds /\ d <> 0).
Proof.
  intros Hi. unfold splitNumber.
  destruct (formatDigits_decimal 20 i []) as (ds & Heq & Hval & Hdig & Hlen & Hhead & _);
    [simpl; lia|lia|].
  rewrite Heq, app_nil_r.
  split; [done|]. split; [done|]. split; [done|]. split; [|done].
  intros ->. rewrite app_nil_r in Heq. rewrite <- Heq. reflexivity.
Qed.

Lemma splitNumber_round_trip_witness :
  0 <= 473809 < 2 ^ 64 /\
  digitsValue (splitNumber 473809) = 473809 /\
  Forall is_digit (splitNumber 473809) /\
  (1 <= length (splitNumber 473809) <= 20)%nat /\
  (473809 = 0 -> splitNumber 473809 = [0]) /\
  (473809 <> 0 -> exists d ds, splitNumber 473809 = d :: ds /\ d <> 0).
Proof.
  split; [lia|]. apply (splitNumber_round_trip 473809). lia.
Defined.

Lemma digitSum_decimal n :
  0 <= n <= GoInt.max_int ->
  digitSum n mod 9 = n mod 9 /\
  (1 <= n -> 1 <= digitSum n) /\
  digitSum n <= n /\
  (10 <= n -> digitSum n < n).
Proof.
  intros Hn. unfold GoInt.max_int in Hn.
  unfold digitSum, sumValues. rewrite GoIntFacts.uint64_id by lia.
  pose proof (splitNumber_digits n) as Hd.
  pose proof (splitNumber_length n) as Hl.
  rewrite sumValues_plain_aux; [|done|lia|unfold GoInt.max_int; lia].
  rewrite Z.add_0_l. unfold splitNumber.
  destruct (formatDigits_decimal 20 n []) as (ds & Heq & _ & _ & _ & _ & Hpos & Hle & Hlt & Hmod);
    [simpl; lia|lia|].
  rewrite Heq, app_nil_r. done.
Qed.

(** ** The reducer: more properties *)

Lemma shortReduction_small :
  forallb shortReduction (map Z.of_nat (seq 0 181)) = true.
Proof. vm_compute. reflexivity. Qed.

Lemma reduceNumbers_masters_shorter masterNumbers n :
  (length (reduceNumbers n masterNumbers []) <= length (reduceNumbers n [] []))%nat.
Proof.
  induction n as [n Hn|n Hn Hm|n Hn Hm IH] using (reduceNumbers_ind masterNumbers).
  - by rewrite !reduceNumbers_small.
  - rewrite reduceNumbers_master by done.
    destruct (reduceNumbers_head n []) as [rest ->]. simpl. lia.
  - rewrite (reduceNumbers_step n masterNumbers), (reduceNumbers_step n []) by done.
    simpl. lia.
Qed.

(** X2.  Whatever the number and the master numbers, a reduction has at most
    four steps: the number, and at most three digit sums. *)
Theorem reduceNumbers_at_most_four_steps (n : Z) (masterNumbers : list Z) :
  (1 <= length (reduceNumbers n masterNumbers []) <= 4)%nat.
Proof.
  split.
  { destruct (reduceNumbers_head n masterNumbers) as [rest ->]. simpl. lia. }
  etrans; [apply reduceNumbers_masters_shorter|].
  destruct (Z_lt_le_dec n 10) as [Hlt|Hge].
  { rewrite reduceNumbers_small by done. simpl. lia. }
  rewrite reduceNumbers_step by done. simpl.
  pose proof (digitSum_bound n) as Hb.
  pose proof shortReduction_small as H. rewrite forallb_forall in H.
  specialize (H (digitSum n)). unfold shortReduction in H.
  assert ((length (reduceNumbers (digitSum n) [] []) <=? 3)%nat = true) as Hlen.
  { apply H, in_map_iff. exists (Z.to_nat (digitSum n)).
    split; [lia|]. apply in_seq. lia. }
  apply Nat.leb_le in Hlen. lia.
Qed.

(** The steps of a reduction stay between zero and the number and keep its
    residue modulo nine. *)
Lemma reduceNumbers_steps_range (n : Z) (masterNumbers : list Z) :
  0 <= n <= GoInt.max_int ->
  Forall (fun v => 0 <= v <= n /\ v mod 9 = n mod 9 /\ (1 <= n -> 1 <= v))
         (reduceNumbers n masterNumbers []).
Proof.
  induction n as [n Hn|n Hn Hm|n Hn Hm IH] using (reduceNumbers_ind masterNumbers);
    intros Hr.
  - rewrite reduceNumbers_small by done. repeat constructor; lia.
  - rewrite reduceNumbers_master by done. repeat constructor; lia.
  - rewrite reduceNumbers_step by done.
    destruct (digitSum_decimal n Hr) as (Hmod & Hpos & Hle & Hlt).
    pose proof (digitSum_bound n) as Hb.
    constructor; [lia|]. eapply Forall_impl; [apply IH; lia|].
    intros v (Hv1 & Hv2 & Hv3). simpl in *. split; [lia|].
    split; [congruence|]. intros H1. apply Hv3. apply Hpos. lia.
Qed.

(** X3.  The steps of the reduction of a non-negative [int] strictly decrease,
    stay between zero and the number, are all congruent to the number modulo
    nine, and are positive when the number is. *)
Theorem reduceNumbers_steps_decrease (n : Z) (masterNumbers : list Z) :
  0 <= n <= GoInt.max_int ->
  decreasing (reduceNumbers n masterNumbers []) /\
  Forall (fun v => 0 <= v <= n /\ v mod 9 = n mod 9 /\ (1 <= n -> 1 <= v))
         (reduceNumbers n masterNumbers []).
Proof.
  intros Hr. split; [|by apply reduceNumbers_steps_range].
  revert Hr.
  induction n as [n Hn|n Hn Hm|n Hn Hm IH] using (reduceNumbers_ind masterNumbers);
    intros Hr.
  - rewrite reduceNumbers_small by done.
    intros [|i] [|j] a b Hij Ha Hb; try lia; done.
  - rewrite reduceNumbers_master by done.
    intros [|i] [|j] a b Hij Ha Hb; try lia; done.
  - rewrite reduceNumbers_step by done.
    destruct (digitSum_decimal n Hr) as (Hmod & Hpos & Hle & Hlt).
    pose proof (digitSum_bound n) as Hb.
    assert (0 <= digitSum n <= GoInt.max_int) as Hr' by lia.
    pose proof (reduceNumbers_steps_range (digitSum n) masterNumbers Hr') as Hall.
    specialize (IH Hr').
    intros [|i] [|j] a b Hij Ha Hb'; try lia.
    + injection Ha as <-. simpl in Hb'.
      rewrite List.Forall_forall in Hall.
      assert (In b (reduceNumbers (digitSum n) masterNumbers [])) as Hin.
      { apply list_elem_of_In, list_elem_of_lookup. by exists j. }
      specialize (Hall b Hin). simpl in Hall. lia.
    + simpl in Ha, Hb'. apply (IH i j a b); [lia|done|done].
Qed.

Lemma reduceNumbers_steps_decrease_witness :
  0 <= 1993 <= GoInt.max_int /\
  decreasing (reduceNumbers 1993 standardMasters []) /\
  Forall (fun v => 0 <= v <= 1993 /\ v mod 9 = 1993 mod 9 /\ (1 <= 1993 -> 1 <= v))
         (reduceNumbers 1993 standardMasters []).
Proof.
  assert (0 <= 1993 <= GoInt.max_int) as H by (unfold GoInt.max_int; lia).
  split; [exact H|]. exact (reduceNumbers_steps_decrease 1993 standardMasters H).
Defined.

(** X4.  Without master numbers the reduction of a non-negative [int] ends in
    its digital root: 0 for 0, and [1 + (n - 1) mod 9] otherwise. *)
Theorem reduceNumbers_digital_root (n : Z) :
  0 <= n <= GoInt.max_int ->
  last (reduceNumbers n [] []) = Some (digitalRoot n).
Proof.
  intros Hn.
  destruct (reduceNumbers_last [] n) as (v & Hlast & Hv).
  rewrite Hlast. f_equal.
  destruct Hv as [Hv|[]].
  pose proof (reduceNumbers_steps_range n [] Hn) as Hall.
  apply last_Some in Hlast as [l' Hl']. rewrite Hl' in Hall.
  apply Forall_app in Hall as [_ Hall].
  inversion Hall as [|? ? (Hrange & Hmod & Hpos) _]; subst.
  unfold digitalRoot. destruct (Z.eqb_spec n 0) as [->|Hne]; [lia|].
  specialize (Hpos ltac:(lia)).
  assert ((v - 1) mod 9 = (n - 1) mod 9) as Hcong.
  { rewrite (Zminus_mod v), (Zminus_mod n), Hmod. done. }
  rewrite <- Hcong. rewrite Z.mod_small by lia. lia.
Qed.

Lemma reduceNumbers_digital_root_witness :
  0 <= 1973 <= GoInt.max_int /\
  last (reduceNumbers 1973 [] []) = Some (digitalRoot 1973).
Proof.
  assert (0 <= 1973 <= GoInt.max_int) as H by (unfold GoInt.max_int; lia).
  split; [exact H|]. exact (reduceNumbers_digital_root 1973 H).
Defined.

(** ** Digital roots *)

Lemma sameRoot_digitalRoot a b : sameRoot a b -> digitalRoot a = digitalRoot b.
Proof.
  intros (Ha & Hb & Hmod & Hzero). unfold digitalRoot.
  destruct (Z.eqb_spec a 0) as [Ha0|Ha0], (Z.eqb_spec b 0) as [Hb0|Hb0];
    try done; try tauto.
  by rewrite (Zminus_mod a), (Zminus_mod b), Hmod.
Qed.

Lemma sameRoot_add a b c d : sameRoot a b -> sameRoot c d -> sameRoot (a + c) (b + d).
Proof.
  intros (Ha & Hb & Hab & Hz1) (Hc & Hd & Hcd & Hz2).
  split; [lia|]. split; [lia|]. split; [|lia].
  by rewrite (Z.add_mod a), (Z.add_mod b), Hab, Hcd by lia.
Qed.

Lemma sameRoot_refl a : 0 <= a -> sameRoot a a.
Proof. intros Ha. by repeat split. Qed.

(** The final value of a reduction has the digital root of the number. *)
Lemma reduceNumbers_last_sameRoot n masterNumbers v :
  0 <= n <= GoInt.max_int ->
  last (reduceNumbers n masterNumbers []) = Some v ->
  sameRoot v n /\ v <= n.
Proof.
  intros Hn Hlast.
  pose proof (reduceNumbers_steps_range n masterNumbers Hn) as Hall.
  apply last_Some in Hlast as [l' Hl']. rewrite Hl' in Hall.
  apply Forall_app in Hall as [_ Hall].
  inversion Hall as [|? ? (Hrange & Hmod & Hpos) _]; subst.
  split; [|lia]. split; [lia|]. split; [lia|]. split; [done|]. lia.
Qed.

Lemma reduceNumbers_no_masters_last n :
  0 <= n <= GoInt.max_int ->
  last (reduceNumbers n [] []) = Some (digitalRoot n).
Proof.
  intros Hn.
  destruct (reduceNumbers_last [] n) as (v & Hlast & Hv).
  rewrite Hlast. f_equal. destruct Hv as [Hv|[]].
  apply reduceNumbers_last_sameRoot in Hlast as [(Hv0 & _ & Hmod & Hz) _]; [|done].
  unfold digitalRoot. destruct (Z.eqb_spec n 0) as [->|Hne]; [lia|].
  assert ((v - 1) mod 9 = (n - 1) mod 9) as Hcong.
  { rewrite (Zminus_mod v), (Zminus_mod n), Hmod. done. }
  rewrite <- Hcong. rewrite Z.mod_small by lia. lia.
Qed.

Lemma add_nonneg_exact a b :
  0 <= a -> 0 <= b -> a + b <= GoInt.max_int -> GoInt.add a b = a + b.
Proof.
  intros. apply GoIntFacts.add_exact.
  unfold GoInt.in_range, GoInt.min_int, GoInt.max_int in *. lia.
Qed.

(** ** Dates: events and life paths *)

(** X5.  For a date with positive year, month and day (whose sum is an [int]),
    the event number is the digital root of year + month + day, whatever the
    master numbers; the life path number has the same remainder modulo nine and
    is that digital root unless it is a master number. *)
Theorem event_is_digital_root (d : DateNumerology.t) :
  let date := DateNumerology.Date d in
  1 <= Year date -> 1 <= Month date -> 1 <= Day date ->
  Year date + Month date + Day date <= GoInt.max_int ->
  (exists r, DateNumerology.Event d = Some r /\
     NumerologicalResult.Value r = digitalRoot (Year date + Month date + Day date)) /\
  (exists r, DateNumerology.LifePath d = Some r /\
     NumerologicalResult.Value r mod 9 = (Year date + Month date + Day date) mod 9 /\
     (NumerologicalResult.Value r = digitalRoot (Year date + Month date + Day date) \/
      In (NumerologicalResult.Value r) (DateNumerology.MasterNumbers d))).
Proof.
  intros date Hy Hm Hd Hsum.
  unfold DateNumerology.Event, DateNumerology.LifePath, calculateDate, dateLoop.
  fold date. set (m := DateNumerology.MasterNumbers d).
  destruct (reduceNumbers_last m (Year date)) as (vy & Hvy & _).
  destruct (reduceNumbers_last m (Month date)) as (vm & Hvm & _).
  destruct (reduceNumbers_last m (Day date)) as (vd & Hvd & _).
  rewrite Hvy. simpl. rewrite Hvm. simpl. rewrite Hvd. simpl.
  apply reduceNumbers_last_sameRoot in Hvy as [Ry Ly]; [|lia].
  apply reduceNumbers_last_sameRoot in Hvm as [Rm Lm]; [|lia].
  apply reduceNumbers_last_sameRoot in Hvd as [Rd Ld]; [|lia].
  pose proof (sameRoot_add _ _ _ _ (sameRoot_add _ _ _ _ Ry Rm) Rd) as Rsum.
  assert (0 <= vy /\ 0 <= vm /\ 0 <= vd) as (Hy0 & Hm0 & Hd0).
  { destruct Ry as (? & _), Rm as (? & _), Rd as (? & _). done. }
  rewrite (add_nonneg_exact 0 vy), (add_nonneg_exact (0 + vy) vm),
    (add_nonneg_exact (0 + vy + vm) vd) by lia.
  rewrite Z.add_0_l.
  assert (0 <= vy + vm + vd <= GoInt.max_int) as Hrange.
  { destruct Rsum as (? & _). lia. }
  split.
  - rewrite (reduceNumbers_no_masters_last (vy + vm + vd) Hrange). simpl.
    eexists. split; [done|]. simpl. by apply sameRoot_digitalRoot.
  - destruct (reduceNumbers_last m (vy + vm + vd)) as (v & Hv & Hcase).
    rewrite Hv. simpl. eexists. split; [done|]. simpl.
    apply reduceNumbers_last_sameRoot in Hv as [Rv Lv]; [|done].
    destruct Rv as (Hv0 & _ & Hvmod & Hvz).
    destruct Rsum as (_ & _ & Hsmod & Hsz).
    split; [congruence|].
    destruct Hcase as [Hlt|Hin]; [left|by right].
    unfold digitalRoot.
    destruct (Z.eqb_spec (Year date + Month date + Day date) 0); [lia|].
    assert ((v - 1) mod 9 = (Year date + Month date + Day date - 1) mod 9) as Hc.
    { rewrite (Zminus_mod v), (Zminus_mod (_ + _ + _)). congruence. }
    rewrite <- Hc. rewrite Z.mod_small by lia. lia.
Qed.

Lemma event_is_digital_root_witness :
  (1 <= 1970 /\ 1 <= 1 /\ 1 <= 2 /\ 1970 + 1 + 2 <= GoInt.max_int) /\
  (exists r, DateNumerology.Event birthday = Some r /\
     NumerologicalResult.Value r = digitalRoot (1970 + 1 + 2)) /\
  (exists r, DateNumerology.LifePath birthday = Some r /\
     NumerologicalResult.Value r mod 9 = (1970 + 1 + 2) mod 9 /\
     (NumerologicalResult.Value r = digitalRoot (1970 + 1 + 2) \/
      In (NumerologicalResult.Value r) standardMasters)).
Proof.
  assert (1970 + 1 + 2 <= GoInt.max_int) as H by (unfold GoInt.max_int; lia).
  split; [repeat split; try lia; exact H|].
  apply (event_is_digital_root birthday); simpl; first [lia|exact H].
Defined.

Example lifePath_birthday :
  NumerologicalResult.Value <$> DateNumerology.LifePath birthday = Some 11.
Proof. vm_compute. reflexivity. Qed.

(** ** Letter values *)

Lemma wrap_add_l a b : GoInt.wrap (GoInt.wrap a + b) = GoInt.wrap (a + b).
Proof.
  unfold GoInt.wrap.
  replace ((a + 2 ^ 63) mod 2 ^ 64 - 2 ^ 63 + b + 2 ^ 63)
    with ((a + 2 ^ 63) mod 2 ^ 64 + b) by lia.
  rewrite Zplus_mod_idemp_l. f_equal. f_equal. lia.
Qed.

Lemma wrap_add_r a b : GoInt.wrap (a + GoInt.wrap b) = GoInt.wrap (a + b).
Proof. by rewrite (Z.add_comm a), wrap_add_l, Z.add_comm. Qed.

Lemma plainSum_app l1 l2 : plainSum (l1 ++ l2) = plainSum l1 + plainSum l2.
Proof. unfold plainSum. induction l1 as [|x l1 IH]; simpl; [lia|]. rewrite IH. lia. Qed.

(** The machine sum of a list is the wrapped exact sum. *)
Lemma sumValues_wrap vals : forall acc,
  fold_left GoInt.add vals (GoInt.wrap acc) = GoInt.wrap (acc + plainSum vals).
Proof.
  induction vals as [|v vals IH]; intros acc; simpl.
  - by rewrite Z.add_0_r.
  - unfold GoInt.add at 2. rewrite wrap_add_l, IH. f_equal. lia.
Qed.

Lemma sumValues_plain vals : sumValues vals = GoInt.wrap (plainSum vals).
Proof.
  unfold sumValues. change 0 with (GoInt.wrap 0) at 1. by rewrite sumValues_wrap.
Qed.

(** The loop of [numerologyCalculation]: one entry for each letter, and the
    total is the wrapped sum of the values of the entries. *)
Lemma scoreLetters_values numberSystem mask letters :
  forall i totalValue nameSteps totalValue' nameSteps',
  scoreLetters numberSystem mask i letters totalValue nameSteps
    = Some (totalValue', nameSteps') ->
  nameSteps' =
    nameSteps ++ imap (fun k r => countedLetter numberSystem mask (i + k) r) letters /\
  GoInt.wrap totalValue' =
    GoInt.wrap (totalValue +
                plainSum (imap (fun k r => countedValue numberSystem mask (i + k) r)
                            letters)).
Proof.
  induction letters as [|letter rest IH]; intros i t s t' s' H.
  - injection H as <- <-. simpl. rewrite app_nil_r. split; [done|].
    f_equal. unfold plainSum. simpl. lia.
  - simpl in H. rewrite !imap_cons.
    rewrite (imap_ext _ (fun k r => countedLetter numberSystem mask (S i + k) r)).
    2:{ intros k x _. simpl. f_equal. lia. }
    rewrite (imap_ext (_ ∘ S) (fun k r => countedValue numberSystem mask (S i + k) r)).
    2:{ intros k x _. simpl. f_equal. lia. }
    replace (i + 0)%nat with i by lia.
    change (plainSum (?x :: ?l)) with (x + plainSum l).
    unfold countedLetter at 1.
    destruct (NumberMapping numberSystem !! toLower letter) as [letterVal|] eqn:Hmap.
    + destruct (mask !! i) as [[]|] eqn:Hmask; simpl in H; [| |done].
      * assert (countedValue numberSystem mask i letter = letterVal) as ->.
        { unfold countedValue. by rewrite Hmap, Hmask. }
        apply IH in H as [-> Ht]. split; [by rewrite <- app_assoc|].
        rewrite Ht. unfold GoInt.add. rewrite wrap_add_l. f_equal. lia.
      * assert (countedValue numberSystem mask i letter = 0) as ->.
        { unfold countedValue. by rewrite Hmap, Hmask. }
        apply IH in H as [-> Ht]. split; [by rewrite <- app_assoc|].
        rewrite Ht. f_equal.
    + assert (countedValue numberSystem mask i letter = 0) as ->.
      { unfold countedValue. by rewrite Hmap. }
      apply IH in H as [-> Ht]. split; [by rewrite <- app_assoc|].
      rewrite Ht. f_equal.
Qed.

(** X6.  In a breakdown returned by [numerologyCalculation] on an ASCII
    segment there is one letter value for each rune of the trimmed segment, in order, carrying the
    rune and the value with which it counts (its value in the number system if
    the mask is set at its index, zero otherwise), and the first reduction step
    is the machine sum of these values. *)
Theorem numerologyCalculation_letter_values s masterNumbers numberSystem reduce mask b :
  asciiRunes s ->
  numerologyCalculation s masterNumbers numberSystem reduce mask = Some b ->
  Breakdown.LetterValues b = imap (countedLetter numberSystem mask) (TrimSpace s) /\
  length (Breakdown.LetterValues b) = length (TrimSpace s) /\
  Breakdown.ReduceSteps b !! 0%nat =
    Some (sumValues (lv_Value <$> Breakdown.LetterValues b)).
Proof.
  intros _ H.
  apply numerologyCalculation_inv in H as (t & steps & Hs & Ht & Hred & Hlv & _).
  apply scoreLetters_values in Hs as [Hsteps Htotal]. simpl in Hsteps, Htotal.
  rewrite Hlv, Hsteps.
  split; [done|]. split; [by rewrite length_imap|].
  assert (Breakdown.ReduceSteps b !! 0%nat = Some t) as ->.
  { rewrite Hred. destruct reduce; [|done].
    by destruct (reduceNumbers_head t masterNumbers) as [rest ->]. }
  f_equal. rewrite sumValues_plain.
  rewrite GoIntFacts.wrap_id in Htotal by done. rewrite Htotal.
  rewrite Z.add_0_l. f_equal. f_equal.
  apply list_eq. intros k. rewrite list_lookup_fmap, !list_lookup_imap.
  by destruct (TrimSpace s !! k).
Qed.

Lemma numerologyCalculation_letter_values_witness :
  asciiRunes (runesOf "Bacon") /\
  exists b,
    numerologyCalculation (runesOf "Bacon") standardMasters Pythagorean true
      (replicate 5 true) = Some b /\
    Breakdown.LetterValues b =
      imap (countedLetter Pythagorean (replicate 5 true)) (TrimSpace (runesOf "Bacon")) /\
    length (Breakdown.LetterValues b) = length (TrimSpace (runesOf "Bacon")) /\
    Breakdown.ReduceSteps b !! 0%nat =
      Some (sumValues (lv_Value <$> Breakdown.LetterValues b)).
Proof.
  split; [reflexivity|].
  eexists. split; [vm_compute; reflexivity|].
  apply (numerologyCalculation_letter_values (runesOf "Bacon") standardMasters
           Pythagorean true (replicate 5 true)).
  - reflexivity.
  - vm_compute. reflexivity.
Defined.

(** ** Full, vowel and consonant totals *)

Lemma sliceOf_fmap {A B} (f : A -> B) (l : list A) a b :
  sliceOf (f <$> l) a b = fmap (M := list) f <$> sliceOf l a b.
Proof.
  unfold sliceOf. rewrite length_fmap.
  case_decide; [|done]. simpl. by rewrite fmap_take, fmap_drop.
Qed.

Lemma plainSum_imap_add (f g h : nat -> rune -> Z) (l : list rune) :
  (forall k r, l !! k = Some r -> f k r = g k r + h k r) ->
  plainSum (imap f l) = plainSum (imap g l) + plainSum (imap h l).
Proof.
  revert f g h. induction l as [|x l IH]; intros f g h Hpt; [done|].
  rewrite !imap_cons. change (plainSum (?x :: ?l)) with (x + plainSum l).
  rewrite (IH (f ∘ S) (g ∘ S) (h ∘ S)).
  - rewrite (Hpt 0%nat x eq_refl). lia.
  - intros k r Hk. simpl. by apply Hpt.
Qed.

(** With the vowel mask [m], its negation and the mask that is set everywhere,
    the three totals of a segment add up. *)
Lemma numerologyCalculation_totals s masterNumbers numberSystem reduce
    (m : list bool) bf bv bc :
  (length s <= length m)%nat ->
  numerologyCalculation s masterNumbers numberSystem reduce ((fun _ => true) <$> m)
    = Some bf ->
  numerologyCalculation s masterNumbers numberSystem reduce m = Some bv ->
  numerologyCalculation s masterNumbers numberSystem reduce (negb <$> m) = Some bc ->
  splitsInto (unreduced bf) (unreduced bv) (unreduced bc).
Proof.
  intros Hlen Hf Hv Hc.
  assert (forall mask b,
            numerologyCalculation s masterNumbers numberSystem reduce mask = Some b ->
            exists t, unreduced b = Some t /\
              t = GoInt.wrap (plainSum (imap (countedValue numberSystem mask)
                                          (TrimSpace s)))) as Htotal.
  { intros mask b Hb.
    apply numerologyCalculation_inv in Hb as (t & steps & Hs & Ht & Hred & _).
    apply scoreLetters_values in Hs as [_ Hs]. simpl in Hs.
    rewrite GoIntFacts.wrap_id in Hs by done.
    exists t. split; [|done]. unfold unreduced. rewrite Hred.
    destruct reduce; [|done].
    by destruct (reduceNumbers_head t masterNumbers) as [rest ->]. }
  destruct (Htotal _ _ Hf) as (f & Hf' & ->).
  destruct (Htotal _ _ Hv) as (v & Hv' & ->).
  destruct (Htotal _ _ Hc) as (c & Hc' & ->).
  eexists _, _, _. split; [done|]. split; [done|]. split; [done|].
  unfold GoInt.add. rewrite wrap_add_l, wrap_add_r. f_equal.
  apply plainSum_imap_add. intros k r Hk.
  assert (k < length m)%nat as Hkm.
  { apply lookup_lt_Some in Hk. pose proof (TrimSpace_length s). lia. }
  destruct (lookup_lt_is_Some_2 m k Hkm) as [bit Hbit].
  unfold countedValue. rewrite !list_lookup_fmap, Hbit. simpl.
  destruct (NumberMapping numberSystem !! toLower r); [|done].
  destruct bit; simpl; lia.
Qed.

Lemma scoreSegment_totals masterNumbers reduceWords numberSystem (m : list bool)
    seg bf bv bc :
  scoreSegment masterNumbers reduceWords numberSystem ((fun _ => true) <$> m) seg
    = Some bf ->
  scoreSegment masterNumbers reduceWords numberSystem m seg = Some bv ->
  scoreSegment masterNumbers reduceWords numberSystem (negb <$> m) seg = Some bc ->
  splitsInto (unreduced bf) (unreduced bv) (unreduced bc).
Proof.
  intros (mf & Hmf & Hf)%scoreSegment_inv (mv & Hmv & Hv)%scoreSegment_inv
         (mc & Hmc & Hc)%scoreSegment_inv.
  rewrite sliceOf_fmap, Hmv in Hmf, Hmc. simpl in Hmf, Hmc.
  injection Hmf as <-. injection Hmc as <-.
  eapply numerologyCalculation_totals; [|exact Hf|exact Hv|exact Hc].
  unfold sliceOf in Hmv. case_decide as Hb; [|done]. injection Hmv as <-.
  rewrite length_take, length_drop. lia.
Qed.

Lemma Full_fmap m : Full m = (fun _ => true) <$> Vowels m.
Proof.
  rewrite Full_replicate. unfold Vowels.
  induction (mask_letterMask m) as [|b l IH]; [done|]. simpl. by rewrite IH.
Qed.

(** The machine sum of wrapped pairwise sums. *)
Lemma sumValues_splits (fs vs cs : list Z) :
  Forall3 (fun f v c => f = GoInt.add v c) fs vs cs ->
  sumValues fs = GoInt.add (sumValues vs) (sumValues cs).
Proof.
  intros H. rewrite !sumValues_plain. unfold GoInt.add.
  rewrite wrap_add_l, wrap_add_r.
  induction H as [|f v c fs vs cs -> _ IH]; [done|].
  change (plainSum (?x :: ?l)) with (x + plainSum l).
  unfold GoInt.add. rewrite wrap_add_l.
  rewrite (Z.add_comm (v + c)), <- wrap_add_l, IH, wrap_add_l by lia.
  f_equal. lia.
Qed.

Lemma scoreSegment_unreduced_value masterNumbers numberSystem mask seg b :
  scoreSegment masterNumbers false numberSystem mask seg = Some b ->
  unreduced b = Some (Breakdown.Value b).
Proof.
  intros (m & _ & Hb)%scoreSegment_inv.
  apply numerologyCalculation_inv in Hb as (t & steps & _ & _ & Hred & _ & _ & Hlast).
  unfold unreduced. rewrite Hred in *. simpl in *. done.
Qed.

Lemma segments_totals masterNumbers reduceWords numberSystem (m : list bool) segs :
  forall bfs bvs bcs,
  Forall2 (fun seg b => scoreSegment masterNumbers reduceWords numberSystem
                          ((fun _ => true) <$> m) seg = Some b) segs bfs ->
  Forall2 (fun seg b => scoreSegment masterNumbers reduceWords numberSystem m seg
                        = Some b) segs bvs ->
  Forall2 (fun seg b => scoreSegment masterNumbers reduceWords numberSystem
                          (negb <$> m) seg = Some b) segs bcs ->
  Forall3 (fun bf bv bc =>
             splitsInto (unreduced bf) (unreduced bv) (unreduced bc) /\
             (reduceWords = false ->
              Breakdown.Value bf = GoInt.add (Breakdown.Value bv) (Breakdown.Value bc)))
          bfs bvs bcs.
Proof.
  induction segs as [|seg segs IH]; intros bfs bvs bcs Hf Hv Hc.
  - inversion Hf; inversion Hv; inversion Hc; subst. constructor.
  - inversion Hf as [|? bf ? bfs' Hf1 Hf2]; subst.
    inversion Hv as [|? bv ? bvs' Hv1 Hv2]; subst.
    inversion Hc as [|? bc ? bcs' Hc1 Hc2]; subst.
    constructor; [|by apply IH].
    pose proof (scoreSegment_totals _ _ _ _ _ _ _ _ Hf1 Hv1 Hc1) as Hsplit.
    split; [done|]. intros ->.
    apply scoreSegment_unreduced_value in Hf1, Hv1, Hc1.
    destruct Hsplit as (f & v & c & Ef & Ev & Ec & Hsum). congruence.
Qed.

(** X7.  For every ASCII name the three calculations return results, each
    with one breakdown for each segment of the name, and in each segment the
    unreduced full total is the machine sum of the unreduced vowel and
    consonant totals.  Without word reduction the same holds for the unreduced
    totals of the whole name. *)
Theorem full_is_vowels_plus_consonants (n : NameNumerology.t) :
  asciiName (NameNumerology.Name n) ->
  exists rf rv rc,
    NameNumerology.Full n = Some rf /\
    NameNumerology.Vowels n = Some rv /\
    NameNumerology.Consonants n = Some rc /\
    length (NumerologicalResult.Breakdown rf) = length (segments (NameNumerology.Name n)) /\
    length (NumerologicalResult.Breakdown rv) = length (segments (NameNumerology.Name n)) /\
    length (NumerologicalResult.Breakdown rc) = length (segments (NameNumerology.Name n)) /\
    Forall3 (fun bf bv bc => splitsInto (unreduced bf) (unreduced bv) (unreduced bc))
      (NumerologicalResult.Breakdown rf) (NumerologicalResult.Breakdown rv)
      (NumerologicalResult.Breakdown rc) /\
    (NameNumerology.ReduceWords n = false ->
     splitsInto (unreducedTotal rf) (unreducedTotal rv) (unreducedTotal rc)).
Proof.
  intros _.
  unfold NameNumerology.Full, NameNumerology.Vowels, NameNumerology.Consonants.
  set (name := NameNumerology.Name n). set (masters := NameNumerology.MasterNumbers n).
  set (rw := NameNumerology.ReduceWords n). set (ns := NameNumerology.NumberSystem n).
  set (m := Vowels (maskConstructor name)).
  rewrite Full_fmap, Consonants_negb. fold m.
  assert (length m = length (runesOf name)) as Hlen.
  { unfold m. by rewrite maskConstructor_length, ToLower_length. }
  destruct (calculateCoreNumber_Some name masters rw ns ((fun _ => true) <$> m))
    as [rf Hrf]; [by rewrite length_fmap|].
  destruct (calculateCoreNumber_Some name masters rw ns m) as [rv Hrv]; [done|].
  destruct (calculateCoreNumber_Some name masters rw ns (negb <$> m))
    as [rc Hrc]; [by rewrite length_fmap|].
  exists rf, rv, rc. split; [done|]. split; [done|]. split; [done|].
  apply calculateCoreNumber_inv in Hrf as (Hf & Hsf & _).
  apply calculateCoreNumber_inv in Hrv as (Hv & Hsv & _).
  apply calculateCoreNumber_inv in Hrc as (Hc & Hsc & _).
  pose proof (segments_totals _ _ _ _ _ _ _ _ Hf Hv Hc) as H3.
  split; [symmetry; exact (Forall2_length _ _ _ Hf)|].
  split; [symmetry; exact (Forall2_length _ _ _ Hv)|].
  split; [symmetry; exact (Forall2_length _ _ _ Hc)|].
  split.
  { eapply Forall3_impl; [exact H3|]. by intros bf bv bc [H _]. }
  intros Hrw. rewrite Hrw, andb_false_r in Hsf, Hsv, Hsc.
  injection Hsf as Hsf. injection Hsv as Hsv. injection Hsc as Hsc.
  unfold splitsInto, unreducedTotal. rewrite <- Hsf, <- Hsv, <- Hsc.
  eexists _, _, _.
  split; [by destruct (reduceNumbers_head (sumValues (Breakdown.Value <$>
             NumerologicalResult.Breakdown rf)) masters) as [? ->]|].
  split; [by destruct (reduceNumbers_head (sumValues (Breakdown.Value <$>
             NumerologicalResult.Breakdown rv)) masters) as [? ->]|].
  split; [by destruct (reduceNumbers_head (sumValues (Breakdown.Value <$>
             NumerologicalResult.Breakdown rc)) masters) as [? ->]|].
  apply sumValues_splits.
  revert H3 Hrw. generalize (NumerologicalResult.Breakdown rf)
    (NumerologicalResult.Breakdown rv) (NumerologicalResult.Breakdown rc).
  induction 1 as [|bf bv bc bfs bvs bcs [_ Hval] _ IH]; intros Hrw; [constructor|].
  cbn [fmap list_fmap]. constructor; [by apply Hval|by apply IH].
Qed.

Example george_totals :
  (unreducedTotal <$> NameNumerology.Full georgeUnreduced,
   unreducedTotal <$> NameNumerology.Vowels georgeUnreduced,
   unreducedTotal <$> NameNumerology.Consonants georgeUnreduced)
  = (Some (Some 88), Some (Some 32), Some (Some 56)).
Proof. vm_compute. reflexivity. Qed.

Lemma full_is_vowels_plus_consonants_witness :
  asciiName (NameNumerology.Name georgeUnreduced) /\
  NameNumerology.ReduceWords georgeUnreduced = false /\
  exists rf rv rc,
    NameNumerology.Full georgeUnreduced = Some rf /\
    NameNumerology.Vowels georgeUnreduced = Some rv /\
    NameNumerology.Consonants georgeUnreduced = Some rc /\
    length (NumerologicalResult.Breakdown rf) = 2%nat /\
    splitsInto (unreducedTotal rf) (unreducedTotal rv) (unreducedTotal rc).
Proof.
  split; [reflexivity|]. split; [reflexivity|].
  destruct (full_is_vowels_plus_consonants georgeUnreduced)
    as (rf & rv & rc & Hf & Hv & Hc & Hlf & _ & _ & _ & H); [reflexivity|].
  exists rf, rv, rc.
  split; [exact Hf|]. split; [exact Hv|]. split; [exact Hc|].
  split; [exact Hlf|]. apply H. reflexivity.
Defined.

(** ** Word reduction without master numbers *)

Lemma digitValued_standard : digitValued Pythagorean /\ digitValued Chaldean.
Proof.
  split; apply map_Forall_to_list; vm_compute; repeat constructor; discriminate.
Qed.

Lemma countedValue_range numberSystem mask i r :
  digitValued numberSystem -> 0 <= countedValue numberSystem mask i r <= 9.
Proof.
  intros Hd. unfold countedValue.
  destruct (NumberMapping numberSystem !! toLower r) as [v|] eqn:Hv; [|lia].
  apply Hd in Hv. simpl in Hv. destruct (default false (mask !! i)); lia.
Qed.

Lemma plainSum_imap_range (f : nat -> rune -> Z) (l : list rune) :
  (forall i r, 0 <= f i r <= 9) ->
  0 <= plainSum (imap f l) <= 9 * Z.of_nat (length l).
Proof.
  revert f. induction l as [|r l IH]; intros f Hf; simpl; [lia|].
  specialize (IH (f ∘ S) (fun i r => Hf (S i) r)).
  specialize (Hf 0%nat r). unfold plainSum in *. simpl. lia.
Qed.

(** The unreduced total of a segment is the plain sum of its letter values. *)
Lemma segmentTotal_range numberSystem mask seg :
  digitValued numberSystem ->
  0 <= segmentTotal numberSystem mask seg <= 9 * Z.of_nat (length (snd seg)).
Proof.
  intros Hd. unfold segmentTotal.
  pose proof (plainSum_imap_range
    (countedValue numberSystem
       (default [] (sliceOf mask (fst seg) (fst seg + length (snd seg)))))
    (TrimSpace (snd seg))
    (fun k r => countedValue_range numberSystem _ k r Hd)) as Hp.
  pose proof (TrimSpace_length (snd seg)) as Ht. lia.
Qed.

Lemma scoreSegment_digits masterNumbers reduceWords numberSystem mask seg b :
  digitValued numberSystem ->
  9 * Z.of_nat (length (snd seg)) <= GoInt.max_int ->
  scoreSegment masterNumbers reduceWords numberSystem mask seg = Some b ->
  Breakdown.ReduceSteps b =
    (if reduceWords
     then reduceNumbers (segmentTotal numberSystem mask seg) masterNumbers []
     else [segmentTotal numberSystem mask seg]) /\
  last (Breakdown.ReduceSteps b) = Some (Breakdown.Value b).
Proof.
  intros Hd Hlen Hb.
  pose proof (segmentTotal_range numberSystem mask seg Hd) as Hp.
  apply scoreSegment_inv in Hb as (segmentMask & Hmask & Hb).
  unfold segmentTotal in *. rewrite Hmask in *. simpl in Hp |- *.
  pose proof Hb as Hb'.
  apply numerologyCalculation_inv in Hb as (t & steps & Hscore & Hrange & Hsteps & _ & Hc).
  apply scoreLetters_values in Hscore as [_ Hsum].
  rewrite Z.add_0_l in Hsum.
  assert (GoInt.wrap t = GoInt.wrap (plainSum
            (imap (countedValue numberSystem segmentMask) (TrimSpace (snd seg)))))
    as Hsum' by exact Hsum.
  clear Hsum.
  rewrite (GoIntFacts.wrap_id t) in Hsum' by done.
  rewrite GoIntFacts.wrap_id in Hsum'
    by (unfold GoInt.in_range, GoInt.min_int, GoInt.max_int in *; lia).
  subst t. split; [done|].
  unfold numerologyCalculation in Hb'.
  apply bind_Some in Hb' as ([t' steps'] & _ & Hb').
  apply bind_Some in Hb' as (v & Hv & Hb'). injection Hb' as <-. exact Hv.
Qed.

Lemma splitOn_total sep rs :
  (sum_list (length <$> splitOn sep rs) + length (splitOn sep rs) = S (length rs))%nat.
Proof.
  induction rs as [|r rs IH]; csimpl; [done|].
  destruct (Ascii.eqb r sep); csimpl; [lia|].
  destruct (splitOn sep rs) as [|part parts]; csimpl in *; lia.
Qed.

Lemma withOffsets_lengths parts : forall offset,
  (fun seg : nat * list rune => length (snd seg)) <$> withOffsets offset parts
  = length <$> parts.
Proof.
  induction parts as [|part parts IH]; intros offset; csimpl; [done|].
  by rewrite IH.
Qed.

Lemma sum_list_filter {A} (f : A -> nat) (P : A -> bool) (l : list A) :
  (sum_list (f <$> List.filter P l) <= sum_list (f <$> l))%nat.
Proof.
  induction l as [|a l IH]; csimpl; [done|].
  destruct (P a); csimpl; lia.
Qed.

(** The segments of a name have no more runes than the name. *)
Lemma segments_length name :
  (segmentsLength (segments name) <= length (runesOf name))%nat.
Proof.
  unfold segmentsLength, segments, segmentsFrom.
  etrans; [apply sum_list_filter|].
  rewrite withOffsets_lengths.
  pose proof (splitOn_total " " (runesOf name)) as H.
  pose proof (splitOn_nonempty " " (runesOf name)) as Hne.
  destruct (splitOn " " (runesOf name)); [done|]. simpl in *. lia.
Qed.

(** Reduced and unreduced segment values have the same digital root. *)
Lemma segments_roots numberSystem mask segs :
  digitValued numberSystem ->
  9 * Z.of_nat (segmentsLength segs) <= GoInt.max_int ->
  forall bs1 bs0,
  Forall2 (fun seg b => scoreSegment [] true numberSystem mask seg = Some b) segs bs1 ->
  Forall2 (fun seg b => scoreSegment [] false numberSystem mask seg = Some b) segs bs0 ->
  sameRoot (plainSum (Breakdown.Value <$> bs1)) (plainSum (Breakdown.Value <$> bs0)) /\
  plainSum (Breakdown.Value <$> bs1) <= plainSum (Breakdown.Value <$> bs0) /\
  plainSum (Breakdown.Value <$> bs0) = plainSum (segmentTotal numberSystem mask <$> segs) /\
  plainSum (Breakdown.Value <$> bs0) <= 9 * Z.of_nat (segmentsLength segs) /\
  Forall2 (fun b1 b0 =>
             Breakdown.ReduceSteps b1 = reduceNumbers (Breakdown.Value b0) [] [])
          bs1 bs0.
Proof.
  intros Hd. induction segs as [|seg segs IH]; intros Hlen bs1 bs0 H1 H0.
  { inversion H1; inversion H0; subst. simpl.
    split; [by apply sameRoot_refl|]. split; [done|]. split; [done|].
    split; [done|]. constructor. }
  inversion H1 as [|? b1 ? bs1' Hb1 H1']; inversion H0 as [|? b0 ? bs0' Hb0 H0']; subst.
  unfold segmentsLength in Hlen |- *. csimpl in Hlen. csimpl.
  fold (segmentsLength segs) in Hlen |- *.
  destruct (IH ltac:(lia) bs1' bs0' H1' H0') as (IHr & IHle & IHeq & IHb & IHall).
  pose proof (segmentTotal_range numberSystem mask seg Hd) as Ht.
  apply scoreSegment_digits in Hb1 as (Hs1 & Hv1); [|done|lia].
  apply scoreSegment_digits in Hb0 as (Hs0 & Hv0); [|done|lia].
  rewrite Hs0 in Hv0. injection Hv0 as Hv0.
  rewrite Hs1 in Hv1.
  apply reduceNumbers_last_sameRoot in Hv1 as [Hr1 Hle1];
    [|unfold GoInt.max_int in *; lia].
  unfold plainSum in *. csimpl. rewrite <- Hv0.
  split; [exact (sameRoot_add _ _ _ _ Hr1 IHr)|]. split; [lia|]. split; [lia|]. split; [lia|].
  constructor; [simpl; congruence|done].
Qed.

(** X8.  Without master numbers, and with letter values from 0 to 9, reducing
    each word first does not change the final number of an ASCII name: with and
    without word reduction the value is the digital root of the plain sum of
    all counted letter values. *)
Theorem word_reduction_keeps_value (name : string) (numberSystem : NumberSystem)
    (mask : list bool) :
  asciiName name ->
  digitValued numberSystem ->
  length mask = length (runesOf name) ->
  9 * Z.of_nat (length (runesOf name)) <= GoInt.max_int ->
  let total := plainSum (segmentTotal numberSystem mask <$> segments name) in
  exists r1 r0,
    calculateCoreNumber name [] true numberSystem mask = Some r1 /\
    calculateCoreNumber name [] false numberSystem mask = Some r0 /\
    unreducedTotal r0 = Some total /\
    NumerologicalResult.Value r0 = digitalRoot total /\
    NumerologicalResult.Value r1 = NumerologicalResult.Value r0.
Proof.
  intros _ Hd Hmask Hlen total.
  destruct (calculateCoreNumber_Some name [] true numberSystem mask Hmask) as [r1 Hr1].
  destruct (calculateCoreNumber_Some name [] false numberSystem mask Hmask) as [r0 Hr0].
  exists r1, r0. split; [done|]. split; [done|].
  apply calculateCoreNumber_inv in Hr1 as (H1 & Hs1 & Hl1).
  apply calculateCoreNumber_inv in Hr0 as (H0 & Hs0 & Hl0).
  pose proof (segments_length name) as Hseg.
  destruct (segments_roots numberSystem mask (segments name) Hd ltac:(lia) _ _ H1 H0)
    as (Hroot & Hle & Heq & Hb & Hall).
  fold total in Heq.
  assert (0 <= total <= GoInt.max_int) as Htotal.
  { destruct Hroot as (_ & ? & _). lia. }
  rewrite andb_false_r in Hs0. injection Hs0 as Hs0.
  rewrite sumValues_plain, Heq, GoIntFacts.wrap_id in Hs0
    by (unfold GoInt.in_range, GoInt.min_int, GoInt.max_int in *; lia).
  assert (NumerologicalResult.Value r0 = digitalRoot total) as Hv0.
  { rewrite <- Hs0, reduceNumbers_no_masters_last in Hl0 by done. congruence. }
  split.
  { unfold unreducedTotal. rewrite <- Hs0.
    by destruct (reduceNumbers_head total []) as [rest ->]. }
  split; [done|].
  rewrite Hv0. rewrite andb_true_r in Hs1.
  destruct (length (NumerologicalResult.Breakdown r1) =? 1)%nat eqn:Hone.
  - apply Nat.eqb_eq in Hone.
    destruct Hall as [|b1 b0 bs1 bs0 Hb1 Hrest]; [done|].
    destruct Hrest; [|simpl in Hone; lia].
    simpl in Hs1. injection Hs1 as Hs1.
    rewrite <- Hs1, Hb1 in Hl1.
    assert (total = Breakdown.Value b0) as Ht.
    { rewrite <- Heq. unfold plainSum. simpl. lia. }
    rewrite <- Ht, reduceNumbers_no_masters_last in Hl1 by done. congruence.
  - injection Hs1 as Hs1.
    assert (0 <= plainSum (Breakdown.Value <$> NumerologicalResult.Breakdown r1)
            <= GoInt.max_int) as Hr.
    { destruct Hroot as (? & _). lia. }
    rewrite sumValues_plain, GoIntFacts.wrap_id in Hs1
      by (unfold GoInt.in_range, GoInt.min_int, GoInt.max_int in *; lia).
    rewrite <- Hs1, reduceNumbers_no_masters_last in Hl1 by done.
    injection Hl1 as <-. apply sameRoot_digitalRoot. by rewrite <- Heq.
Qed.

Example kevin_bacon_root :
  digitalRoot (plainSum (segmentTotal Pythagorean
                           (Full (maskConstructor "Kevin Norwood Bacon"))
                         <$> segments "Kevin Norwood Bacon")) = 2.
Proof. vm_compute. reflexivity. Qed.

Lemma word_reduction_keeps_value_witness :
  asciiName "Kevin Norwood Bacon" /\
  exists r1 r0,
    calculateCoreNumber "Kevin Norwood Bacon" [] true Pythagorean
      (Full (maskConstructor "Kevin Norwood Bacon")) = Some r1 /\
    calculateCoreNumber "Kevin Norwood Bacon" [] false Pythagorean
      (Full (maskConstructor "Kevin Norwood Bacon")) = Some r0 /\
    NumerologicalResult.Value r1 = NumerologicalResult.Value r0.
Proof.
  assert (length (Full (maskConstructor "Kevin Norwood Bacon"))
          = length (runesOf "Kevin Norwood Bacon")) as Hmask
    by (vm_compute; reflexivity).
  assert (9 * Z.of_nat (length (runesOf "Kevin Norwood Bacon")) <= GoInt.max_int)
    as Hlen by (vm_compute; discriminate).
  assert (asciiName "Kevin Norwood Bacon") as Hascii by reflexivity.
  split; [exact Hascii|].
  destruct (word_reduction_keeps_value "Kevin Norwood Bacon" Pythagorean
              (Full (maskConstructor "Kevin Norwood Bacon"))
              Hascii (proj1 digitValued_standard) Hmask Hlen)
    as (r1 & r0 & H1 & H0 & _ & _ & Heq).
  exists r1, r0. split; [exact H1|]. split; [exact H0|exact Heq].
Defined.

(** ** Counting numerological numbers *)

Lemma initCounts_lookup validNumbers k :
  initCounts validNumbers !! k =
    if decide (k ∈ GoInt.int32 <$> validNumbers) then Some 0 else None.
Proof.
  unfold initCounts.
  assert (forall init : gmap Z Z,
            foldl (fun counts i => <[GoInt.int32 i := 0]> counts) init validNumbers !! k
            = if decide (k ∈ GoInt.int32 <$> validNumbers) then Some 0 else init !! k) as H.
  { induction validNumbers as [|i rest IH]; intros init.
    { cbn [foldl]. destruct (decide (k ∈ GoInt.int32 <$> [])) as [Hin|Hin]; [|done].
      by apply elem_of_nil in Hin. }
    rewrite fmap_cons. cbn [foldl]. rewrite IH.
    destruct (decide (k ∈ GoInt.int32 <$> rest)) as [Hin|Hin].
    - rewrite decide_True; [done|]. by right.
    - destruct (decide (k = GoInt.int32 i)) as [->|Hne].
      + rewrite lookup_insert_eq, decide_True; [done|]. by left.
      + rewrite lookup_insert_ne by done. rewrite decide_False; [done|].
        intros Hc. apply elem_of_cons in Hc as [?|?]; done. }
  rewrite H. by rewrite lookup_empty.
Qed.

Lemma occurrences_snoc numberSystem rs n k :
  occurrences numberSystem (rs ++ [n]) k =
    occurrences numberSystem rs k + (if numberOf numberSystem n =? k then 1 else 0).
Proof.
  unfold occurrences. rewrite List.filter_app, length_app. simpl.
  destruct (numberOf numberSystem n =? k); simpl; lia.
Qed.

Lemma occurrences_bound numberSystem rs k :
  0 <= occurrences numberSystem rs k <= Z.of_nat (length rs).
Proof.
  unfold occurrences. pose proof (List.filter_length_le
    (fun n => numberOf numberSystem n =? k) rs). lia.
Qed.

(** The state of the counting loop after the runes [rs]. *)
Lemma countRune_state numberSystem rs :
  Z.of_nat (length rs) <= GoInt.max_int ->
  let '(counts, maxCount, unknownChars) :=
    foldl (countRune numberSystem) (initCounts (ValidNumbers numberSystem), 0, ∅) rs in
  (forall k, counts !! k =
     if decide (k ∈ validKeys numberSystem)
     then Some (occurrences numberSystem rs k) else None) /\
  largestCount counts maxCount /\
  (forall c, c ∈ unknownChars <->
     exists n, n ∈ rs /\ c = toLower n /\ numberOf numberSystem n ∉ validKeys numberSystem).
Proof.
  induction rs as [|n rs IH] using rev_ind; intros Hlen.
  { simpl. split; [|split].
    - intros k. rewrite initCounts_lookup. unfold validKeys. by case_decide.
    - split; [done|]. split; [|by left].
      intros k v Hk. apply initCounts_zero in Hk. lia.
    - intros c. split; [set_solver|]. intros (n & Hn & _). by apply elem_of_nil in Hn. }
  rewrite length_app in Hlen. simpl in Hlen.
  rewrite foldl_app. simpl.
  destruct (foldl (countRune numberSystem) _ rs) as [[counts maxCount] unknownChars].
  destruct IH as (Hcounts & (Hmax0 & Hmax & Hhit) & Hunknown); [lia|].
  unfold countRune. fold (numberOf numberSystem n).
  rewrite (Hcounts (numberOf numberSystem n)).
  destruct (decide (numberOf numberSystem n ∈ validKeys numberSystem)) as [Hvalid|Hvalid].
  - pose proof (occurrences_bound numberSystem rs (numberOf numberSystem n)) as Hb.
    rewrite GoIntFacts.add_exact
      by (unfold GoInt.in_range, GoInt.min_int, GoInt.max_int in *; lia).
    assert (occurrences numberSystem rs (numberOf numberSystem n) <= maxCount) as Hle.
    { apply (Hmax (numberOf numberSystem n)). rewrite Hcounts. by rewrite decide_True. }
    split; [|split].
    + intros k. rewrite occurrences_snoc.
      destruct (Z.eqb_spec (numberOf numberSystem n) k) as [<-|Hne].
      * rewrite lookup_insert_eq. by rewrite decide_True.
      * rewrite lookup_insert_ne by done. rewrite Hcounts.
        case_decide; [|done]. f_equal. lia.
    + destruct (Z.ltb_spec maxCount
                  (occurrences numberSystem rs (numberOf numberSystem n) + 1)) as [Hlt|Hge].
      * split; [lia|]. split.
        -- intros k v. destruct (decide (k = numberOf numberSystem n)) as [->|Hne].
           ++ rewrite lookup_insert_eq. intros [= <-]. lia.
           ++ rewrite lookup_insert_ne by done. intros Hk. specialize (Hmax k v Hk). lia.
        -- right. exists (numberOf numberSystem n). by rewrite lookup_insert_eq.
      * split; [lia|]. split.
        -- intros k v. destruct (decide (k = numberOf numberSystem n)) as [->|Hne].
           ++ rewrite lookup_insert_eq. intros [= <-]. lia.
           ++ rewrite lookup_insert_ne by done. apply Hmax.
        -- destruct Hhit as [->|(k & Hk)]; [lia|].
           right. exists k. rewrite lookup_insert_ne; [done|].
           intros <-. rewrite Hcounts, decide_True in Hk by done.
           injection Hk as Hk. lia.
    + intros c. rewrite Hunknown. split.
      * intros (m & Hm & Hc & Hv). exists m. split; [|done].
        apply elem_of_app. by left.
      * intros (m & Hm & Hc & Hv). apply elem_of_app in Hm as [Hm|Hm].
        -- by exists m.
        -- apply list_elem_of_singleton in Hm as ->. done.
  - split; [|split].
    + intros k. rewrite Hcounts, occurrences_snoc.
      case_decide as Hk; [|done].
      destruct (Z.eqb_spec (numberOf numberSystem n) k) as [<-|Hne]; [done|].
      f_equal. lia.
    + done.
    + intros c. rewrite elem_of_union, Hunknown, elem_of_singleton. split.
      * intros [(m & Hm & Hc & Hv)| ->].
        -- exists m. split; [|done]. apply elem_of_app. by left.
        -- exists n. split; [|done]. apply elem_of_app. right. by left.
      * intros (m & Hm & Hc & Hv). apply elem_of_app in Hm as [Hm|Hm].
        -- left. by exists m.
        -- apply list_elem_of_singleton in Hm as ->. by right.
Qed.

(** X9.  [countNumerologicalNumbers] returns a map whose keys are exactly the
    valid numbers, each with the number of runes of the name counted under it;
    the largest of these counts; and the lower-cased runes whose number is not
    valid. *)
Theorem countNumerologicalNumbers_counts (name : string) (numberSystem : NumberSystem) :
  Z.of_nat (length (runesOf name)) <= GoInt.max_int ->
  let '(counts, maxCount, unknownChars) := countNumerologicalNumbers name numberSystem in
  (forall k, counts !! k =
     if decide (k ∈ validKeys numberSystem)
     then Some (occurrences numberSystem (runesOf name) k) else None) /\
  largestCount counts maxCount /\
  (forall c, c ∈ unknownChars <->
     exists n, n ∈ runesOf name /\ c = toLower n /\
               numberOf numberSystem n ∉ validKeys numberSystem).
Proof.
  intros Hlen. unfold countNumerologicalNumbers.
  exact (countRune_state numberSystem (runesOf name) Hlen).
Qed.

Lemma countNumerologicalNumbers_counts_witness :
  Z.of_nat (length (runesOf "Mary-Ann O'Neil")) <= GoInt.max_int /\
  let '(counts, maxCount, unknownChars) :=
    countNumerologicalNumbers "Mary-Ann O'Neil" Pythagorean in
  (forall k, counts !! k =
     if decide (k ∈ validKeys Pythagorean)
     then Some (occurrences Pythagorean (runesOf "Mary-Ann O'Neil") k) else None) /\
  largestCount counts maxCount /\
  (forall c, c ∈ unknownChars <->
     exists n, n ∈ runesOf "Mary-Ann O'Neil" /\ c = toLower n /\
               numberOf Pythagorean n ∉ validKeys Pythagorean).
Proof.
  assert (Z.of_nat (length (runesOf "Mary-Ann O'Neil")) <= GoInt.max_int) as Hlen
    by (vm_compute; discriminate).
  split; [exact Hlen|].
  exact (countNumerologicalNumbers_counts "Mary-Ann O'Neil" Pythagorean Hlen).
Defined.

Example counts_mary_ann :
  let '(counts, maxCount, unknownChars) :=
    countNumerologicalNumbers "Mary-Ann O'Neil" Pythagorean in
  (counts !! 5, counts !! 0, maxCount, elements unknownChars) =
  (Some 4, None, 4, ["'"; "-"; " "]%char).
Proof. vm_compute. reflexivity. Qed.

(** ** Hidden passions and karmic lessons *)

Lemma largestValue_snoc entries kv :
  largestValue (entries ++ [kv]) = Z.max (largestValue entries) kv.2.
Proof.
  unfold largestValue. rewrite fmap_app, foldr_app. simpl.
  induction (snd <$> entries) as [|v vs IH]; simpl; lia.
Qed.

Lemma largestValue_bound entries :
  0 <= largestValue entries /\
  (forall kv, kv ∈ entries -> kv.2 <= largestValue entries) /\
  (largestValue entries = 0 \/ exists kv, kv ∈ entries /\ kv.2 = largestValue entries).
Proof.
  unfold largestValue. induction entries as [|kv entries (IH0 & IHle & IHhit)]; csimpl.
  { split; [done|]. split; [|by left]. intros kv Hkv. by apply elem_of_nil in Hkv. }
  split; [lia|]. split.
  - intros kv' Hkv'. apply elem_of_cons in Hkv' as [->|Hin]; [lia|].
    specialize (IHle kv' Hin). lia.
  - destruct (Z_lt_le_dec (foldr Z.max 0 (snd <$> entries)) kv.2) as [Hlt|Hge].
    + right. exists kv. split; [by left|lia].
    + rewrite Z.max_r by lia. destruct IHhit as [?|(kv' & Hin & Heq)]; [by left|].
      right. exists kv'. split; [by right|done].
Qed.

Lemma largestValue_Permutation entries entries' :
  entries ≡ₚ entries' -> largestValue entries = largestValue entries'.
Proof.
  unfold largestValue. induction 1; csimpl; lia.
Qed.

Lemma keysWith_snoc v entries kv :
  keysWith v (entries ++ [kv]) =
    keysWith v entries ++ (if decide (kv.2 = v) then [kv.1] else []).
Proof.
  unfold keysWith. rewrite filter_app, fmap_app. f_equal.
  rewrite filter_cons, filter_nil. by case_decide.
Qed.

Lemma keysWith_above v entries :
  (forall kv, kv ∈ entries -> kv.2 < v) -> keysWith v entries = [].
Proof.
  intros H. unfold keysWith.
  induction entries as [|kv entries IH]; [done|].
  rewrite filter_cons.
  pose proof (H kv ltac:(by left)).
  rewrite decide_False by lia. apply IH. intros kv' Hin. apply H. by right.
Qed.

Lemma keysWith_Permutation v entries entries' :
  entries ≡ₚ entries' -> keysWith v entries ≡ₚ keysWith v entries'.
Proof. intros H. unfold keysWith. by rewrite H. Qed.

(** The loop of [hiddenPassions] ends with the largest value and the keys that
    have it. *)
Lemma passionStep_loop entries :
  foldl passionStep ([], 0) entries =
    (keysWith (largestValue entries) entries, largestValue entries).
Proof.
  induction entries as [|kv entries IH] using rev_ind; [done|].
  rewrite foldl_app, IH. simpl.
  rewrite largestValue_snoc, keysWith_snoc.
  destruct (largestValue_bound entries) as (_ & Hle & _).
  destruct (Z.ltb_spec (largestValue entries) kv.2) as [Hlt|Hge].
  - rewrite Z.max_r by lia. rewrite decide_True by done.
    rewrite keysWith_above; [done|]. intros kv' Hin. specialize (Hle kv' Hin). lia.
  - rewrite Z.max_l by lia.
    destruct (Z.eqb_spec kv.2 (largestValue entries)) as [Heq|Hne].
    + by rewrite decide_True.
    + rewrite decide_False by done. by rewrite app_nil_r.
Qed.

Lemma lessonStep_loop entries : foldl lessonStep [] entries = keysWith 0 entries.
Proof.
  induction entries as [|kv entries IH] using rev_ind; [done|].
  rewrite foldl_app, IH. simpl. rewrite keysWith_snoc. unfold lessonStep.
  destruct (Z.eqb_spec kv.2 0) as [Heq|Hne].
  - by rewrite decide_True.
  - rewrite decide_False by done. by rewrite app_nil_r.
Qed.

Lemma sortInts_Permutation l l' : l ≡ₚ l' -> sortInts l = sortInts l'.
Proof.
  intros H. unfold sortInts.
  apply (Sorted_unique Z.le); [apply Sorted_merge_sort, _ ..|].
  by rewrite !merge_sort_Permutation.
Qed.

Lemma sortInts_spec l :
  Sorted Z.le (sortInts l) /\ sortInts l ≡ₚ l.
Proof.
  split; [apply Sorted_merge_sort, _|apply merge_sort_Permutation].
Qed.

(** The keys with a given value, among the entries of a map. *)
Lemma keysWith_map (counts : gmap Z Z) entries v :
  entries ≡ₚ map_to_list counts ->
  NoDup (keysWith v entries) /\
  (forall k, k ∈ keysWith v entries <-> counts !! k = Some v).
Proof.
  intros Hperm. split.
  - rewrite (keysWith_Permutation v _ _ Hperm). unfold keysWith.
    apply NoDup_fmap_fst.
    + intros k v1 v2 H1 H2.
      apply list_elem_of_filter in H1 as [_ H1], H2 as [_ H2].
      apply elem_of_map_to_list in H1, H2. congruence.
    + apply NoDup_filter, NoDup_map_to_list.
  - intros k. rewrite (keysWith_Permutation v _ _ Hperm). unfold keysWith.
    rewrite list_elem_of_fmap. split.
    + intros ([k' v'] & -> & Hin). apply list_elem_of_filter in Hin as [Hv Hin].
      simpl in *. subst v'. by apply elem_of_map_to_list in Hin.
    + intros Hk. exists (k, v). split; [done|].
      apply list_elem_of_filter. split; [done|]. by apply elem_of_map_to_list.
Qed.

Lemma largestCount_largestValue (counts : gmap Z Z) entries :
  entries ≡ₚ map_to_list counts ->
  largestCount counts (largestValue entries).
Proof.
  intros Hperm.
  destruct (largestValue_bound entries) as (H0 & Hle & Hhit).
  split; [done|]. split.
  - intros k v Hk. apply (Hle (k, v)). rewrite Hperm. by apply elem_of_map_to_list.
  - destruct Hhit as [?|([k v] & Hin & Heq)]; [by left|]. right. exists k.
    rewrite Hperm in Hin. apply elem_of_map_to_list in Hin. simpl in Heq. congruence.
Qed.

Lemma largestCount_unique (counts : gmap Z Z) m1 m2 :
  largestCount counts m1 -> largestCount counts m2 -> m1 = m2.
Proof.
  intros (H1 & Hle1 & Hhit1) (H2 & Hle2 & Hhit2).
  destruct Hhit1 as [->|(k1 & Hk1)], Hhit2 as [->|(k2 & Hk2)]; [done|..].
  - specialize (Hle1 _ _ Hk2). lia.
  - specialize (Hle2 _ _ Hk1). lia.
  - specialize (Hle1 _ _ Hk2). specialize (Hle2 _ _ Hk1). lia.
Qed.

Lemma hiddenPassionsIn_eq entries :
  hiddenPassionsIn entries =
    {| HiddenPassionResults.Numbers :=
         sortInts (keysWith (largestValue entries) entries);
       HiddenPassionResults.MaxCount := largestValue entries |}.
Proof. unfold hiddenPassionsIn. by rewrite passionStep_loop. Qed.

Lemma hiddenPassions_spec (counts : gmap Z Z) entries :
  entries ≡ₚ map_to_list counts ->
  let r := hiddenPassionsIn entries in
  r = hiddenPassions counts /\
  Sorted Z.le (HiddenPassionResults.Numbers r) /\
  NoDup (HiddenPassionResults.Numbers r) /\
  (forall k, k ∈ HiddenPassionResults.Numbers r <->
             counts !! k = Some (HiddenPassionResults.MaxCount r)) /\
  largestCount counts (HiddenPassionResults.MaxCount r).
Proof.
  intros Hperm r. unfold r, hiddenPassions. rewrite !hiddenPassionsIn_eq. simpl.
  destruct (sortInts_spec (keysWith (largestValue entries) entries)) as [Hsorted Hp].
  destruct (keysWith_map counts entries (largestValue entries) Hperm) as [Hnodup Hin].
  split.
  { rewrite (largestValue_Permutation _ _ Hperm). f_equal.
    apply sortInts_Permutation. by apply keysWith_Permutation. }
  split; [done|]. split; [by rewrite Hp|].
  split; [intros k; by rewrite Hp|].
  by apply largestCount_largestValue.
Qed.

(** X10.  Whatever the order in which the range over the map visits its
    entries, [hiddenPassions] returns the same result: the largest count (zero
    when no count is positive) and, in increasing order and without
    repetition, exactly the keys that have this count. *)
Theorem hiddenPassions_any_order (counts : gmap Z Z) (entries : list (Z * Z)) :
  entries ≡ₚ map_to_list counts ->
  let r := hiddenPassionsIn entries in
  r = hiddenPassions counts /\
  Sorted Z.le (HiddenPassionResults.Numbers r) /\
  NoDup (HiddenPassionResults.Numbers r) /\
  (forall k, k ∈ HiddenPassionResults.Numbers r <->
             counts !! k = Some (HiddenPassionResults.MaxCount r)) /\
  largestCount counts (HiddenPassionResults.MaxCount r).
Proof. exact (hiddenPassions_spec counts entries). Qed.

Example hiddenPassions_sample :
  hiddenPassions sampleCounts =
    {| HiddenPassionResults.Numbers := [1; 3]; HiddenPassionResults.MaxCount := 2 |}.
Proof. vm_compute. reflexivity. Qed.

Lemma hiddenPassions_any_order_witness :
  reverse (map_to_list sampleCounts) ≡ₚ map_to_list sampleCounts /\
  hiddenPassionsIn (reverse (map_to_list sampleCounts)) = hiddenPassions sampleCounts.
Proof.
  assert (reverse (map_to_list sampleCounts) ≡ₚ map_to_list sampleCounts) as Hperm
    by apply reverse_Permutation.
  split; [exact Hperm|].
  exact (proj1 (hiddenPassions_any_order sampleCounts _ Hperm)).
Defined.

Lemma karmicLessons_spec (counts : gmap Z Z) entries :
  entries ≡ₚ map_to_list counts ->
  let r := karmicLessonsIn entries in
  r = karmicLessons counts /\
  Sorted Z.le (KarmicLessonResults.Numbers r) /\
  NoDup (KarmicLessonResults.Numbers r) /\
  (forall k, k ∈ KarmicLessonResults.Numbers r <-> counts !! k = Some 0).
Proof.
  intros Hperm r. unfold r, karmicLessons, karmicLessonsIn. rewrite !lessonStep_loop.
  simpl.
  destruct (sortInts_spec (keysWith 0 entries)) as [Hsorted Hp].
  destruct (keysWith_map counts entries 0 Hperm) as [Hnodup Hin].
  split.
  { f_equal. apply sortInts_Permutation. by apply keysWith_Permutation. }
  split; [done|]. split; [by rewrite Hp|]. intros k. by rewrite Hp.
Qed.

(** X11.  Whatever the order in which the range over the map visits its
    entries, [karmicLessons] returns, in increasing order and without
    repetition, exactly the keys whose count is zero. *)
Theorem karmicLessons_any_order (counts : gmap Z Z) (entries : list (Z * Z)) :
  entries ≡ₚ map_to_list counts ->
  let r := karmicLessonsIn entries in
  r = karmicLessons counts /\
  Sorted Z.le (KarmicLessonResults.Numbers r) /\
  NoDup (KarmicLessonResults.Numbers r) /\
  (forall k, k ∈ KarmicLessonResults.Numbers r <-> counts !! k = Some 0).
Proof. exact (karmicLessons_spec counts entries). Qed.

Example karmicLessons_sample :
  karmicLessons sampleCounts = {| KarmicLessonResults.Numbers := [2; 5] |}.
Proof. vm_compute. reflexivity. Qed.

Lemma karmicLessons_any_order_witness :
  reverse (map_to_list sampleCounts) ≡ₚ map_to_list sampleCounts /\
  karmicLessonsIn (reverse (map_to_list sampleCounts)) = karmicLessons sampleCounts.
Proof.
  assert (reverse (map_to_list sampleCounts) ≡ₚ map_to_list sampleCounts) as Hperm
    by apply reverse_Permutation.
  split; [exact Hperm|].
  exact (proj1 (karmicLessons_any_order sampleCounts _ Hperm)).
Defined.

(** X12.  For a name, the hidden passions are the valid numbers under which
    the most runes are counted, with that count, which is the [maxCount] of
    [countNumerologicalNumbers]; the karmic lessons are the valid numbers under
    which no rune is counted.  When no rune is counted at all, every valid
    number is both. *)
Theorem name_passions_and_lessons (n : NameNumerology.t) :
  let name := NameNumerology.Name n in
  let numberSystem := NameNumerology.NumberSystem n in
  let passions := NameNumerologyCounts.HiddenPassions n in
  let lessons := NameNumerologyCounts.KarmicLessons n in
  Z.of_nat (length (runesOf name)) <= GoInt.max_int ->
  HiddenPassionResults.MaxCount passions = (countNumerologicalNumbers name numberSystem).1.2 /\
  (forall k, k ∈ HiddenPassionResults.Numbers passions <->
     k ∈ validKeys numberSystem /\
     occurrences numberSystem (runesOf name) k = HiddenPassionResults.MaxCount passions) /\
  (forall k, k ∈ validKeys numberSystem ->
     occurrences numberSystem (runesOf name) k <= HiddenPassionResults.MaxCount passions) /\
  (forall k, k ∈ KarmicLessonResults.Numbers lessons <->
     k ∈ validKeys numberSystem /\ occurrences numberSystem (runesOf name) k = 0) /\
  (HiddenPassionResults.MaxCount passions = 0 ->
   HiddenPassionResults.Numbers passions = KarmicLessonResults.Numbers lessons /\
   forall k, k ∈ validKeys numberSystem -> k ∈ KarmicLessonResults.Numbers lessons).
Proof.
  intros name numberSystem passions lessons Hlen.
  pose proof (countRune_state numberSystem (runesOf name) Hlen) as Hstate.
  unfold passions, lessons, NameNumerologyCounts.HiddenPassions,
    NameNumerologyCounts.KarmicLessons, NameNumerologyCounts.Counts.
  fold name numberSystem. unfold countNumerologicalNumbers.
  destruct (foldl (countRune numberSystem) _ (runesOf name))
    as [[counts maxCount] unknownChars].
  destruct Hstate as (Hcounts & Hlargest & _). simpl.
  destruct (hiddenPassions_spec counts (map_to_list counts) ltac:(done))
    as (_ & Hps & _ & Hpin & Hpmax).
  destruct (karmicLessons_spec counts (map_to_list counts) ltac:(done))
    as (_ & Hls & Hlnd & Hlin).
  fold (hiddenPassions counts) in Hps, Hpin, Hpmax.
  fold (karmicLessons counts) in Hls, Hlnd, Hlin.
  set (m := HiddenPassionResults.MaxCount (hiddenPassions counts)) in *.
  assert (forall k v, counts !! k = Some v <->
            k ∈ validKeys numberSystem /\ occurrences numberSystem (runesOf name) k = v)
    as Hlookup.
  { intros k v. rewrite Hcounts. case_decide as Hk.
    - split; [intros [= <-]; done|intros [_ <-]; done].
    - split; [done|intros [? _]; done]. }
  split; [by apply (largestCount_unique counts)|].
  split; [intros k; by rewrite Hpin, Hlookup|].
  split.
  { intros k Hk. destruct Hpmax as (_ & Hle & _). apply (Hle k). by apply Hlookup. }
  split; [intros k; by rewrite Hlin, Hlookup|].
  intros Hm. split.
  - pose proof (hiddenPassionsIn_eq (map_to_list counts)) as Heq.
    fold (hiddenPassions counts) in Heq.
    unfold m in Hm. rewrite Heq in Hm |- *. simpl in Hm |- *. rewrite Hm.
    unfold karmicLessons, karmicLessonsIn. simpl. by rewrite lessonStep_loop.
  - intros k Hk. apply Hlin, Hlookup. split; [done|].
    pose proof (occurrences_bound numberSystem (runesOf name) k) as Hb.
    destruct Hpmax as (_ & Hle & _).
    specialize (Hle k _ (proj2 (Hlookup k _) (conj Hk eq_refl))). lia.
Qed.

Example passions_alphabet :
  hiddenPassions (countNumerologicalNumbers "abCdefghiJklmnOpqrstuvwxyz" Pythagorean).1.1
  = {| HiddenPassionResults.Numbers := [1; 2; 3; 4; 5; 6; 7; 8];
       HiddenPassionResults.MaxCount := 3 |}.
Proof. vm_compute. reflexivity. Qed.

Example passions_mary_ann :
  (NameNumerologyCounts.HiddenPassions maryAnn, NameNumerologyCounts.KarmicLessons maryAnn)
  = ({| HiddenPassionResults.Numbers := [5]; HiddenPassionResults.MaxCount := 4 |},
     {| KarmicLessonResults.Numbers := [2; 8] |}).
Proof. vm_compute. reflexivity. Qed.

Lemma name_passions_and_lessons_witness :
  Z.of_nat (length (runesOf (NameNumerology.Name maryAnn))) <= GoInt.max_int /\
  HiddenPassionResults.MaxCount (NameNumerologyCounts.HiddenPassions maryAnn) =
    (countNumerologicalNumbers (NameNumerology.Name maryAnn)
       (NameNumerology.NumberSystem maryAnn)).1.2.
Proof.
  assert (Z.of_nat (length (runesOf (NameNumerology.Name maryAnn))) <= GoInt.max_int)
    as Hlen by (vm_compute; discriminate).
  split; [exact Hlen|].
  exact (proj1 (name_passions_and_lessons maryAnn Hlen)).
Defined.
